(** * KDAudioClock: the event scheduler, embedded and verified

    A shallow embedding of the scheduling core of [KDAudioClock.ts],
    [KDAudioClockEvent.ts] and [KDUIDManager.ts]:

    - JavaScript numbers are exact rationals extended with [Infinity],
      [-Infinity] and [NaN]; rounding of doubles is outside the model;
    - the objects the program shares by reference (timed events, tolerance
      objects, caller-supplied option objects) live in stores indexed by
      references, so that mutation through an alias is visible;
    - every method is a computation over the store that can return,
      throw (a JavaScript [TypeError], or the exception of a callback) or
      run out of fuel (a loop of the source that does not end; the fuel
      also bounds the depth of the recursion of [schedule] and [execute],
      the stack of an engine being outside the model);
    - user callbacks are a parameter of the development: invoking one
      records the invocation in the trace and then runs an arbitrary
      store transformer. *)

From Stdlib Require Import QArith Lqa Bool List String Lia.
From stdpp Require Import base option list sorting gmap.
Import ListNotations.

Open Scope nat_scope.

(** ** JavaScript numbers *)

Inductive num : Type :=
| Fin (q : Q)
| PInf
| NInf
| NaN.

Module Num.

Definition zero : num := Fin 0%Q.

Definition neg (a : num) : num :=
  match a with
  | Fin q => Fin (- q)%Q
  | PInf => NInf
  | NInf => PInf
  | NaN => NaN
  end.

Definition add (a b : num) : num :=
  match a, b with
  | NaN, _ | _, NaN => NaN
  | Fin x, Fin y => Fin (x + y)%Q
  | PInf, NInf | NInf, PInf => NaN
  | PInf, _ | _, PInf => PInf
  | NInf, _ | _, NInf => NInf
  end.

Definition sub (a b : num) : num := add a (neg b).

(** Sign of a rational as a comparison with zero. *)
Definition sgn (q : Q) : comparison := (q ?= 0)%Q.

Definition scale_inf (pos : bool) (q : Q) : num :=
  match sgn q with
  | Eq => NaN
  | Gt => if pos then PInf else NInf
  | Lt => if pos then NInf else PInf
  end.

Definition mul (a b : num) : num :=
  match a, b with
  | NaN, _ | _, NaN => NaN
  | Fin x, Fin y => Fin (x * y)%Q
  | PInf, Fin y => scale_inf true y
  | NInf, Fin y => scale_inf false y
  | Fin x, PInf => scale_inf true x
  | Fin x, NInf => scale_inf false x
  | PInf, PInf | NInf, NInf => PInf
  | PInf, NInf | NInf, PInf => NInf
  end.

(** [x / 1000], the only division of the scheduling core. *)
Definition div1000 (a : num) : num :=
  match a with
  | Fin q => Fin (q / 1000)%Q
  | other => other
  end.

(** [a <= b]; every comparison with [NaN] is false. *)
Definition leb (a b : num) : bool :=
  match a, b with
  | NaN, _ | _, NaN => false
  | Fin x, Fin y => Qle_bool x y
  | NInf, _ => true
  | _, PInf => true
  | _, _ => false
  end.

(** [a < b]. *)
Definition ltb (a b : num) : bool :=
  match a, b with
  | NaN, _ | _, NaN => false
  | Fin x, Fin y => negb (Qle_bool y x)
  | PInf, _ => false
  | _, NInf => false
  | _, _ => true
  end.

(** [a >= b]. *)
Definition geb (a b : num) : bool := leb b a.

(** [a === b] on numbers. *)
Definition eqb (a b : num) : bool :=
  match a, b with
  | Fin x, Fin y => Qeq_bool x y
  | PInf, PInf | NInf, NInf => true
  | _, _ => false
  end.

(** [!!a]: zero and [NaN] are falsy. *)
Definition truthy (a : num) : bool :=
  match a with
  | Fin q => negb (Qeq_bool q 0)
  | NaN => false
  | _ => true
  end.

Definition isNaN (a : num) : bool :=
  match a with NaN => true | _ => false end.

Definition isFinite (a : num) : bool :=
  match a with Fin _ => true | _ => false end.

Definition of_nat (n : nat) : num := Fin (inject_Z (Z.of_nat n)).

(** [Number.MAX_SAFE_INTEGER], 2^53 - 1. *)
Definition MAX_SAFE_INTEGER : num := Fin (inject_Z (2 ^ 53 - 1)).
Definition MIN_SAFE_INTEGER : num := Fin (inject_Z (- (2 ^ 53 - 1))).

End Num.

(** A slot that holds a number, [undefined] or [null]. *)
Inductive jsval : Type :=
| JNum (n : num)
| JUndef
| JNull.

(** The [ToNumber] conversion the arithmetic and relational operators apply. *)
Definition toNumber (v : jsval) : num :=
  match v with
  | JNum n => n
  | JUndef => NaN
  | JNull => Num.zero
  end.

Definition js_add (a b : jsval) : jsval := JNum (Num.add (toNumber a) (toNumber b)).
Definition js_sub (a b : jsval) : jsval := JNum (Num.sub (toNumber a) (toNumber b)).
Definition js_mul (a b : jsval) : jsval := JNum (Num.mul (toNumber a) (toNumber b)).
Definition js_div1000 (a : jsval) : jsval := JNum (Num.div1000 (toNumber a)).
Definition js_leb (a b : jsval) : bool := Num.leb (toNumber a) (toNumber b).
Definition js_ltb (a b : jsval) : bool := Num.ltb (toNumber a) (toNumber b).
Definition js_geb (a b : jsval) : bool := Num.geb (toNumber a) (toNumber b).

(** An optional numeric property of an object: [None] is an absent property. *)
Definition prop_val (p : option num) : jsval :=
  match p with
  | Some n => JNum n
  | None => JUndef
  end.

(** [!!p] for an optional numeric property. *)
Definition prop_truthy (p : option num) : bool :=
  match p with
  | Some n => Num.truthy n
  | None => false
  end.

(** ** Objects *)

(** References into the stores, and the identity of a user callback. *)
Abbreviation evref := nat (only parsing).
Abbreviation tolref := nat (only parsing).
Abbreviation optref := nat (only parsing).
Abbreviation cbid := nat (only parsing).

(** A [{early?, late?}] object; [None] is an absent own property. *)
Record Tolerance : Type := mkTolerance {
  early : option num;
  late : option num;
}.

(** The [loop] member of [KDAudioClockEventOptions]. *)
Record LoopOptions : Type := mkLoop {
  interval : option num;
  repetitions : option num;
}.

(** [KDAudioClockEventOptions]. The [tolerance] member is a reference: the
    scheduler may store its own tolerance object there. *)
Record EventOptions : Type := mkOptions {
  delay : option num;
  loop : option LoopOptions;
  tolerance : option tolref;
  onTick : option cbid;
  onComplete : option cbid;
  onAborted : option cbid;
  onMissed : option cbid;
}.

(** The private [self] of a [KDAudioClockEvent]. *)
Record EventSelf : Type := mkSelf {
  s_uid : option nat;
  s_suspended : bool;
  s_scheduled : jsval;
  s_earliest : jsval;
  s_latest : jsval;
  s_tol_early : jsval;
  s_tol_late : jsval;
  s_initialInterval : jsval;
  s_currentInterval : jsval;
  s_repetitions : jsval;
  s_elapsedTickCount : nat;
  s_timeStretch : jsval;
  s_onTick : option cbid;
  s_onComplete : option cbid;
  s_onAborted : option cbid;
  s_onMissed : option cbid;
}.

(** An event object is live, or deleted: [delete] clears [self], [_self] and
    the public members and sets [deleted]. *)
Inductive EventObj : Type :=
| Live (s : EventSelf)
| Deleted.

(** The four callback slots of an event. *)
Inductive Slot : Type := OnTick | OnComplete | OnAborted | OnMissed.

(** What an observer sees: console warnings and callback invocations, and a
    mark for every firing with its classification ([true] is on time). *)
Inductive Obs : Type :=
| Warn (msg : string)
| Called (slot : Slot) (f : cbid) (e : evref)
| Fire (e : evref) (onTime : bool).

(** The store: the private [self] of one [KDAudioClock], the [Map] and the
    generator of its [KDUIDManager], and the objects it shares with its
    caller. [context] is [Some t] for an audio context whose [currentTime]
    is [t] during the call and [None] for [null]. *)
Record State : Type := mkState {
  context : option Q;
  isRunning : bool;
  clock_tolerance : tolref;
  events : list evref;
  uidmap : list (evref * nat);
  next_uid : nat;
  evheap : gmap evref EventObj;
  next_ev : evref;
  tolheap : gmap tolref Tolerance;
  optheap : gmap optref EventOptions;
  trace : list Obs;
}.

Definition set_events (q : list evref) (c : State) : State :=
  mkState (context c) (isRunning c) (clock_tolerance c) q (uidmap c)
          (next_uid c) (evheap c) (next_ev c) (tolheap c) (optheap c) (trace c).

Definition set_uidmap (m : list (evref * nat)) (c : State) : State :=
  mkState (context c) (isRunning c) (clock_tolerance c) (events c) m
          (next_uid c) (evheap c) (next_ev c) (tolheap c) (optheap c) (trace c).

Definition set_next_uid (n : nat) (c : State) : State :=
  mkState (context c) (isRunning c) (clock_tolerance c) (events c) (uidmap c)
          n (evheap c) (next_ev c) (tolheap c) (optheap c) (trace c).

Definition set_evheap (h : gmap evref EventObj) (c : State) : State :=
  mkState (context c) (isRunning c) (clock_tolerance c) (events c) (uidmap c)
          (next_uid c) h (next_ev c) (tolheap c) (optheap c) (trace c).

Definition set_next_ev (n : evref) (c : State) : State :=
  mkState (context c) (isRunning c) (clock_tolerance c) (events c) (uidmap c)
          (next_uid c) (evheap c) n (tolheap c) (optheap c) (trace c).

Definition set_tolheap (h : gmap tolref Tolerance) (c : State) : State :=
  mkState (context c) (isRunning c) (clock_tolerance c) (events c) (uidmap c)
          (next_uid c) (evheap c) (next_ev c) h (optheap c) (trace c).

Definition set_optheap (h : gmap optref EventOptions) (c : State) : State :=
  mkState (context c) (isRunning c) (clock_tolerance c) (events c) (uidmap c)
          (next_uid c) (evheap c) (next_ev c) (tolheap c) h (trace c).

Definition set_trace (t : list Obs) (c : State) : State :=
  mkState (context c) (isRunning c) (clock_tolerance c) (events c) (uidmap c)
          (next_uid c) (evheap c) (next_ev c) (tolheap c) (optheap c) t.

Definition set_context (t : option Q) (c : State) : State :=
  mkState t (isRunning c) (clock_tolerance c) (events c) (uidmap c)
          (next_uid c) (evheap c) (next_ev c) (tolheap c) (optheap c) (trace c).

(** ** Computations *)

Inductive Res (A : Type) : Type :=
| Ok (a : A) (c : State)
| Throw (msg : string) (c : State)
| OutOfFuel.
Arguments Ok {A} a c.
Arguments Throw {A} msg c.
Arguments OutOfFuel {A}.

Definition M (A : Type) : Type := State -> Res A.

Definition ret {A} (a : A) : M A := fun c => Ok a c.

Definition bind {A B} (m : M A) (k : A -> M B) : M B :=
  fun c =>
    match m c with
    | Ok a c' => k a c'
    | Throw msg c' => Throw msg c'
    | OutOfFuel => OutOfFuel
    end.

Definition throw {A} (msg : string) : M A := fun c => Throw msg c.
Definition diverge {A} : M A := fun _ => OutOfFuel.
Definition get : M State := fun c => Ok c c.
Definition modify (f : State -> State) : M unit := fun c => Ok tt (f c).

Notation "x <- m ;; k" := (bind m (fun x => k))
  (at level 100, m at next level, right associativity).
Notation "m ;;; k" := (bind m (fun _ => k))
  (at level 100, right associativity).

(** [if (cond) stmt;] *)
Definition when (b : bool) (m : M unit) : M unit := if b then m else ret tt.

(** [xs.forEach(f)] *)
Fixpoint forEach {A} (f : A -> M unit) (xs : list A) : M unit :=
  match xs with
  | [] => ret tt
  | x :: rest => f x ;;; forEach f rest
  end.

Definition observe (o : Obs) : M unit :=
  modify (fun c => set_trace (trace c ++ [o]) c).

Definition warn (msg : string) : M unit := observe (Warn msg).

(** ** KDUIDManager

    The manager keeps a JavaScript [Map] from entity to identifier; a [Map]
    enumerates in insertion order, so it is an association list here. *)

(** Modelled from the spec: the generator [KDUID] is not among the sources;
    identifiers are unique for the lifetime of the owning scheduler, so
    [generate] hands out the next unused natural number. *)
Definition generate : M nat :=
  fun c => Ok (next_uid c) (set_next_uid (S (next_uid c)) c).

Definition map_has (e : evref) (m : list (evref * nat)) : bool :=
  existsb (fun p => Nat.eqb (fst p) e) m.

Definition map_delete (e : evref) (m : list (evref * nat)) : list (evref * nat) :=
  List.filter (fun p => negb (Nat.eqb (fst p) e)) m.

Definition map_get (e : evref) (m : list (evref * nat)) : option nat :=
  snd <$> List.find (fun p => Nat.eqb (fst p) e) m.

Definition hasUIDFor (e : evref) : M bool :=
  fun c => Ok (map_has e (uidmap c)) c.

Definition getUIDFor (e : evref) : M (option nat) :=
  fun c => Ok (map_get e (uidmap c)) c.

Definition generateUIDFor (e : evref) : M nat :=
  uid <- generate ;;
  modify (fun c =>
    let m := if map_has e (uidmap c) then map_delete e (uidmap c) else uidmap c in
    set_uidmap (m ++ [(e, uid)]) c) ;;;
  ret uid.

Definition deleteUIDFor (e : evref) : M unit :=
  modify (fun c =>
    if map_has e (uidmap c) then set_uidmap (map_delete e (uidmap c)) c else c).

(** ** The event queue of the clock *)

(** [self.context ? self.context.currentTime : null] *)
Definition currentTime (c : State) : jsval :=
  match context c with
  | Some t => JNum (Fin t)
  | None => JNull
  end.

Definition getCurrentTime : M jsval := fun c => Ok (currentTime c) c.

(** [self.events.indexOf(event) !== -1] *)
Definition inQueue (e : evref) (q : list evref) : bool :=
  existsb (Nat.eqb e) q.

Definition hasEvent (e : evref) : M bool :=
  fun c => Ok (inQueue e (events c)) c.

(** [event?.get?.nextDeadline()?.earliest]: [undefined] for an object whose
    members were cleared. *)
Definition earliestOf (h : gmap evref EventObj) (e : evref) : jsval :=
  match h !! e with
  | Some (Live s) => s_earliest s
  | _ => JUndef
  end.

(** The [while (low < high)] loop of [indexByTime]. *)
Fixpoint indexByTime_loop (fuel : nat) (h : gmap evref EventObj)
    (q : list evref) (deadline : jsval) (low high : nat) : nat :=
  match fuel with
  | O => low
  | S fuel' =>
      if low <? high then
        let mid := (low + high) / 2 in
        let early :=
          match q !! mid with
          | Some e => js_ltb (earliestOf h e) deadline
          | None => js_ltb JUndef deadline
          end in
        if early then indexByTime_loop fuel' h q deadline (mid + 1) high
        else indexByTime_loop fuel' h q deadline low mid
      else low
  end.

(** The interval [high - low] shrinks at every turn, so the length of the
    queue bounds the number of turns. *)
Definition indexByTime (h : gmap evref EventObj) (q : list evref)
    (deadline : jsval) : nat :=
  indexByTime_loop (S (length q)) h q deadline 0 (length q).

(** [arr.splice(index, 0, e)] *)
Definition splice_in (index : nat) (e : evref) (q : list evref) : list evref :=
  take index q ++ e :: drop index q.

(** Removal of the first occurrence: [indexOf] then [splice(index, 1)]. *)
Fixpoint remove_first (e : evref) (q : list evref) : list evref :=
  match q with
  | [] => []
  | x :: rest => if Nat.eqb x e then rest else x :: remove_first e rest
  end.

Definition insertEvent (e : evref) : M bool :=
  c <- get ;;
  match evheap c !! e with
  | Some (Live s) =>
      let index := indexByTime (evheap c) (events c) (s_earliest s) in
      modify (set_events (splice_in index e (events c))) ;;;
      has <- hasUIDFor e ;;
      (if has then ret tt else (generateUIDFor e ;;; ret tt)) ;;;
      c' <- get ;;
      ret (inQueue e (events c'))
  | _ => throw "cannot read properties of undefined (reading 'nextDeadline')"
  end.

Definition removeEvent (e : evref) : M bool :=
  modify (fun c => set_events (remove_first e (events c)) c) ;;;
  c' <- get ;;
  ret (negb (inQueue e (events c'))).

Definition deleteEventFromManager (e : evref) : M bool :=
  has <- hasUIDFor e ;;
  when has (deleteUIDFor e) ;;;
  ret (negb has).

(** ** KDAudioClockEvent *)

Definition set_self (e : evref) (s : EventSelf) : M unit :=
  modify (fun c => set_evheap (<[e := Live s]> (evheap c)) c).

Definition with_suspended (b : bool) (s : EventSelf) : EventSelf :=
  mkSelf (s_uid s) b (s_scheduled s) (s_earliest s) (s_latest s)
         (s_tol_early s) (s_tol_late s) (s_initialInterval s)
         (s_currentInterval s) (s_repetitions s) (s_elapsedTickCount s)
         (s_timeStretch s) (s_onTick s) (s_onComplete s) (s_onAborted s)
         (s_onMissed s).

Definition with_deadline (scheduled earliest latest : jsval) (s : EventSelf)
    : EventSelf :=
  mkSelf (s_uid s) (s_suspended s) scheduled earliest latest
         (s_tol_early s) (s_tol_late s) (s_initialInterval s)
         (s_currentInterval s) (s_repetitions s) (s_elapsedTickCount s)
         (s_timeStretch s) (s_onTick s) (s_onComplete s) (s_onAborted s)
         (s_onMissed s).

Definition with_elapsedTickCount (n : nat) (s : EventSelf) : EventSelf :=
  mkSelf (s_uid s) (s_suspended s) (s_scheduled s) (s_earliest s)
         (s_latest s) (s_tol_early s) (s_tol_late s) (s_initialInterval s)
         (s_currentInterval s) (s_repetitions s) n
         (s_timeStretch s) (s_onTick s) (s_onComplete s) (s_onAborted s)
         (s_onMissed s).

Definition with_intervals (initial current : jsval) (s : EventSelf) : EventSelf :=
  mkSelf (s_uid s) (s_suspended s) (s_scheduled s) (s_earliest s)
         (s_latest s) (s_tol_early s) (s_tol_late s) initial
         current (s_repetitions s) (s_elapsedTickCount s)
         (s_timeStretch s) (s_onTick s) (s_onComplete s) (s_onAborted s)
         (s_onMissed s).

Definition with_timeStretch (ratio : jsval) (s : EventSelf) : EventSelf :=
  mkSelf (s_uid s) (s_suspended s) (s_scheduled s) (s_earliest s)
         (s_latest s) (s_tol_early s) (s_tol_late s) (s_initialInterval s)
         (s_currentInterval s) (s_repetitions s) (s_elapsedTickCount s)
         ratio (s_onTick s) (s_onComplete s) (s_onAborted s)
         (s_onMissed s).

Definition with_uid (u : nat) (s : EventSelf) : EventSelf :=
  mkSelf (Some u) (s_suspended s) (s_scheduled s) (s_earliest s)
         (s_latest s) (s_tol_early s) (s_tol_late s) (s_initialInterval s)
         (s_currentInterval s) (s_repetitions s) (s_elapsedTickCount s)
         (s_timeStretch s) (s_onTick s) (s_onComplete s) (s_onAborted s)
         (s_onMissed s).

(** [self.loop.elapsedTickCount < self.loop.repetitions] *)
Definition isLooping (s : EventSelf) : bool :=
  js_ltb (JNum (Num.of_nat (s_elapsedTickCount s))) (s_repetitions s).

(** [self.loop.elapsedTickCount >= self.loop.repetitions] *)
Definition isComplete (s : EventSelf) : bool :=
  js_geb (JNum (Num.of_nat (s_elapsedTickCount s))) (s_repetitions s).

(** The classification of a firing at time [now]. *)
Definition onTimeAt (now : jsval) (s : EventSelf) : bool :=
  js_geb now (s_earliest s) && js_leb now (s_latest s).

(** The private methods start with [if (deleted) return;]. A reference that
    names no object is not a well-formed argument. *)
Definition unless_deleted (e : evref) (k : EventSelf -> M unit) : M unit :=
  c <- get ;;
  match evheap c !! e with
  | Some (Live s) => k s
  | Some Deleted => ret tt
  | None => throw "not an event"
  end.

(** A member of a deleted event is [undefined]: calling it throws. *)
Definition member (e : evref) (name : string) (m : M unit) : M unit :=
  c <- get ;;
  match evheap c !! e with
  | Some (Live _) => m
  | _ => throw (name ++ " is not a function")
  end.

Section Callbacks.

(** The effect of the user function [f] called with the event [e]. *)
Variable run_cb : cbid -> evref -> M unit.

Definition call (slot : Slot) (f : cbid) (e : evref) : M unit :=
  observe (Called slot f e) ;;; run_cb f e.

Definition ev_update (e : evref) (deadline : jsval) : M unit :=
  unless_deleted e (fun s =>
    set_self e (with_deadline deadline
                  (js_sub deadline (s_tol_early s))
                  (js_add deadline (s_tol_late s)) s)).

Definition ev_suspend (e : evref) : M unit :=
  unless_deleted e (fun s =>
    removeEvent e ;;;
    set_self e (with_suspended true s)).

(** [destroy] and [deleted = true]. *)
Definition ev_destroy (e : evref) : M unit :=
  modify (fun c => set_evheap (<[e := Deleted]> (evheap c)) c).

Definition ev_delete (e : evref) : M unit :=
  unless_deleted e (fun s =>
    let aborted := if isLooping s then s_onAborted s else None in
    match aborted with
    | Some f => call OnAborted f e
    | None =>
        match s_onComplete s with
        | Some f => call OnComplete f e
        | None => ret tt
        end
    end ;;;
    member e "_self.suspend" (
      ev_suspend e ;;;
      deleteEventFromManager e ;;;
      ev_destroy e)).

Definition requeue (e : evref) : M unit :=
  has <- hasEvent e ;;
  (if has then (removeEvent e ;;; ret tt) else ret tt) ;;;
  insertEvent e ;;;
  ret tt.

(** [schedule(deadline, sync)], with the call of [_self.execute] left as a
    parameter: the two methods call each other. *)
Definition ev_schedule_with (exec : evref -> M unit) (e : evref)
    (deadline : jsval) (sync : bool) : M unit :=
  unless_deleted e (fun s =>
    set_self e (with_suspended false s) ;;;
    ev_update e deadline ;;;
    if sync then requeue e
    else
      unless_deleted e (fun s' =>
        now <- getCurrentTime ;;
        if js_geb now (s_earliest s') then exec e else requeue e)).

Fixpoint ev_execute (fuel : nat) (e : evref) : M unit :=
  match fuel with
  | O => diverge
  | S fuel' =>
      unless_deleted e (fun s =>
        c <- get ;;
        if negb (isRunning c) || s_suspended s then ret tt
        else
          removeEvent e ;;;
          let s1 := with_elapsedTickCount (S (s_elapsedTickCount s)) s in
          set_self e s1 ;;;
          now <- getCurrentTime ;;
          let onTime := onTimeAt now s1 in
          observe (Fire e onTime) ;;;
          (match onTime, s_onTick s1 with
           | true, Some f => call OnTick f e
           | _, _ =>
               match s_onMissed s1 with
               | Some f => call OnMissed f e
               | None => ret tt
               end
           end) ;;;
          unless_deleted e (fun s2 =>
            if isComplete s2 then ev_delete e
            else
              has <- hasEvent e ;;
              let ready := negb has && isLooping s2 && negb (s_suspended s2) in
              let dl := js_add (s_scheduled s2)
                               (js_div1000 (s_currentInterval s2)) in
              when ready (ev_schedule_with (ev_execute fuel') e dl false)))
  end.

Definition ev_schedule (fuel : nat) (e : evref) (deadline : jsval)
    (sync : bool) : M unit :=
  ev_schedule_with (ev_execute fuel) e deadline sync.

(** [sync(delayInMs = 0)]; the method reads [self.clock] at once. *)
Definition ev_sync (fuel : nat) (e : evref) (delayInMs : jsval) : M unit :=
  member e "self.clock.getCurrentTime" (
    now <- getCurrentTime ;;
    let d := match delayInMs with JUndef => JNum Num.zero | v => v end in
    ev_schedule fuel e (js_add now (js_div1000 d)) true).

Definition ev_reschedule (fuel : nat) (e : evref) (deadline : jsval) : M unit :=
  unless_deleted e (fun s =>
    now <- getCurrentTime ;;
    let dl := if Num.truthy (toNumber deadline) then deadline else now in
    set_self e (with_elapsedTickCount 0 s) ;;;
    ev_schedule fuel e dl true).

(** [while (time <= latest) deadline += step]: neither [time] nor [latest]
    changes in the body. *)
Fixpoint stretch_walk (fuel : nat) (time latest step deadline : jsval)
    : option jsval :=
  match fuel with
  | O => None
  | S fuel' =>
      if js_leb time latest
      then stretch_walk fuel' time latest step (js_add deadline step)
      else Some deadline
  end.

Definition ev_timeStretch (fuel : nat) (e : evref) (ratio : jsval) : M unit :=
  unless_deleted e (fun s =>
    if negb (isLooping s) then ret tt
    else
      has <- hasEvent e ;;
      (if has then (removeEvent e ;;; ret tt) else ret tt) ;;;
      let interval := s_currentInterval s in
      let old := js_sub (s_scheduled s) (js_div1000 interval) in
      let current := js_mul (s_initialInterval s) ratio in
      set_self e (with_intervals (s_initialInterval s) current
                    (with_timeStretch ratio s)) ;;;
      let deadline := js_add old (js_div1000 current) in
      time <- getCurrentTime ;;
      let earliest := js_sub deadline (s_tol_early s) in
      let walked :=
        if js_geb time earliest then
          let latest := js_sub deadline (s_tol_late s) in
          stretch_walk fuel time latest (js_div1000 current) deadline
        else Some deadline in
      match walked with
      | Some deadline' => ev_schedule fuel e deadline' false
      | None => diverge
      end).

Definition ev_updateWithInterval (fuel : nat) (e : evref)
    (intervalInMs : jsval) : M unit :=
  unless_deleted e (fun s =>
    let current := js_mul intervalInMs (s_timeStretch s) in
    set_self e (with_intervals intervalInMs current s) ;;;
    let dl := js_add (s_scheduled s) (js_div1000 current) in
    has <- hasEvent e ;;
    if has then ret tt else ev_schedule fuel e dl false).

Definition ev_setUid (e : evref) (u : nat) : M unit :=
  unless_deleted e (fun s => set_self e (with_uid u s)).

End Callbacks.

(** ** KDAudioClock *)

Definition with_loop (l : option LoopOptions) (o : EventOptions) : EventOptions :=
  mkOptions (delay o) l (tolerance o) (onTick o) (onComplete o) (onAborted o)
            (onMissed o).

Definition with_tolerance (t : option tolref) (o : EventOptions) : EventOptions :=
  mkOptions (delay o) (loop o) t (onTick o) (onComplete o) (onAborted o)
            (onMissed o).

(** [ev.loop?.interval] and [ev.loop?.repetitions] *)
Definition loop_interval (o : EventOptions) : option num :=
  match loop o with
  | Some l => interval l
  | None => None
  end.

Definition loop_repetitions (o : EventOptions) : option num :=
  match loop o with
  | Some l => repetitions l
  | None => None
  end.

Definition is_number (p : option num) : bool :=
  match p with Some _ => true | None => false end.

(** The two assignments that open the declarative branch of [schedule]. *)
Definition resolve_defaults (ev : EventOptions) : EventOptions :=
  if is_number (delay ev)
     && negb (prop_truthy (loop_interval ev))
     && negb (prop_truthy (loop_repetitions ev))
  then with_loop (Some (mkLoop None (Some (Fin 1%Q)))) ev
  else if negb (prop_truthy (delay ev))
          && is_number (loop_interval ev)
          && negb (prop_truthy (loop_repetitions ev))
  then with_loop (Some (mkLoop (loop_interval ev) (Some PInf))) ev
  else ev.

Definition is_infinity (p : option num) : bool :=
  match p with Some PInf => true | _ => false end.

Definition infiniteDelay (ev : EventOptions) : bool := is_infinity (delay ev).

Definition noDelayOrLoop (ev : EventOptions) : bool :=
  match delay ev, loop ev with
  | None, None => true
  | _, _ => false
  end.

Definition zeroDelayWithInfiniteRepetitions (ev : EventOptions) : bool :=
  negb (prop_truthy (delay ev))
  && negb (prop_truthy (loop_interval ev))
  && is_infinity (loop_repetitions ev).

Definition is_usable (p : option num) : bool :=
  match p with
  | Some n => negb (Num.isNaN n)
  | None => false
  end.

Definition getDelay (ev : EventOptions) : jsval :=
  if is_usable (delay ev) then js_div1000 (prop_val (delay ev))
  else if is_usable (loop_interval ev) then js_div1000 (prop_val (loop_interval ev))
  else JNum Num.zero.

(** [interval >= 0.05 ? interval : 0.005] *)
Definition clamp_interval (i : jsval) : jsval :=
  if js_geb i (JNum (Fin (1 # 20))) then i else JNum (Fin (1 # 200)).

Definition deadlineIsSafe (deadline : jsval) : bool :=
  match deadline with
  | JNum n =>
      negb (Num.isNaN n) && Num.isFinite n
      && Num.leb n Num.MAX_SAFE_INTEGER && Num.geb n Num.MIN_SAFE_INTEGER
  | _ => false
  end.

(** The three shapes of the first argument of [schedule], and of its result. *)
Inductive SchedArg : Type :=
| ArgOptions (o : optref)
| ArgEvent (e : evref)
| ArgEvents (es : list evref).

Inductive SchedRet : Type :=
| RetUndefined
| RetEvent (e : evref)
| RetEvents (es : list evref).

(** One event or an array of events. *)
Inductive Targets : Type :=
| One (e : evref)
| Many (es : list evref).

Definition is_Some_b {A} (o : option A) : bool :=
  match o with Some _ => true | None => false end.

Definition read_options (o : optref) : M EventOptions :=
  fun c =>
    match optheap c !! o with
    | Some opts => Ok opts c
    | None => Throw "not an options object" c
    end.

Definition write_options (o : optref) (opts : EventOptions) : M unit :=
  modify (fun c => set_optheap (<[o := opts]> (optheap c)) c).

Definition read_tolerance (t : tolref) : M Tolerance :=
  fun c =>
    match tolheap c !! t with
    | Some tol => Ok tol c
    | None => Throw "not a tolerance object" c
    end.

Definition write_tolerance (t : tolref) (tol : Tolerance) : M unit :=
  modify (fun c => set_tolheap (<[t := tol]> (tolheap c)) c).

(** [opts.tolerance?.hasOwnProperty(name)] negated, for [early] and [late]. *)
Definition lacks (get_prop : Tolerance -> option num) (t : option tolref)
    : M bool :=
  match t with
  | None => ret true
  | Some r => tol <- read_tolerance r ;; ret (negb (is_number (get_prop tol)))
  end.

Section Clock.

Variable run_cb : cbid -> evref -> M unit.

(** [new KDAudioClockEvent(clock, opts, deadline)] *)
Definition newEvent (fuel : nat) (o : optref) (deadline : jsval) : M evref :=
  opts <- read_options o ;;
  match tolerance opts with
  | None => throw "cannot read properties of undefined (reading 'early')"
  | Some t =>
      tol <- read_tolerance t ;;
      match loop opts with
      | None => throw "cannot read properties of undefined (reading 'repetitions')"
      | Some l =>
          c <- get ;;
          let e := next_ev c in
          let self :=
            mkSelf None false JNull JNull JNull
                   (prop_val (early tol)) (prop_val (late tol))
                   JNull JNull (prop_val (repetitions l)) 0
                   (JNum (Fin 1%Q))
                   (onTick opts) (onComplete opts) (onAborted opts)
                   (onMissed opts) in
          modify (set_next_ev (S e)) ;;;
          set_self e self ;;;
          ev_schedule run_cb fuel e deadline false ;;;
          ret e
      end
  end.

Definition createEvent (fuel : nat) (o : optref) (deadline : jsval) : M evref :=
  opts <- read_options o ;;
  let optsNoTolerance := negb (is_Some_b (tolerance opts)) in
  optsNoEarly <- lacks early (tolerance opts) ;;
  optsNoLate <- lacks late (tolerance opts) ;;
  c <- get ;;
  when optsNoTolerance
    (write_options o (with_tolerance (Some (clock_tolerance c)) opts)) ;;;
  opts' <- read_options o ;;
  match tolerance opts' with
  | None => throw "cannot set properties of undefined"
  | Some t =>
      when optsNoEarly (
        own <- read_tolerance (clock_tolerance c) ;;
        tol <- read_tolerance t ;;
        write_tolerance t (mkTolerance (early own) (late tol))) ;;;
      when optsNoLate (
        own <- read_tolerance (clock_tolerance c) ;;
        tol <- read_tolerance t ;;
        write_tolerance t (mkTolerance (early tol) (late own))) ;;;
      newEvent fuel o deadline
  end.

(** [scheduleGuard] of the clock: for an event it calls the member
    [isSuspended], which a deleted event no longer has. *)
Definition scheduleGuard (arg : SchedArg) : M bool :=
  match arg with
  | ArgEvent e => member e "isSuspended" (ret tt) ;;; ret false
  | _ => ret false
  end.

(** The private [schedule] of the clock. *)
Definition clock_schedule (fuel : nat) (arg : SchedArg) (deadline : jsval)
    : M SchedRet :=
  c <- get ;;
  if negb (is_Some_b (context c)) || negb (isRunning c) then
    warn "make sure to start the clock" ;;; ret RetUndefined
  else
    invalidEvent <- scheduleGuard arg ;;
    if invalidEvent then warn "event does not exist" ;;; ret RetUndefined
    else
      let _deadline := if deadlineIsSafe deadline then deadline else currentTime c in
      match arg with
      | ArgEvent e =>
          member e "event.schedule" (ev_schedule run_cb fuel e deadline false) ;;;
          ret (RetEvent e)
      | ArgEvents es =>
          forEach (fun e =>
            member e "event.schedule" (ev_schedule run_cb fuel e deadline false))
            es ;;;
          ret (RetEvents es)
      | ArgOptions o =>
          ev0 <- read_options o ;;
          write_options o (resolve_defaults ev0) ;;;
          ev <- read_options o ;;
          if infiniteDelay ev || zeroDelayWithInfiniteRepetitions ev then
            warn "delay and/or loop repetitions must not be infinite" ;;;
            ret RetUndefined
          else if noDelayOrLoop ev then
            warn "must set one of delay, loop.interval, or loop.repetitions" ;;;
            ret RetUndefined
          else
            let interval := clamp_interval (getDelay ev) in
            evt <- createEvent fuel o (js_add _deadline interval) ;;
            uid <- generateUIDFor evt ;;
            member evt "_self.setUid" (ev_setUid evt uid) ;;;
            member evt "evt.updateWithInterval"
              (ev_updateWithInterval run_cb fuel evt
                 (js_mul interval (JNum (Fin 1000%Q)))) ;;;
            ret (RetEvent evt)
      end.

(** The public member: [this.schedule = (opts) => _self.schedule(opts)]. *)
Definition schedule (fuel : nat) (arg : SchedArg) (deadline : jsval)
    : M SchedRet :=
  clock_schedule fuel arg JUndef.

Definition on_targets (f : evref -> M unit) (events : Targets) : M unit :=
  match events with
  | Many es => forEach f es
  | One e => f e
  end.

(** [sync(events, delay = 0)] of the clock. *)
Definition clock_sync (fuel : nat) (events : Targets) (delay : jsval) : M unit :=
  c <- get ;;
  if negb (is_Some_b (context c)) then ret tt
  else
    let d := match delay with JUndef => JNum Num.zero | v => v end in
    let deadline := js_add (currentTime c) (js_div1000 d) in
    on_targets (fun e =>
      member e "event.schedule" (ev_schedule run_cb fuel e deadline false))
      events.

Definition clock_suspend (events : Targets) : M unit :=
  on_targets (fun e => member e "event.suspend" (ev_suspend e)) events.

Definition clock_delete (events : Targets) : M unit :=
  on_targets (fun e => member e "event.delete" (ev_delete run_cb e)) events.

Definition clock_timeStretch (fuel : nat) (events : Targets) (ratio : jsval)
    : M unit :=
  on_targets (fun e =>
    member e "event.timeStretch" (ev_timeStretch run_cb fuel e ratio)) events.

(** [self.events.shift()] *)
Definition shift : M (option evref) :=
  fun c =>
    match events c with
    | [] => Ok None c
    | e :: rest => Ok (Some e) (set_events rest c)
    end.

Definition unshift (e : evref) : M unit :=
  modify (fun c => set_events (e :: events c) c).

(** The [while] loop of [tick] and the statement after it. *)
Fixpoint tick_loop (fuel : nat) (event : option evref) : M unit :=
  match fuel with
  | O => diverge
  | S fuel' =>
      match event with
      | None => ret tt
      | Some e =>
          c <- get ;;
          if js_leb (earliestOf (evheap c) e) (currentTime c) then
            member e "_self.execute" (ev_execute run_cb fuel e) ;;;
            next <- shift ;;
            tick_loop fuel' next
          else unshift e
      end
  end.

Definition tick (fuel : nat) : M unit :=
  c <- get ;;
  if negb (is_Some_b (context c)) then ret tt
  else
    event <- shift ;;
    tick_loop fuel event.

End Clock.

(** Callbacks that leave the scheduler alone. *)
Definition inert : cbid -> evref -> M unit := fun _ _ => ret tt.

(** ** Predicates of the specification *)

(** The sort key of a queued event. *)
Definition keyOf (h : gmap evref EventObj) (e : evref) : num :=
  toNumber (earliestOf h e).

(** The queue is in non-decreasing order of [earliest], and no key is [NaN]. *)
Definition queue_sorted (h : gmap evref EventObj) (q : list evref) : Prop :=
  StronglySorted (fun a b => Num.leb (keyOf h a) (keyOf h b) = true) q
  /\ Forall (fun a => keyOf h a <> NaN) q.

(** An event whose [earliest] bound has been reached at the time of [c]. *)
Definition due (c : State) (e : evref) : Prop :=
  js_leb (earliestOf (evheap c) e) (currentTime c) = true.

(** An event whose [earliest] bound is still in the future. *)
Definition future (c : State) (e : evref) : Prop :=
  js_ltb (currentTime c) (earliestOf (evheap c) e) = true.

(** The event [e] fires in [tr]. *)
Definition fires (e : evref) (tr : list Obs) : Prop :=
  exists onTime, Fire e onTime ∈ tr.

(** The fields the clock itself never writes during scheduling. *)
Definition same_clock (c c' : State) : Prop :=
  context c' = context c /\ isRunning c' = isRunning c
  /\ clock_tolerance c' = clock_tolerance c.

(** A queued repeater in good order: not suspended, with a finite deadline
    and early tolerance and a positive finite current interval. *)
Definition steady (s : EventSelf) : Prop :=
  s_suspended s = false
  /\ (exists d, s_scheduled s = JNum (Fin d))
  /\ (exists t, s_tol_early s = JNum (Fin t))
  /\ (exists i, s_currentInterval s = JNum (Fin i) /\ (0 < i)%Q).

(** ** Sample stores *)

(** The defaults of the clock: [{ early: 0.001, late: 0.1 }]. *)
Definition default_tolerance : Tolerance :=
  mkTolerance (Some (Fin (1 # 1000))) (Some (Fin (1 # 10))).

(** A clock that was started, at time [t], with no event, its tolerance
    object at reference 0 and the option objects [opts] of its caller. *)
Definition started (t : Q) (opts : list (optref * EventOptions)) : State :=
  mkState (Some t) true 0 [] [] 0 ∅ 0 {[0 := default_tolerance]}
          (list_to_map opts) [].

(** A live event with the default tolerance, scheduled for [d]. *)
Definition sample_self (d : Q) (intervalMs : Q) (reps : jsval) (count : nat)
    (tick complete aborted missed : option cbid) : EventSelf :=
  mkSelf (Some 0) false (JNum (Fin d))
         (JNum (Fin (d - (1 # 1000)))) (JNum (Fin (d + (1 # 10))))
         (JNum (Fin (1 # 1000))) (JNum (Fin (1 # 10)))
         (JNum (Fin intervalMs)) (JNum (Fin intervalMs)) reps count
         (JNum (Fin 1)) tick complete aborted missed.

(** A started clock at time [t] that manages and queues the events [evs],
    given in queue order with their references. *)
Definition managing (t : Q) (evs : list (evref * EventSelf)) : State :=
  mkState (Some t) true 0 (fst <$> evs) ((fun p => (fst p, fst p)) <$> evs)
          (length evs) (list_to_map ((fun p => (fst p, Live (snd p))) <$> evs))
          (length evs) {[0 := default_tolerance]} ∅ [].

Definition self_of (c : State) (e : evref) : option EventSelf :=
  match evheap c !! e with
  | Some (Live s) => Some s
  | _ => None
  end.

(** The test of [indexByTime] at index [i]: is the entry earlier than the
    deadline? *)
Definition early_at (h : gmap evref EventObj) (q : list evref)
    (deadline : jsval) (i : nat) : bool :=
  match q !! i with
  | Some e => js_ltb (earliestOf h e) deadline
  | None => js_ltb JUndef deadline
  end.

(** What [insertEvent] leaves behind for a live event whose [self] is [s]. *)
Definition registered (e : evref) (c : State) : State :=
  if map_has e (uidmap c) then c
  else set_uidmap (uidmap c ++ [(e, next_uid c)])
         (set_next_uid (S (next_uid c)) c).

Definition inserted (e : evref) (s : EventSelf) (c : State) : State :=
  registered e
    (set_events
       (splice_in (indexByTime (evheap c) (events c) (s_earliest s)) e
                  (events c)) c).

(** [x] stands before [y] in the queue [q]. *)
Definition precedes (x y : evref) (q : list evref) : Prop :=
  exists l1 l2 l3, q = l1 ++ x :: l2 ++ y :: l3.

(** Stable insertion of [e] into the queue of [c]: the entries whose key
    equals the key of [e] stay before it. *)
Definition stable_insertion_at (c : State) (e : evref) : Prop :=
  forall b c',
    insertEvent e c = Ok b c' ->
    forall x,
      x ∈ events c ->
      Num.eqb (keyOf (evheap c) x) (keyOf (evheap c) e) = true ->
      precedes x e (events c').

(** One queued event, number 0, due at 12 s, and a second live event,
    number 1, with the same deadline, that is not queued yet. *)
Definition tie_store : State :=
  let base := managing 10 [(0, sample_self 12 1000 (JNum PInf) 0 None None None None)] in
  set_evheap
    (<[1 := Live (sample_self 12 1000 (JNum PInf) 0 None None None None)]>
       (evheap base)) base.

(** A repeater with only an [onMissed] handler (callback 9), due at 12 s and
    queued, in a clock whose time is exactly 12 s: the firing is on time. *)
Definition missed_only_store : State :=
  managing 12 [(0, sample_self 12 1000 (JNum PInf) 0 None None None (Some 9))].

(** A repeater every second with an [onTick] handler (callback 7), queued
    for 11 s in a clock at 10 s. *)
Definition repeater_store : State :=
  managing 10 [(0, sample_self 11 1000 (JNum PInf) 0 (Some 7) None None None)].

(** A one-shot, as [setTimeout] makes it: one repetition, none elapsed, and
    only an [onComplete] handler (callback 8); queued for 11 s at 10 s. *)
Definition timeout_store : State :=
  managing 10 [(0, sample_self 11 1000 (JNum (Fin 1)) 0 None (Some 8) None None)].

(** A repeater every 100 ms whose own tolerance is [{early: 0.2, late: 0.02}],
    queued for 10.1 s in a clock at 10 s. *)
Definition wide_early_self : EventSelf :=
  mkSelf (Some 0) false (JNum (Fin (101 # 10)))
         (JNum (Fin (99 # 10))) (JNum (Fin (1012 # 100)))
         (JNum (Fin (2 # 10))) (JNum (Fin (2 # 100)))
         (JNum (Fin 100)) (JNum (Fin 100)) (JNum PInf) 0
         (JNum (Fin 1)) (Some 7) None None None.

Definition wide_early_store : State := managing 10 [(0, wide_early_self)].

(** A repeater every second whose deadline, 10 s, is long past: the clock
    is at 20 s. *)
Definition stalled_store : State :=
  managing 20 [(0, sample_self 10 1000 (JNum PInf) 0 (Some 7) None None None)].

(** The number of firings in a trace. *)
Definition firings (tr : list Obs) : nat :=
  length (List.filter (fun o => match o with Fire _ _ => true | _ => false end) tr).

(** [true] when the clock has a context and is running. *)
Definition started_b (c : State) : bool :=
  is_Some_b (context c) && isRunning c.

(** The invalid declarative requests: the scheduler is not running, or
    delay and loop are both unset, or the delay is infinite, or the
    repetitions are infinite while the interval and the delay are unset. *)
Inductive invalid_request (c : State) (ev : EventOptions) : Prop :=
| not_running : started_b c = false -> invalid_request c ev
| nothing_set : delay ev = None -> loop ev = None -> invalid_request c ev
| infinite_delay : delay ev = Some PInf -> invalid_request c ev
| infinite_loop :
    delay ev = None -> loop_interval ev = None ->
    loop_repetitions ev = Some PInf -> invalid_request c ev.

(** The request object at [o] is the same in [c] and [c']. *)
Definition request_unchanged (o : optref) (c c' : State) : Prop :=
  optheap c' !! o = optheap c !! o.

(** Nothing of the scheduler has changed between [c] and [c']: no event was
    created, no identifier bound, the queue is as it was. *)
Definition scheduler_unchanged (c c' : State) : Prop :=
  same_clock c c'
  /\ events c' = events c
  /\ uidmap c' = uidmap c
  /\ next_uid c' = next_uid c
  /\ evheap c' = evheap c
  /\ next_ev c' = next_ev c
  /\ tolheap c' = tolheap c.

(** A request with an infinite delay and nothing else but a callback. *)
Definition infinite_delay_request : EventOptions :=
  mkOptions (Some PInf) None None (Some 7) None None None.

Definition infinite_delay_store : State := started 10 [(0, infinite_delay_request)].

(** The [self] of an event after [schedule] has cleared [suspended] and
    [update] has set the three deadlines. *)
Definition rescheduled (deadline : jsval) (s : EventSelf) : EventSelf :=
  with_deadline deadline (js_sub deadline (s_tol_early s))
                (js_add deadline (s_tol_late s)) (with_suspended false s).

(** The store after a live event was taken out of the queue and put back
    where its [earliest] bound belongs. *)
Definition requeued (e : evref) (s : EventSelf) (c : State) : State :=
  inserted e s (set_events (remove_first e (events c)) c).

(** The store with the [self] of [e] replaced. *)
Definition put_self (e : evref) (s : EventSelf) (c : State) : State :=
  set_evheap (<[e := Live s]> (evheap c)) c.

(** The tolerance object a request ends up with: its own, or the clock's. *)
Definition tol_target (c : State) (ev : EventOptions) : tolref :=
  match tolerance ev with
  | Some t => t
  | None => clock_tolerance c
  end.

(** The tolerance object of a request after [createEvent] has filled in,
    from the clock's object [own], the members it lacked. *)
Definition fill_tolerance (own tol : Tolerance) : Tolerance :=
  mkTolerance
    (match early tol with Some x => Some x | None => early own end)
    (match late tol with Some x => Some x | None => late own end).

(** The [self] the constructor builds before it schedules the event. *)
Definition fresh_self (ev : EventOptions) (tol : Tolerance) (l : LoopOptions)
    : EventSelf :=
  mkSelf None false JNull JNull JNull
         (prop_val (early tol)) (prop_val (late tol))
         JNull JNull (prop_val (repetitions l)) 0 (JNum (Fin 1%Q))
         (onTick ev) (onComplete ev) (onAborted ev) (onMissed ev).

(** The store after [createEvent] has completed the request object. *)
Definition completed (o : optref) (ev : EventOptions) (own tol : Tolerance)
    (c : State) : State :=
  set_tolheap (<[tol_target c ev := fill_tolerance own tol]> (tolheap c))
    (set_optheap (<[o := with_tolerance (Some (tol_target c ev)) ev]> (optheap c)) c).

(** The wait, in seconds, before the first tick of a request whose delay or
    interval is [ms] milliseconds: the duration itself from 50 ms on, and
    5 ms below. *)
Definition wait_of (ms : Q) : Q :=
  if Qle_bool (1 # 20) (ms / 1000) then (ms / 1000)%Q else (1 # 200)%Q.

(** The three shapes of a declarative request the default policy speaks
    of, each with the duration that sets the first tick, the repetitions
    the event gets and, where the policy promises one, the interval
    between ticks. *)
Inductive declared : EventOptions -> Q -> jsval -> option Q -> Prop :=
| delay_alone ev d :
    delay ev = Some (Fin d) -> loop ev = None ->
    declared ev d (JNum (Fin 1)) None
| interval_alone ev i :
    delay ev = None -> loop ev = Some (mkLoop (Some (Fin i)) None) ->
    ~ (i == 0)%Q ->
    declared ev i (JNum PInf) (Some i)
| delay_and_interval ev d i r :
    delay ev = Some (Fin d) -> ~ (d == 0)%Q ->
    loop ev = Some (mkLoop (Some (Fin i)) r) -> ~ (i == 0)%Q ->
    declared ev d (prop_val r) None.

(** The first tick is immediate: the event has fired during the call, or is
    due at the time of the call. *)
Definition first_tick_immediate (e : evref) (c' : State) : Prop :=
  fires e (trace c') \/ due c' e.

(** A request with an interval of one second and nothing else but an
    [onTick] callback. *)
Definition interval_request : EventOptions :=
  mkOptions None (Some (mkLoop (Some (Fin 1000)) None)) None (Some 7) None None None.

Definition interval_store : State := started 10 [(0, interval_request)].

(** A request with a delay of two seconds, an interval of half a second and
    three repetitions. *)
Definition delay_interval_request : EventOptions :=
  mkOptions (Some (Fin 2000)) (Some (mkLoop (Some (Fin 500)) (Some (Fin 3))))
            None (Some 7) None None None.

Definition delay_interval_store : State := started 10 [(0, delay_interval_request)].

(** The trace of one firing with callbacks that leave the scheduler alone:
    the mark of the firing and the call of the handler [execute] selects. *)
Definition fire_trace (e : evref) (s : EventSelf) (onTime : bool) : list Obs :=
  Fire e onTime ::
  match onTime, s_onTick s with
  | true, Some f => [Called OnTick f e]
  | _, _ =>
      match s_onMissed s with
      | Some f => [Called OnMissed f e]
      | None => []
      end
  end.

(** The trace of a deletion. *)
Definition delete_trace (e : evref) (s : EventSelf) : list Obs :=
  match (if isLooping s then s_onAborted s else None) with
  | Some f => [Called OnAborted f e]
  | None =>
      match s_onComplete s with
      | Some f => [Called OnComplete f e]
      | None => []
      end
  end.

(** The store after the event [e], whose [self] was [s], has fired once. *)
Definition fired (e : evref) (s : EventSelf) (c : State) : State :=
  let s1 := with_elapsedTickCount (S (s_elapsedTickCount s)) s in
  set_trace (trace c ++ fire_trace e s1 (onTimeAt (currentTime c) s1))
    (put_self e s1 (set_events (remove_first e (events c)) c)).

(** The store after the deletion of the live event [e]. *)
Definition deleted (e : evref) (s : EventSelf) (c : State) : State :=
  set_evheap (<[e := Deleted]> (evheap c))
    (set_uidmap (if map_has e (uidmap c) then map_delete e (uidmap c) else uidmap c)
       (set_events (remove_first e (events c))
          (set_trace (trace c ++ delete_trace e s) c))).

(** An entry of the trace that concerns the event [e]. *)
Definition about (e : evref) (o : Obs) : Prop :=
  match o with
  | Fire x _ => x = e
  | Called _ _ x => x = e
  | Warn _ => False
  end.

(** What one call of [execute] on [e] does to the store: the clock and the
    other events are as they were, the trace has grown by entries about
    [e], a firing among them, and the queue has kept every prefix of due
    events in place, [e] being absent or put back behind them with an
    [earliest] bound in the future. *)
Record executed (e : evref) (c c' : State) : Prop := mkExecuted {
  ex_clock : same_clock c c';
  ex_heap : forall x, x <> e -> evheap c' !! x = evheap c !! x;
  ex_trace : exists tr,
      trace c' = trace c ++ tr /\ fires e tr /\ Forall (about e) tr;
  ex_queue : forall pre post,
      events c = pre ++ post -> Forall (due c) pre ->
      events c' = pre ++ post
      \/ exists a b, post = a ++ b /\ events c' = pre ++ a ++ e :: b /\ future c' e;
}.

(** [tick] after its guard: take the head of the queue and enter the loop. *)
Definition drain (run_cb : cbid -> evref -> M unit) (fuel : nat) : M unit :=
  event <- shift ;; tick_loop run_cb fuel event.

(** A queued event that [execute] can run: live and steady. *)
Definition runnable (c : State) (e : evref) : Prop :=
  exists s, evheap c !! e = Some (Live s) /\ steady s.

(** The events of the firings of a trace, in the order of the firings. *)
Definition firing_sequence (tr : list Obs) : list evref :=
  omap (fun o => match o with Fire e _ => Some e | _ => None end) tr.

(** The events [es], each in its turn: the first one [S k] times in a row,
    [k] being the first entry of [reps], then the second one, and so on. *)
Fixpoint in_turns (es : list evref) (reps : list nat) : list evref :=
  match es, reps with
  | e :: es', k :: reps' => replicate (S k) e ++ in_turns es' reps'
  | _, _ => []
  end.

(** What a tick leaves behind, for a queue that was [dues ++ rest]: the
    trace has grown by [tr], in which the events of [dues] fire in their
    turns, every one of them and no other event; every event left in the
    queue has its [earliest] bound in the future; the events of [rest] are
    still queued, untouched. *)
Definition drained (dues rest : list evref) (c c' : State) : Prop :=
  exists tr,
    trace c' = trace c ++ tr
    /\ (exists reps,
          length reps = length dues
          /\ firing_sequence tr = in_turns dues reps)
    /\ (forall x, x ∈ dues -> fires x tr)
    /\ (forall x, fires x tr -> x ∈ dues)
    /\ Forall (future c') (events c')
    /\ (forall x, x ∈ rest -> x ∈ events c' /\ evheap c' !! x = evheap c !! x)
    /\ same_clock c c'.

(** A clock at 12 s with three queued events: a repeater due since 11 s, a
    one-shot due at 12 s, and a repeater for 15 s. *)
Definition tick_store : State :=
  managing 12
    [(0, sample_self 11 1000 (JNum PInf) 0 (Some 7) None None None);
     (1, sample_self 12 500 (JNum (Fin 1)) 0 None (Some 8) None None);
     (2, sample_self 15 1000 (JNum PInf) 0 (Some 7) None None None)].
(** ** KDUIDManager: the other members *)

(** The key of the first entry, in insertion order, whose value is [uid]:
    the [for] loop of [getKeyFor] and of [deleteUID]. *)
Definition map_key_of (uid : nat) (m : list (evref * nat)) : option evref :=
  fst <$> List.find (fun p => Nat.eqb (snd p) uid) m.

(** [getKeyFor(uid)]; [None] is [undefined]. *)
Definition getKeyFor (uid : nat) : M (option evref) :=
  fun c => Ok (map_key_of uid (uidmap c)) c.

Definition keys : M (list evref) := fun c => Ok (fst <$> uidmap c) c.

Definition uids : M (list nat) := fun c => Ok (snd <$> uidmap c) c.

Definition entries : M (list (evref * nat)) := fun c => Ok (uidmap c) c.

(** [deleteUID(uid)]: the key of the first entry with this value is deleted
    from the map, and the loop breaks. *)
Definition deleteUID (uid : nat) : M unit :=
  modify (fun c =>
    match map_key_of uid (uidmap c) with
    | Some k => set_uidmap (map_delete k (uidmap c)) c
    | None => c
    end).

Definition deleteAll : M unit := modify (set_uidmap []).

(** ** KDAudioClock: the other members *)

Definition set_isRunning (b : bool) (c : State) : State :=
  mkState (context c) b (clock_tolerance c) (events c) (uidmap c)
          (next_uid c) (evheap c) (next_ev c) (tolheap c) (optheap c) (trace c).

(** The argument of the public [hasEvent]: an event or an identifier. *)
Inductive EventOrUid : Type :=
| ByEvent (e : evref)
| ByUid (uid : nat).

(** [hasEvent(event)] of the clock: an identifier is first resolved with
    [getKeyFor]; [undefined] is in no queue. *)
Definition clock_hasEvent (event : EventOrUid) : M bool :=
  match event with
  | ByEvent e => hasEvent e
  | ByUid uid =>
      key <- getKeyFor uid ;;
      match key with
      | Some e => hasEvent e
      | None => ret false
      end
  end.

(** [getEvents] lists the keys of the manager, [getEventQueue] the queue. *)
Definition getEvents : M (list evref) := keys.

Definition getEventQueue : M (list evref) := fun c => Ok (events c) c.

(** The private [setTolerance(tolerance)], its argument being an object:
    the members the argument has are copied into the clock's tolerance
    object, in place. *)
Definition clock_setTolerance (t : Tolerance) : M unit :=
  c <- get ;;
  when (is_number (early t)) (
    own <- read_tolerance (clock_tolerance c) ;;
    write_tolerance (clock_tolerance c) (mkTolerance (early t) (late own))) ;;;
  when (is_number (late t)) (
    own <- read_tolerance (clock_tolerance c) ;;
    write_tolerance (clock_tolerance c) (mkTolerance (early own) (late t))).

(** [a || b] on optional numbers. *)
Definition or_else (a b : option num) : option num :=
  if prop_truthy a then a else b.

(** The public [setTolerance]: every member that is falsy in the argument
    is taken from the clock's own tolerance. A member of the literal that
    holds [undefined] reads as an absent one. *)
Definition setTolerance (t : Tolerance) : M unit :=
  c <- get ;;
  own <- read_tolerance (clock_tolerance c) ;;
  clock_setTolerance
    (mkTolerance (or_else (early t) (early own)) (or_else (late t) (late own))).

(** An object literal: a new object, at a reference nothing else holds. *)
Definition new_options (opts : EventOptions) : M optref :=
  fun c =>
    let o := fresh (dom (optheap c)) in
    Ok o (set_optheap (<[o := opts]> (optheap c)) c).

(** [pause(stopped)]. The members [isPaused] and [clockNode] it also writes
    are read by no method of the scheduler and are not in the store; the
    promise of [context.suspend()] belongs to the audio context. *)
Definition clock_pause : M unit := modify (set_isRunning false).

(** The callback of [context.close().then(...)] in [stop]. *)
Definition clock_closed : M unit := modify (set_context None).

Section ClockMembers.

Variable run_cb : cbid -> evref -> M unit.

(** [setTimeout(callback, delayInMs)] *)
Definition clock_setTimeout (fuel : nat) (callback : option cbid)
    (delayInMs : option num) : M SchedRet :=
  o <- new_options
         (mkOptions delayInMs (Some (mkLoop None (Some (Fin 1%Q)))) None
                    None callback None None) ;;
  clock_schedule run_cb fuel (ArgOptions o) JUndef.

(** [setInterval(callback, intervalInMs)] *)
Definition clock_setInterval (fuel : nat) (callback : option cbid)
    (intervalInMs : option num) : M SchedRet :=
  o <- new_options
         (mkOptions None (Some (mkLoop intervalInMs None)) None
                    callback None None None) ;;
  clock_schedule run_cb fuel (ArgOptions o) JUndef.

(** [clearInterval(event)] is [event.delete()]. *)
Definition clearInterval (e : evref) : M unit :=
  member e "event.delete" (ev_delete run_cb e).

(** [stop()] up to the closing of the audio context: the clock is paused
    and every event the manager holds is deleted, in the order of the
    snapshot of its keys. *)
Definition clock_stop : M unit :=
  clock_pause ;;;
  ks <- keys ;;
  forEach (fun e => member e "event.delete" (ev_delete run_cb e)) ks.

End ClockMembers.
(** ** Predicates and sample stores for the other members *)

(** The queue without its leading run of events that are due at [now]:
    what the loop of [tick] leaves when every execution is a no-op. *)
Fixpoint drop_due (h : gmap evref EventObj) (now : jsval) (q : list evref)
    : list evref :=
  match q with
  | [] => []
  | e :: rest =>
      if js_leb (earliestOf h e) now then drop_due h now rest else q
  end.

(** The store of [tick_store], paused: the context is there, the clock is
    not running. *)
Definition paused_store : State := set_isRunning false tick_store.

(** An event whose deadline was set to [undefined]: its bounds are [NaN]. *)
Definition lost_self : EventSelf :=
  with_deadline JUndef (JNum NaN) (JNum NaN)
    (sample_self 11 1000 (JNum PInf) 0 (Some 7) None None None).

(** The store of [tick_store] with one more live event, number 3, not
    queued, whose bounds are [NaN]. *)
Definition lost_store : State :=
  set_evheap (<[3 := Live lost_self]> (evheap tick_store)) tick_store.

(** The queue holds no event twice and is sorted by [earliest]. *)
Definition well_queued (c : State) : Prop :=
  NoDup (events c) /\ queue_sorted (evheap c) (events c).

(** Between [c] and [c'] every event but [e] is as it was, in the store
    and in the queue. *)
Definition others_kept (e : evref) (c c' : State) : Prop :=
  forall x, x <> e ->
    (x ∈ events c' <-> x ∈ events c) /\ evheap c' !! x = evheap c !! x.

(** The store of [tick_store] after event 2 was suspended: the event is
    live, marked suspended, and no longer in the queue. *)
Definition idle_store : State :=
  set_events [0; 1]
    (set_evheap
       (<[2 := Live (with_suspended true
                       (sample_self 15 1000 (JNum PInf) 0 (Some 7) None None None))]>
          (evheap tick_store))
       tick_store).

(** The manager holds every target once, and every target it holds is a
    live event. *)
Definition managed_live (c : State) : Prop :=
  NoDup (fst <$> uidmap c)
  /\ forall e, e ∈ (fst <$> uidmap c) -> exists s, evheap c !! e = Some (Live s).

(** Every queued event is under management. *)
Definition queue_managed (c : State) : Prop :=
  forall e, e ∈ events c -> e ∈ (fst <$> uidmap c).

(** The callbacks of the deletions of the events [ks], in this order, as
    the store [h] has them. *)
Definition stop_trace (h : gmap evref EventObj) (ks : list evref) : list Obs :=
  List.flat_map
    (fun e =>
       match h !! e with
       | Some (Live s) => delete_trace e s
       | _ => []
       end) ks.

(** The deadline [n] steps after [d]. *)
Fixpoint nth_deadline (d step : Q) (n : nat) : Q :=
  match n with
  | O => d
  | S k => nth_deadline (d + step) step k
  end.

(** A clock that was started, at 10 s, with no event, whose tolerance is
    [{ early: 0.01, late: 0.1 }]. *)
Definition wide_clock : State :=
  mkState (Some 10%Q) true 0 [] [] 0 ∅ 0
          {[0 := mkTolerance (Some (Fin (1 # 100))) (Some (Fin (1 # 10)))]} ∅ [].

(** What [schedule] does with a new event [evt] once it is created. *)
Definition after_creation (run_cb : cbid -> evref -> M unit) (fuel : nat)
    (wait : jsval) (evt : evref) : M SchedRet :=
  uid <- generateUIDFor evt ;;
  member evt "_self.setUid" (ev_setUid evt uid) ;;;
  member evt "evt.updateWithInterval"
    (ev_updateWithInterval run_cb fuel evt (js_mul wait (JNum (Fin 1000%Q)))) ;;;
  ret (RetEvent evt).
(** ** The order of the firings *)

(** A handler that counts the firings and throws at number [n]. The count
    is read off the trace: where every firing calls a handler, it is the
    number of the calls. *)
Definition halting (n : nat) : cbid -> evref -> M unit :=
  fun _ _ c =>
    if Nat.eqb (firings (trace c)) n then Throw "halt" c else Ok tt c.

(** The firing number [n] of a tick, counted from one, as its handler sees
    it: the handlers let the firings before it pass and throw at this one,
    which ends the tick with the store of that moment. The result is the
    event that fires and the [earliest] bound it has while it does. *)
Definition firing_seen (fuel n : nat) (c : State) : option (evref * jsval) :=
  match tick (halting (firings (trace c) + n)) fuel c with
  | Throw msg c' =>
      match String.eqb msg "halt", last (trace c') with
      | true, Some (Called OnTick _ e)
      | true, Some (Called OnMissed _ e) => Some (e, earliestOf (evheap c') e)
      | _, _ => None
      end
  | _ => None
  end.

(** The events fire in non-decreasing order of their [earliest] bound: of
    two firings of a tick that follow each other, the second has a bound
    that is not below the bound of the first. *)
Definition fires_by_earliest (c : State) : Prop :=
  forall fuel n e1 b1 e2 b2,
    firing_seen fuel n c = Some (e1, b1) ->
    firing_seen fuel (S n) c = Some (e2, b2) ->
    js_leb b1 b2 = true.

(** The order of the queue entries by their [earliest] bound in [h]. *)
Definition by_earliest (h : gmap evref EventObj) (x y : evref) : Prop :=
  Num.leb (keyOf h x) (keyOf h y) = true.

(** A clock at 12 s with two queued repeaters, one firing a second, that
    have both handlers: the first is due since 10 s, the second since
    10.5 s. *)
Definition catch_up_store : State :=
  managing 12
    [(0, sample_self 10 1000 (JNum PInf) 0 (Some 7) None None (Some 9));
     (1, sample_self (21 # 2) 1000 (JNum PInf) 0 (Some 7) None None (Some 9))].

(** * Properties *)

(** Reduction of the projections of the store, through its setters, and of
    nothing else. The setters are not unfolded on their own: each copies
    its argument ten times. *)
Ltac st_simpl :=
  cbn [context isRunning clock_tolerance events uidmap next_uid evheap
       next_ev tolheap optheap trace
       set_events set_uidmap set_next_uid set_evheap set_next_ev
       set_tolheap set_optheap set_trace set_context] in *.

(** ** The order on numbers *)

Lemma leb_Fin x y : Num.leb (Fin x) (Fin y) = true <-> (x <= y)%Q.
Proof. simpl. apply Qle_bool_iff. Qed.

Lemma ltb_Fin x y : Num.ltb (Fin x) (Fin y) = true <-> (x < y)%Q.
Proof.
  simpl. rewrite negb_true_iff. split.
  - intros H. apply Qnot_le_lt. intros Hle.
    apply Qle_bool_iff in Hle. congruence.
  - intros H. destruct (Qle_bool y x) eqn:E; [|reflexivity].
    apply Qle_bool_iff in E. exfalso. exact (Qlt_not_le _ _ H E).
Qed.

Lemma leb_false_Fin x y : Num.leb (Fin x) (Fin y) = false <-> (y < x)%Q.
Proof.
  rewrite <- ltb_Fin. simpl. rewrite negb_true_iff. reflexivity.
Qed.

Lemma leb_trans a b c :
  Num.leb a b = true -> Num.leb b c = true -> Num.leb a c = true.
Proof.
  destruct a, b, c; simpl; try congruence.
  rewrite !Qle_bool_iff. apply Qle_trans.
Qed.

Lemma leb_ltb_trans a b c :
  Num.leb a b = true -> Num.ltb b c = true -> Num.ltb a c = true.
Proof.
  destruct a as [x| | |], b as [y| | |], c as [z| | |];
    try (simpl; congruence).
  rewrite leb_Fin, !ltb_Fin. apply Qle_lt_trans.
Qed.

Lemma ltb_leb_trans a b c :
  Num.ltb a b = true -> Num.leb b c = true -> Num.ltb a c = true.
Proof.
  destruct a as [x| | |], b as [y| | |], c as [z| | |];
    try (simpl; congruence).
  rewrite leb_Fin, !ltb_Fin. apply Qlt_le_trans.
Qed.

Lemma ltb_leb a b : Num.ltb a b = true -> Num.leb a b = true.
Proof.
  destruct a as [x| | |], b as [y| | |]; try (simpl; congruence).
  rewrite leb_Fin, ltb_Fin. apply Qlt_le_weak.
Qed.

(** Without [NaN] the order is total: [a < b] fails exactly when [b <= a]. *)
Lemma ltb_false_leb a b :
  a <> NaN -> b <> NaN -> Num.ltb a b = false -> Num.leb b a = true.
Proof.
  destruct a as [x| | |], b as [y| | |]; simpl; try congruence.
  intros _ _ H. apply negb_false_iff in H. exact H.
Qed.

Lemma ltb_leb_excl a b : Num.ltb a b = true -> Num.leb b a = false.
Proof.
  destruct a as [x| | |], b as [y| | |]; simpl; try congruence.
  intros H. apply negb_true_iff in H. exact H.
Qed.


(** ** Binary search and insertion *)

Lemma half_bounds low high :
  low < high -> low <= (low + high) / 2 /\ (low + high) / 2 < high.
Proof.
  intros H.
  pose proof (Nat.div_mod_eq (low + high) 2) as E.
  pose proof (Nat.mod_upper_bound (low + high) 2) as U.
  lia.
Qed.

(** One turn of the loop. *)
Lemma indexByTime_loop_S fuel h q d low high :
  indexByTime_loop (S fuel) h q d low high =
  if low <? high then
    if early_at h q d ((low + high) / 2)
    then indexByTime_loop fuel h q d ((low + high) / 2 + 1) high
    else indexByTime_loop fuel h q d low ((low + high) / 2)
  else low.
Proof. reflexivity. Qed.

(** With fuel to spare the search passes every prefix of early entries. *)
Lemma indexByTime_loop_lower h q d n :
  (forall i, i < n -> early_at h q d i = true) ->
  forall fuel low high,
    low <= high -> n <= high -> high - low < fuel ->
    n <= indexByTime_loop fuel h q d low high <= high.
Proof.
  intros Hpre. induction fuel as [|fuel IH]; intros low high Hlh Hn Hf; [lia|].
  rewrite indexByTime_loop_S. destruct (low <? high) eqn:Elt.
  - apply Nat.ltb_lt in Elt. destruct (half_bounds low high Elt) as [Hl Hh].
    set (mid := (low + high) / 2) in *.
    destruct (early_at h q d mid) eqn:Ee.
    + assert (n <= indexByTime_loop fuel h q d (mid + 1) high <= high)
        by (apply IH; lia). lia.
    + assert (n <= mid).
      { destruct (le_lt_dec n mid) as [|Hlt]; [assumption|].
        rewrite (Hpre mid Hlt) in Ee. discriminate. }
      assert (n <= indexByTime_loop fuel h q d low mid <= mid)
        by (apply IH; lia). lia.
  - apply Nat.ltb_ge in Elt. lia.
Qed.

(** On a queue split into early entries and the others, the search finds
    the split. *)
Lemma indexByTime_loop_partition h q d n :
  (forall i, i < n -> early_at h q d i = true) ->
  (forall i, n <= i -> early_at h q d i = false) ->
  forall fuel low high,
    low <= n -> n <= high -> high - low < fuel ->
    indexByTime_loop fuel h q d low high = n.
Proof.
  intros Hpre Hpost. induction fuel as [|fuel IH]; intros low high Hl Hh Hf; [lia|].
  rewrite indexByTime_loop_S. destruct (low <? high) eqn:Elt.
  - apply Nat.ltb_lt in Elt. destruct (half_bounds low high Elt) as [Hlo Hhi].
    set (mid := (low + high) / 2) in *.
    destruct (early_at h q d mid) eqn:Ee.
    + apply IH; try lia.
      destruct (le_lt_dec n mid) as [Hge|]; [|lia].
      rewrite (Hpost mid Hge) in Ee. discriminate.
    + apply IH; try lia.
      destruct (le_lt_dec n mid) as [|Hlt]; [assumption|].
      rewrite (Hpre mid Hlt) in Ee. discriminate.
  - apply Nat.ltb_ge in Elt. lia.
Qed.

Lemma early_at_app_l h l1 l2 d i :
  Forall (fun x => js_ltb (earliestOf h x) d = true) l1 ->
  i < length l1 -> early_at h (l1 ++ l2) d i = true.
Proof.
  intros HF Hi. unfold early_at. rewrite lookup_app_l by assumption.
  destruct (l1 !! i) as [x|] eqn:E.
  - rewrite Forall_forall in HF. apply HF.
    eapply list_elem_of_lookup_2. exact E.
  - apply lookup_ge_None in E. lia.
Qed.

Lemma early_at_app_r h l1 l2 d i :
  Forall (fun x => js_ltb (earliestOf h x) d = false) l2 ->
  length l1 <= i -> early_at h (l1 ++ l2) d i = false.
Proof.
  intros HF Hi. unfold early_at. rewrite lookup_app_r by assumption.
  destruct (l2 !! (i - length l1)) as [x|] eqn:E.
  - rewrite Forall_forall in HF. apply HF.
    eapply list_elem_of_lookup_2. exact E.
  - unfold js_ltb. reflexivity.
Qed.

Lemma indexByTime_partition h l1 l2 d :
  Forall (fun x => js_ltb (earliestOf h x) d = true) l1 ->
  Forall (fun x => js_ltb (earliestOf h x) d = false) l2 ->
  indexByTime h (l1 ++ l2) d = length l1.
Proof.
  intros H1 H2. unfold indexByTime.
  apply indexByTime_loop_partition.
  - intros i Hi. apply early_at_app_l; assumption.
  - intros i Hi. apply early_at_app_r; assumption.
  - lia.
  - rewrite length_app. lia.
  - lia.
Qed.

Lemma indexByTime_lower h l1 l2 d :
  Forall (fun x => js_ltb (earliestOf h x) d = true) l1 ->
  length l1 <= indexByTime h (l1 ++ l2) d <= length (l1 ++ l2).
Proof.
  intros H1. unfold indexByTime.
  apply indexByTime_loop_lower.
  - intros i Hi. apply early_at_app_l; assumption.
  - lia.
  - rewrite length_app. lia.
  - lia.
Qed.

Lemma splice_in_app l1 l2 e :
  splice_in (length l1) e (l1 ++ l2) = l1 ++ e :: l2.
Proof.
  unfold splice_in. rewrite take_app_length, drop_app_length. reflexivity.
Qed.

Lemma inQueue_true e q : inQueue e q = true <-> e ∈ q.
Proof.
  unfold inQueue. rewrite existsb_exists. split.
  - intros (x & Hin & Heq). apply Nat.eqb_eq in Heq. subst.
    apply list_elem_of_In. assumption.
  - intros Hin. exists e. split.
    + apply list_elem_of_In. assumption.
    + apply Nat.eqb_refl.
Qed.

Lemma inQueue_false e q : inQueue e q = false <-> e ∉ q.
Proof.
  rewrite <- inQueue_true. destruct (inQueue e q); split; congruence.
Qed.

Lemma inQueue_splice_in e i q : inQueue e (splice_in i e q) = true.
Proof.
  apply inQueue_true. unfold splice_in. set_solver.
Qed.

(** What [insertEvent] does with a live event. *)
Lemma insertEvent_live e s c :
  evheap c !! e = Some (Live s) ->
  insertEvent e c = Ok true (inserted e s c).
Proof.
  intros He. unfold insertEvent, bind, get. rewrite He.
  unfold modify, hasUIDFor, inserted, registered. simpl.
  destruct (map_has e (uidmap c)) eqn:Eh; simpl.
  - rewrite inQueue_splice_in. reflexivity.
  - unfold generateUIDFor, bind, generate, modify, ret. simpl.
    rewrite Eh. simpl. rewrite inQueue_splice_in. reflexivity.
Qed.

(** A sorted queue splits at every deadline that is a number. *)
Lemma sorted_partition h q d :
  queue_sorted h q -> d <> NaN ->
  exists before after,
    q = before ++ after
    /\ Forall (fun x => Num.ltb (keyOf h x) d = true) before
    /\ Forall (fun x => Num.leb d (keyOf h x) = true) after.
Proof.
  intros [Hs Hn] Hd. induction q as [|a q IH].
  - exists [], []. repeat split; constructor.
  - apply StronglySorted_inv in Hs. destruct Hs as [Hs Ha].
    inversion Hn as [|? ? Hna Hnq]; subst.
    destruct (Num.ltb (keyOf h a) d) eqn:E.
    + destruct (IH Hs Hnq) as (b & r & -> & Hb & Hr).
      exists (a :: b), r. repeat split; [constructor; assumption | assumption].
    + exists [], (a :: q). split; [reflexivity|]. split; [constructor|].
      pose proof (ltb_false_leb _ _ Hna Hd E) as Hle.
      constructor; [assumption|].
      rewrite Forall_forall in Ha. apply Forall_forall. intros x Hx.
      eapply leb_trans; [exact Hle | apply Ha; assumption].
Qed.

Lemma events_registered e c : events (registered e c) = events c.
Proof. unfold registered. destruct (map_has e (uidmap c)); reflexivity. Qed.

Lemma evheap_registered e c : evheap (registered e c) = evheap c.
Proof. unfold registered. destruct (map_has e (uidmap c)); reflexivity. Qed.

Lemma keyOf_live h e s : h !! e = Some (Live s) -> keyOf h e = toNumber (s_earliest s).
Proof. intros H. unfold keyOf, earliestOf. rewrite H. reflexivity. Qed.

(** Binary-search insertion of a live event with a numeric key into a
    sorted queue puts it after every entry with a strictly smaller key and
    before every entry with an equal or greater key, and leaves the queue
    sorted. Among equal keys the newcomer is first. *)
Lemma insertEvent_lower_bound c e s :
  evheap c !! e = Some (Live s) ->
  queue_sorted (evheap c) (events c) ->
  toNumber (s_earliest s) <> NaN ->
  exists c' before after,
    insertEvent e c = Ok true c'
    /\ evheap c' = evheap c
    /\ events c = before ++ after
    /\ events c' = before ++ e :: after
    /\ Forall (fun x => Num.ltb (keyOf (evheap c) x) (keyOf (evheap c) e) = true) before
    /\ Forall (fun x => Num.leb (keyOf (evheap c) e) (keyOf (evheap c) x) = true) after
    /\ queue_sorted (evheap c') (events c').
Proof.
  intros He Hs Hk.
  destruct (sorted_partition _ _ _ Hs Hk) as (before & after & Hq & Hb & Ha).
  pose proof (keyOf_live _ _ _ He) as Hkey.
  assert (Hidx : indexByTime (evheap c) (events c) (s_earliest s) = length before).
  { rewrite Hq. apply indexByTime_partition.
    - eapply Forall_impl; [exact Hb|]. intros x Hx. exact Hx.
    - eapply Forall_impl; [exact Ha|]. intros x Hx.
      unfold js_ltb. fold (keyOf (evheap c) x).
      destruct (Num.ltb (keyOf (evheap c) x) (toNumber (s_earliest s))) eqn:E;
        [|reflexivity].
      apply ltb_leb_excl in E. congruence. }
  exists (inserted e s c), before, after.
  assert (Hev : events (inserted e s c) = before ++ e :: after).
  { unfold inserted. rewrite events_registered. simpl.
    rewrite Hidx, Hq. apply splice_in_app. }
  assert (Hh : evheap (inserted e s c) = evheap c).
  { unfold inserted. rewrite evheap_registered. reflexivity. }
  split; [apply insertEvent_live; assumption|].
  split; [assumption|]. split; [assumption|]. split; [assumption|].
  rewrite Hkey.
  split; [assumption|]. split; [assumption|].
  rewrite Hh, Hev. destruct Hs as [Hss Hnn]. rewrite Hq in Hss, Hnn.
  apply StronglySorted_app in Hss. destruct Hss as (Hcross & Hs1 & Hs2).
  apply Forall_app in Hnn. destruct Hnn as [Hn1 Hn2].
  split.
  - apply StronglySorted_app. split; [|split; [assumption|]].
    + intros x1 x2 H1 H2. rewrite Forall_forall in Hb.
      apply elem_of_cons in H2. destruct H2 as [->|H2].
      * rewrite Hkey. apply ltb_leb. apply Hb. assumption.
      * apply Hcross; assumption.
    + constructor; [assumption|].
      eapply Forall_impl; [exact Ha|]. intros x Hx. rewrite Hkey. exact Hx.
  - apply Forall_app. split; [assumption|].
    constructor; [rewrite Hkey; assumption | assumption].
Qed.

(** Insertion is not stable: event 1 is inserted with the key of the queued
    event 0 and lands before it, so the queue reads [1; 0]. *)
Lemma insertion_is_not_stable : ~ stable_insertion_at tie_store 1.
Proof.
  intros H.
  assert (Hrun : exists c', insertEvent 1 tie_store = Ok true c' /\ events c' = [1; 0]).
  { eexists. split; vm_compute; reflexivity. }
  destruct Hrun as (c' & Hrun & Hq).
  specialize (H true c' Hrun 0).
  destruct H as (l1 & l2 & l3 & Hsplit).
  - vm_compute. left.
  - vm_compute. reflexivity.
  - rewrite Hq in Hsplit.
    destruct l1 as [|a l1]; [discriminate|].
    apply (f_equal length) in Hsplit. simpl in Hsplit.
    rewrite !length_app in Hsplit. simpl in Hsplit.
    rewrite !length_app in Hsplit. simpl in Hsplit. lia.
Qed.

(** Evaluation of a computation on a concrete store. *)
Ltac evaluate m :=
  let r := fresh "r" in
  let E := fresh "E" in
  remember m as r eqn:E; vm_compute in E; subst r.

Ltac run_concrete :=
  match goal with
  | |- exists c', ?m = _ /\ _ => evaluate m
  | |- exists c' s', ?m = _ /\ _ => evaluate m
  end;
  repeat eexists; try reflexivity.

(** ** Firing and its callbacks *)

(** C1: an on-time firing of an event that has an [onMissed] handler and no
    [onTick] handler invokes [onMissed]: the tick at 12 s fires event 0 on
    time, and the trace shows the call of its [onMissed] callback. *)
Theorem on_time_firing_invokes_onMissed :
  exists c',
    tick inert 5 missed_only_store = Ok tt c'
    /\ onTimeAt (currentTime missed_only_store)
         (sample_self 12 1000 (JNum PInf) 0 None None None (Some 9)) = true
    /\ trace c' = [Fire 0 true; Called OnMissed 9 0].
Proof. run_concrete. Qed.

(** ** Deletion *)

(** C7: deleting a one-shot that has not fired yet, with an [onComplete]
    handler and no [onAborted] handler, invokes [onComplete]. *)
Theorem delete_pending_invokes_onComplete :
  exists c',
    clock_delete inert (One 0) timeout_store = Ok tt c'
    /\ isLooping (sample_self 11 1000 (JNum (Fin 1)) 0 None (Some 8) None None) = true
    /\ trace c' = [Called OnComplete 8 0]
    /\ evheap c' !! 0 = Some Deleted.
Proof. run_concrete. Qed.

(** ** Synchronisation *)

(** C5: [sync] of the clock with the default delay runs the event at once:
    its [onTick] callback is called during the call, the tick count goes
    from 0 to 1, and the event is queued for 11 s, not for the current
    time, 10 s. *)
Theorem clock_sync_fires_at_once :
  exists c' s',
    clock_sync inert 5 (One 0) JUndef repeater_store = Ok tt c'
    /\ trace c' = [Fire 0 true; Called OnTick 7 0]
    /\ self_of c' 0 = Some s'
    /\ s_elapsedTickCount s' = 1
    /\ Num.eqb (toNumber (s_scheduled s')) (Fin 11) = true.
Proof. run_concrete. Qed.

(** The [sync] method of the event itself does what the clock's does not. *)
Lemma ev_sync_requeues_at_current_time :
  exists c' s',
    ev_sync inert 5 0 JUndef repeater_store = Ok tt c'
    /\ trace c' = []
    /\ self_of c' 0 = Some s'
    /\ s_elapsedTickCount s' = 0
    /\ Num.eqb (toNumber (s_scheduled s')) (Fin 10) = true
    /\ events c' = [0].
Proof. run_concrete. Qed.

(** ** Suspension and rescheduling *)

(** C6: the public [schedule] drops its second argument. After [suspend],
    [schedule(e, 15)] leaves the event with an [undefined] deadline and
    [NaN] bounds, at the head of the queue. *)
Theorem schedule_drops_the_deadline :
  exists c' s',
    (clock_suspend (One 0) ;;; schedule inert 5 (ArgEvent 0) (JNum (Fin 15)))
      repeater_store = Ok (RetEvent 0) c'
    /\ self_of c' 0 = Some s'
    /\ s_scheduled s' = JUndef
    /\ s_earliest s' = JNum NaN
    /\ s_latest s' = JNum NaN
    /\ events c' = [0].
Proof. run_concrete. Qed.

(** Such an event is never due: a tick, however late, leaves it alone. *)
Lemma undefined_deadline_never_fires (t : Q) fuel :
  forall c s,
    evheap c !! 0 = Some (Live s) ->
    s_earliest s = JNum NaN ->
    events c = [0] ->
    context c = Some t ->
    tick inert (S fuel) c = Ok tt c.
Proof.
  intros c s He Hn Hq Hc.
  destruct c as [ctx run tol q um nu h ne th oh tr]. st_simpl. subst.
  unfold tick, bind, get, shift. st_simpl. cbn [is_Some_b negb].
  cbn [tick_loop]. unfold bind, get. cbv beta. st_simpl.
  unfold earliestOf. rewrite He, Hn.
  reflexivity.
Qed.

(** Even the private [schedule], which passes the deadline on, runs the
    event at once when the deadline is not after the current time. *)
Lemma reschedule_at_current_time_fires :
  exists c' s',
    (clock_suspend (One 0) ;;; clock_schedule inert 5 (ArgEvent 0) (JNum (Fin 10)))
      repeater_store = Ok (RetEvent 0) c'
    /\ self_of c' 0 = Some s'
    /\ s_elapsedTickCount s' = 1
    /\ trace c' = [Fire 0 true; Called OnTick 7 0].
Proof. run_concrete. Qed.

(** ** Time stretch *)

Lemma stretch_walk_diverges time latest step :
  js_leb time latest = true ->
  forall fuel deadline, stretch_walk fuel time latest step deadline = None.
Proof.
  intros H. induction fuel as [|fuel IH]; intros deadline; simpl.
  - reflexivity.
  - rewrite H. apply IH.
Qed.

(** When the new deadline is within reach of the early tolerance and the
    current time is at most the deadline less the late tolerance, the walk
    of [timeStretch] never ends. *)
Lemma ev_timeStretch_diverges run_cb fuel e ratio c s :
  evheap c !! e = Some (Live s) ->
  isLooping s = true ->
  let current := js_mul (s_initialInterval s) ratio in
  let deadline :=
    js_add (js_sub (s_scheduled s) (js_div1000 (s_currentInterval s)))
           (js_div1000 current) in
  js_geb (currentTime c) (js_sub deadline (s_tol_early s)) = true ->
  js_leb (currentTime c) (js_sub deadline (s_tol_late s)) = true ->
  ev_timeStretch run_cb fuel e ratio c = OutOfFuel.
Proof.
  intros He Hl current deadline Hge Hle.
  unfold ev_timeStretch, unless_deleted, bind, get. rewrite He, Hl. simpl.
  unfold hasEvent, removeEvent, set_self, modify, getCurrentTime, bind, ret.
  destruct (inQueue e (events c)); simpl;
    fold current; fold deadline;
    change (currentTime _) with (currentTime c);
    rewrite Hge, (stretch_walk_diverges _ _ _ Hle); reflexivity.
Qed.

(** C8: the walk does not end. With a tolerance of [{early: 0.2, late: 0.02}]
    and a deadline 0.1 s ahead, [timeStretch(1)] loops for ever, whatever the
    fuel. *)
Theorem timeStretch_walk_never_ends :
  forall fuel,
    clock_timeStretch inert fuel (One 0) (JNum (Fin 1)) wide_early_store
    = OutOfFuel.
Proof.
  intros fuel. unfold clock_timeStretch, on_targets, member, bind, get.
  replace (evheap wide_early_store !! 0) with (Some (Live wide_early_self))
    by (vm_compute; reflexivity).
  apply (ev_timeStretch_diverges inert fuel 0 (JNum (Fin 1)) wide_early_store
           wide_early_self); vm_compute; reflexivity.
Qed.

(** When the deadline is long past, the walk is not entered at all and the
    event fires in a burst inside [timeStretch]: 22 firings here. *)
Lemma timeStretch_fires_in_a_burst :
  exists c',
    clock_timeStretch inert 50 (One 0) (JNum (Fin (1 # 2))) stalled_store = Ok tt c'
    /\ firings (trace c') = 22.
Proof. run_concrete. Qed.

(** ** Rejected requests *)

(** The delay of a request is not touched by the resolution of defaults. *)
Lemma delay_resolve_defaults ev : delay (resolve_defaults ev) = delay ev.
Proof.
  unfold resolve_defaults.
  destruct (is_number (delay ev) && _ && _); [reflexivity|].
  destruct (negb (prop_truthy (delay ev)) && _ && _); reflexivity.
Qed.

(** The private [schedule] on a request, once the clock is known to run. *)
Lemma clock_schedule_options_running run_cb fuel c o ev deadline :
  started_b c = true ->
  optheap c !! o = Some ev ->
  let ev1 := resolve_defaults ev in
  let c1 := set_optheap (<[o := ev1]> (optheap c)) c in
  clock_schedule run_cb fuel (ArgOptions o) deadline c =
  if infiniteDelay ev1 || zeroDelayWithInfiniteRepetitions ev1 then
    Ok RetUndefined
       (set_trace (trace c ++ [Warn "delay and/or loop repetitions must not be infinite"]) c1)
  else if noDelayOrLoop ev1 then
    Ok RetUndefined
       (set_trace (trace c ++ [Warn "must set one of delay, loop.interval, or loop.repetitions"]) c1)
  else
    let _deadline := if deadlineIsSafe deadline then deadline else currentTime c in
    let interval := clamp_interval (getDelay ev1) in
    (evt <- createEvent run_cb fuel o (js_add _deadline interval) ;;
     uid <- generateUIDFor evt ;;
     member evt "_self.setUid" (ev_setUid evt uid) ;;;
     member evt "evt.updateWithInterval"
       (ev_updateWithInterval run_cb fuel evt (js_mul interval (JNum (Fin 1000%Q)))) ;;;
     ret (RetEvent evt)) c1.
Proof.
  intros Hrun Ho ev1 c1. unfold started_b in Hrun.
  apply andb_true_iff in Hrun. destruct Hrun as [Hctx Hr].
  unfold clock_schedule. unfold bind at 1. unfold get at 1. cbv beta.
  rewrite Hctx, Hr. cbn [negb orb].
  unfold bind at 1. unfold scheduleGuard, ret. cbv beta.
  unfold bind at 1. unfold read_options at 1. rewrite Ho.
  unfold bind at 1. unfold write_options at 1. unfold modify. cbv beta.
  fold ev1. fold c1.
  unfold bind at 1. unfold read_options at 1.
  replace (optheap c1 !! o) with (Some ev1)
    by (unfold c1; st_simpl; rewrite lookup_insert_eq; reflexivity).
  destruct (infiniteDelay ev1 || zeroDelayWithInfiniteRepetitions ev1).
  - reflexivity.
  - destruct (noDelayOrLoop ev1); reflexivity.
Qed.

Lemma clock_schedule_not_running run_cb fuel c arg deadline :
  started_b c = false ->
  clock_schedule run_cb fuel arg deadline c =
  Ok RetUndefined (set_trace (trace c ++ [Warn "make sure to start the clock"]) c).
Proof.
  intros H. unfold started_b in H. unfold clock_schedule.
  unfold bind at 1. unfold get at 1. cbv beta.
  replace (negb (is_Some_b (context c)) || negb (isRunning c)) with true.
  - reflexivity.
  - destruct (is_Some_b (context c)), (isRunning c); simpl in *; congruence.
Qed.

(** The resolution of defaults leaves the three other kinds of invalid
    request as they are. *)
Lemma resolve_defaults_nothing_set ev :
  delay ev = None -> loop ev = None -> resolve_defaults ev = ev.
Proof.
  intros Hd Hl. unfold resolve_defaults, loop_interval. rewrite Hd, Hl.
  reflexivity.
Qed.

Lemma resolve_defaults_infinite_loop ev :
  delay ev = None -> loop_interval ev = None -> resolve_defaults ev = ev.
Proof.
  intros Hd Hi. unfold resolve_defaults. rewrite Hd, Hi. reflexivity.
Qed.

Lemma resolve_defaults_infinite_delay ev :
  delay ev = Some PInf ->
  resolve_defaults ev =
  if negb (prop_truthy (loop_interval ev)) && negb (prop_truthy (loop_repetitions ev))
  then with_loop (Some (mkLoop None (Some (Fin 1%Q)))) ev
  else ev.
Proof.
  intros Hd. unfold resolve_defaults. rewrite Hd. cbn [is_number prop_truthy Num.truthy negb andb].
  reflexivity.
Qed.

(** C9, as the code has it: every invalid declarative request is rejected
    with a diagnostic and without an event; the scheduler is as it was (no
    event, no identifier, the same queue), and so is the request object,
    unless the clock runs and the request has an infinite delay and neither
    an interval nor repetitions: then [loop = {repetitions: 1}] has been
    written into it. *)
Theorem invalid_request_is_rejected run_cb fuel c o ev deadline :
  optheap c !! o = Some ev ->
  invalid_request c ev ->
  exists msg ev' c',
    clock_schedule run_cb fuel (ArgOptions o) deadline c = Ok RetUndefined c'
    /\ trace c' = trace c ++ [Warn msg]
    /\ scheduler_unchanged c c'
    /\ (forall o', o' <> o -> optheap c' !! o' = optheap c !! o')
    /\ optheap c' !! o = Some ev'
    /\ (ev' = ev
        \/ (started_b c = true
            /\ delay ev = Some PInf
            /\ prop_truthy (loop_interval ev) = false
            /\ prop_truthy (loop_repetitions ev) = false
            /\ ev' = with_loop (Some (mkLoop None (Some (Fin 1%Q)))) ev)).
Proof.
  intros Ho Hinv.
  destruct (started_b c) eqn:Hrun.
  2:{ exists "make sure to start the clock"%string, ev,
        (set_trace (trace c ++ [Warn "make sure to start the clock"]) c).
      split; [apply clock_schedule_not_running; assumption|].
      repeat split; try assumption. left. reflexivity. }
  pose proof (clock_schedule_options_running run_cb fuel c o ev deadline Hrun Ho) as Hs.
  cbv zeta in Hs.
  assert (Hframe : forall ev1 msg,
    let c' := set_trace (trace c ++ [Warn msg])
                (set_optheap (<[o := ev1]> (optheap c)) c) in
    trace c' = trace c ++ [Warn msg]
    /\ scheduler_unchanged c c'
    /\ (forall o', o' <> o -> optheap c' !! o' = optheap c !! o')
    /\ optheap c' !! o = Some ev1).
  { intros ev1 msg c'. split; [reflexivity|]. split; [repeat split|]. split.
    - intros o' Hne. unfold c'. st_simpl. apply lookup_insert_ne. congruence.
    - unfold c'. st_simpl. apply lookup_insert_eq. }
  destruct Hinv as [Hn | Hd Hl | Hd | Hd Hi Hr].
  - congruence.
  - rewrite (resolve_defaults_nothing_set ev Hd Hl) in Hs.
    replace (infiniteDelay ev || zeroDelayWithInfiniteRepetitions ev) with false in Hs
      by (unfold infiniteDelay, zeroDelayWithInfiniteRepetitions,
            loop_repetitions, loop_interval;
          rewrite Hd, Hl; reflexivity).
    replace (noDelayOrLoop ev) with true in Hs
      by (unfold noDelayOrLoop; rewrite Hd, Hl; reflexivity).
    eexists _, ev, _. split; [exact Hs|].
    destruct (Hframe ev "must set one of delay, loop.interval, or loop.repetitions"%string)
      as (H1 & H2 & H3 & H4).
    repeat split; try assumption; try apply H2. left. reflexivity.
  - replace (infiniteDelay (resolve_defaults ev)) with true in Hs
      by (unfold infiniteDelay; rewrite delay_resolve_defaults, Hd; reflexivity).
    cbn [orb] in Hs.
    eexists _, (resolve_defaults ev), _. split; [exact Hs|].
    destruct (Hframe (resolve_defaults ev)
                "delay and/or loop repetitions must not be infinite"%string)
      as (H1 & H2 & H3 & H4).
    repeat split; try assumption; try apply H2.
    rewrite (resolve_defaults_infinite_delay ev Hd).
    destruct (prop_truthy (loop_interval ev)) eqn:Ei;
      destruct (prop_truthy (loop_repetitions ev)) eqn:Er; cbn [negb andb];
      try (left; reflexivity).
    right. repeat split; assumption.
  - rewrite (resolve_defaults_infinite_loop ev Hd Hi) in Hs.
    replace (infiniteDelay ev || zeroDelayWithInfiniteRepetitions ev) with true in Hs
      by (unfold infiniteDelay, zeroDelayWithInfiniteRepetitions;
          rewrite Hd, Hi, Hr; reflexivity).
    eexists _, ev, _. split; [exact Hs|].
    destruct (Hframe ev "delay and/or loop repetitions must not be infinite"%string)
      as (H1 & H2 & H3 & H4).
    repeat split; try assumption; try apply H2. left. reflexivity.
Qed.

Lemma invalid_request_is_rejected_witness :
  exists msg ev' c',
    clock_schedule inert 5 (ArgOptions 0) JUndef infinite_delay_store
      = Ok RetUndefined c'
    /\ trace c' = trace infinite_delay_store ++ [Warn msg]
    /\ scheduler_unchanged infinite_delay_store c'
    /\ (forall o', o' <> 0 -> optheap c' !! o' = optheap infinite_delay_store !! o')
    /\ optheap c' !! 0 = Some ev'
    /\ (ev' = infinite_delay_request
        \/ (started_b infinite_delay_store = true
            /\ delay infinite_delay_request = Some PInf
            /\ prop_truthy (loop_interval infinite_delay_request) = false
            /\ prop_truthy (loop_repetitions infinite_delay_request) = false
            /\ ev' = with_loop (Some (mkLoop None (Some (Fin 1%Q))))
                       infinite_delay_request)).
Proof.
  apply (invalid_request_is_rejected inert 5 infinite_delay_store 0
           infinite_delay_request JUndef).
  - vm_compute. reflexivity.
  - apply infinite_delay. reflexivity.
Defined.

(** C9, as stated, fails: the request [{delay: Infinity}] is rejected, and
    the object of the caller has changed: it has a [loop] member now. *)
Lemma rejected_request_is_mutated :
  exists c',
    schedule inert 5 (ArgOptions 0) JUndef infinite_delay_store = Ok RetUndefined c'
    /\ ~ request_unchanged 0 infinite_delay_store c'.
Proof.
  evaluate (schedule inert 5 (ArgOptions 0) JUndef infinite_delay_store).
  eexists. split; [reflexivity|].
  unfold request_unchanged. vm_compute. discriminate.
Qed.

(** ** The steps of the event methods *)

Lemma set_events_id c : set_events (events c) c = c.
Proof. destruct c; reflexivity. Qed.

Lemma remove_first_notin e q : e ∉ q -> remove_first e q = q.
Proof.
  induction q as [|x q IH]; intros H; [reflexivity|]. simpl.
  destruct (Nat.eqb x e) eqn:E.
  - apply Nat.eqb_eq in E. subst. exfalso. apply H. left.
  - f_equal. apply IH. intros Hin. apply H. right. assumption.
Qed.

Lemma remove_first_subset e q x : x ∈ remove_first e q -> x ∈ q.
Proof.
  induction q as [|y q IH]; simpl; [intros H; exact H|].
  destruct (Nat.eqb y e).
  - intros H. right. assumption.
  - intros H. apply elem_of_cons in H. destruct H as [->|H]; [left|right; auto].
Qed.

Lemma unless_deleted_live e k c s :
  evheap c !! e = Some (Live s) -> unless_deleted e k c = k s c.
Proof. intros H. unfold unless_deleted, bind, get. rewrite H. reflexivity. Qed.

Lemma member_live e name m c s :
  evheap c !! e = Some (Live s) -> member e name m c = m c.
Proof. intros H. unfold member, bind, get. rewrite H. reflexivity. Qed.

Lemma evheap_put_self e s c : evheap (put_self e s c) !! e = Some (Live s).
Proof. unfold put_self. st_simpl. apply lookup_insert_eq. Qed.

Lemma put_self_put_self e s s' c : put_self e s' (put_self e s c) = put_self e s' c.
Proof. unfold put_self. st_simpl. rewrite insert_insert_eq. reflexivity. Qed.

Lemma set_self_eq e s c : set_self e s c = Ok tt (put_self e s c).
Proof. reflexivity. Qed.

Lemma removeEvent_eq e c :
  removeEvent e c =
  Ok (negb (inQueue e (remove_first e (events c))))
     (set_events (remove_first e (events c)) c).
Proof. reflexivity. Qed.

Lemma requeue_live e s c :
  evheap c !! e = Some (Live s) -> requeue e c = Ok tt (requeued e s c).
Proof.
  intros He. unfold requeue, requeued. unfold bind at 1. unfold hasEvent.
  destruct (inQueue e (events c)) eqn:Eh.
  - unfold bind at 1. unfold bind at 1. rewrite removeEvent_eq. unfold ret.
    unfold bind. rewrite (insertEvent_live e s) by exact He. reflexivity.
  - unfold bind at 1. unfold ret at 1.
    apply inQueue_false in Eh. rewrite (remove_first_notin _ _ Eh).
    rewrite set_events_id.
    unfold bind. rewrite (insertEvent_live e s) by exact He. reflexivity.
Qed.

(** [schedule] of an event: the deadlines are set, and then the event is
    either put in the queue or executed at once. *)
Lemma ev_schedule_with_eq exec e deadline sync c s :
  evheap c !! e = Some (Live s) ->
  ev_schedule_with exec e deadline sync c =
  let c2 := put_self e (rescheduled deadline s) c in
  if sync || negb (js_geb (currentTime c) (s_earliest (rescheduled deadline s)))
  then requeue e c2
  else exec e c2.
Proof.
  intros He. unfold ev_schedule_with.
  rewrite (unless_deleted_live _ _ _ _ He).
  unfold bind at 1. rewrite set_self_eq.
  unfold bind at 1. unfold ev_update.
  rewrite (unless_deleted_live _ _ _ _ (evheap_put_self e _ c)).
  rewrite set_self_eq, put_self_put_self.
  change (with_deadline deadline _ _ (with_suspended false s))
    with (rescheduled deadline s).
  cbv zeta. destruct sync; [reflexivity|].
  rewrite (unless_deleted_live _ _ _ _ (evheap_put_self e _ c)).
  unfold bind at 1. unfold getCurrentTime.
  change (currentTime (put_self e (rescheduled deadline s) c)) with (currentTime c).
  cbn [orb]. destruct (js_geb (currentTime c) _); reflexivity.
Qed.

(** What the queue operations leave alone. *)
Lemma frame_registered e c :
  trace (registered e c) = trace c
  /\ optheap (registered e c) = optheap c
  /\ tolheap (registered e c) = tolheap c
  /\ same_clock c (registered e c)
  /\ next_ev (registered e c) = next_ev c.
Proof.
  unfold registered, same_clock.
  destruct (map_has e (uidmap c)); repeat split; reflexivity.
Qed.

Lemma evheap_requeued e s c : evheap (requeued e s c) = evheap c.
Proof. unfold requeued, inserted. rewrite evheap_registered. reflexivity. Qed.

Lemma events_requeued e s c :
  events (requeued e s c) =
  splice_in (indexByTime (evheap c) (remove_first e (events c)) (s_earliest s))
            e (remove_first e (events c)).
Proof. unfold requeued, inserted. rewrite events_registered. reflexivity. Qed.

Lemma frame_requeued e s c :
  trace (requeued e s c) = trace c
  /\ optheap (requeued e s c) = optheap c
  /\ tolheap (requeued e s c) = tolheap c
  /\ same_clock c (requeued e s c)
  /\ next_ev (requeued e s c) = next_ev c.
Proof.
  unfold requeued, inserted.
  destruct (frame_registered e
              (set_events
                 (splice_in
                    (indexByTime (evheap (set_events (remove_first e (events c)) c))
                       (events (set_events (remove_first e (events c)) c))
                       (s_earliest s)) e
                    (events (set_events (remove_first e (events c)) c)))
                 (set_events (remove_first e (events c)) c)))
    as (H1 & H2 & H3 & H4 & H5).
  rewrite H1, H2, H3, H5. repeat split; try reflexivity; apply H4.
Qed.

Lemma with_tolerance_same ev t :
  tolerance ev = Some t -> with_tolerance (Some t) ev = ev.
Proof. intros H. destruct ev. simpl in *. subst. reflexivity. Qed.

Lemma set_optheap_id c : set_optheap (optheap c) c = c.
Proof. destruct c; reflexivity. Qed.

Ltac msimp :=
  cbv beta iota delta
    [bind ret get modify when throw diverge observe warn read_options
     write_options read_tolerance write_tolerance lacks hasEvent hasUIDFor
     getCurrentTime set_self];
  st_simpl; cbn [negb andb orb is_Some_b is_number early late].

Lemma createEvent_fill t c own tol (k : M nat) :
  tolheap c !! clock_tolerance c = Some own ->
  tolheap c !! t = Some tol ->
  (when (negb (is_number (early tol)))
     (own0 <- read_tolerance (clock_tolerance c);;
      tol0 <- read_tolerance t;;
      write_tolerance t {| early := early own0; late := late tol0 |});;;
   when (negb (is_number (late tol)))
     (own0 <- read_tolerance (clock_tolerance c);;
      tol0 <- read_tolerance t;;
      write_tolerance t {| early := early tol0; late := late own0 |});;;
   k) c =
  k (set_tolheap (<[t := fill_tolerance own tol]> (tolheap c)) c).
Proof.
  intros Hown Htol.
  destruct tol as [[e|] [l|]]; unfold fill_tolerance; cbn [early late];
    msimp.
  - rewrite (insert_id _ _ _ Htol). destruct c; reflexivity.
  - rewrite Hown, Htol. msimp. reflexivity.
  - rewrite Hown, Htol. msimp. reflexivity.
  - rewrite Hown, Htol. msimp.
    destruct (decide (t = clock_tolerance c)) as [->|Hne].
    + rewrite lookup_insert_eq. msimp. rewrite lookup_insert_eq. msimp.
      rewrite insert_insert_eq.
      assert (own = {| early := None; late := None |}) by congruence. subst own.
      reflexivity.
    + rewrite lookup_insert_ne by congruence. rewrite Hown. msimp.
      rewrite lookup_insert_eq. msimp.
      rewrite insert_insert_eq. reflexivity.
Qed.

Lemma createEvent_eq run_cb fuel o d c ev own tol :
  optheap c !! o = Some ev ->
  tolheap c !! clock_tolerance c = Some own ->
  tolheap c !! tol_target c ev = Some tol ->
  createEvent run_cb fuel o d c = newEvent run_cb fuel o d (completed o ev own tol c).
Proof.
  intros Ho Hown Htol. unfold completed, tol_target in *.
  unfold createEvent.
  unfold bind at 1. unfold read_options at 1. rewrite Ho.
  destruct (tolerance ev) as [t|] eqn:Et.
  - rewrite (with_tolerance_same _ _ Et).
    rewrite (insert_id (optheap c) o ev Ho), set_optheap_id.
    unfold lacks. unfold bind at 1. unfold bind at 1. unfold read_tolerance at 1.
    rewrite Htol. unfold ret at 1.
    unfold bind at 1. unfold bind at 1. unfold read_tolerance at 1.
    rewrite Htol. unfold ret at 1.
    unfold bind at 1. unfold get at 1. cbn [is_Some_b negb when].
    unfold bind at 1. unfold ret at 1.
    unfold bind at 1. unfold read_options at 1. rewrite Ho. rewrite Et.
    apply createEvent_fill; assumption.
  - unfold lacks. unfold bind at 1. unfold ret at 1.
    unfold bind at 1. unfold ret at 1.
    unfold bind at 1. unfold get at 1. cbn [is_Some_b negb when].
    unfold bind at 1. unfold write_options at 1. unfold modify at 1.
    unfold bind at 1. unfold read_options at 1. st_simpl.
    rewrite lookup_insert_eq. cbn [tolerance with_tolerance].
    assert (tol = own) by congruence. subst tol.
    repeat (progress (rewrite ?Hown, ?lookup_insert_eq; msimp)).
    rewrite !insert_insert_eq. destruct own as [[e|] [l|]]; reflexivity.
Qed.

Lemma newEvent_eq run_cb fuel o d c ev t tol l :
  optheap c !! o = Some ev ->
  tolerance ev = Some t ->
  tolheap c !! t = Some tol ->
  loop ev = Some l ->
  newEvent run_cb fuel o d c =
  (ev_schedule run_cb fuel (next_ev c) d false ;;; ret (next_ev c))
    (put_self (next_ev c) (fresh_self ev tol l) (set_next_ev (S (next_ev c)) c)).
Proof.
  intros Ho Et Ht Hl. unfold newEvent.
  unfold bind at 1. unfold read_options at 1. rewrite Ho, Et.
  unfold bind at 1. unfold read_tolerance at 1. rewrite Ht, Hl.
  reflexivity.
Qed.

Lemma tolerance_resolve_defaults ev :
  tolerance (resolve_defaults ev) = tolerance ev.
Proof.
  unfold resolve_defaults.
  destruct (is_number (delay ev) && _ && _); [reflexivity|].
  destruct (negb (prop_truthy (delay ev)) && _ && _); reflexivity.
Qed.

Lemma remove_first_other e q x : x ∈ q -> x <> e -> x ∈ remove_first e q.
Proof.
  induction q as [|y q IH]; simpl; intros Hin Hne; [exact Hin|].
  apply elem_of_cons in Hin. destruct (Nat.eqb y e) eqn:E.
  - apply Nat.eqb_eq in E. subst y. destruct Hin as [->|Hin]; [congruence|assumption].
  - destruct Hin as [->|Hin]; [left | right; auto].
Qed.

Lemma elem_of_splice_in i e q x : x ∈ splice_in i e q <-> x = e \/ x ∈ q.
Proof.
  unfold splice_in. rewrite elem_of_app, elem_of_cons.
  rewrite <- (take_drop i q) at 3. rewrite elem_of_app. tauto.
Qed.

Lemma finish_schedule run_cb fuel e s c ms :
  evheap c !! e = Some (Live s) ->
  e ∈ events c ->
  (uid0 <- generateUIDFor e ;;
   member e "_self.setUid" (ev_setUid e uid0) ;;;
   member e "evt.updateWithInterval" (ev_updateWithInterval run_cb fuel e ms) ;;;
   ret (RetEvent e)) c =
  Ok (RetEvent e)
     (put_self e (with_intervals ms (js_mul ms (s_timeStretch s))
                    (with_uid (next_uid c) s))
        (set_uidmap
           ((if map_has e (uidmap c) then map_delete e (uidmap c) else uidmap c)
              ++ [(e, next_uid c)])
           (set_next_uid (S (next_uid c)) c))).
Proof.
  intros He Hin. apply inQueue_true in Hin.
  unfold generateUIDFor, generate, member, ev_setUid, ev_updateWithInterval,
    unless_deleted.
  msimp. rewrite He. msimp. rewrite He. msimp.
  rewrite !lookup_insert_eq. msimp. rewrite !lookup_insert_eq. msimp.
  rewrite Hin. unfold put_self. st_simpl. rewrite insert_insert_eq.
  reflexivity.
Qed.

Lemma schedule_accepts run_cb fuel c o ev d own tol l :
  started_b c = true ->
  optheap c !! o = Some ev ->
  let ev1 := resolve_defaults ev in
  infiniteDelay ev1 || zeroDelayWithInfiniteRepetitions ev1 = false ->
  noDelayOrLoop ev1 = false ->
  loop ev1 = Some l ->
  tolheap c !! clock_tolerance c = Some own ->
  tolheap c !! tol_target c ev = Some tol ->
  let filled := fill_tolerance own tol in
  let wait := clamp_interval (getDelay ev1) in
  let deadline := js_add (currentTime c) wait in
  js_geb (currentTime c) (js_sub deadline (prop_val (early filled))) = false ->
  let e := next_ev c in
  let ev2 := with_tolerance (Some (tol_target c ev)) ev1 in
  exists c' uid,
    schedule run_cb fuel (ArgOptions o) d c = Ok (RetEvent e) c'
    /\ evheap c' =
         <[e := Live (with_intervals (js_mul wait (JNum (Fin 1000%Q)))
                        (js_mul (js_mul wait (JNum (Fin 1000%Q))) (JNum (Fin 1%Q)))
                        (with_uid uid (rescheduled deadline (fresh_self ev2 filled l))))]>
           (evheap c)
    /\ e ∈ events c'
    /\ (forall x, x ∈ events c -> x <> e -> x ∈ events c')
    /\ trace c' = trace c
    /\ optheap c' = <[o := ev2]> (optheap c)
    /\ tolheap c' = <[tol_target c ev := filled]> (tolheap c)
    /\ context c' = context c.
Proof.
  intros Hrun Ho ev1 Hg1 Hg2 Hl Hown Htol filled wait deadline Hfut e ev2.
  unfold schedule.
  rewrite (clock_schedule_options_running run_cb fuel c o ev JUndef Hrun Ho).
  cbv zeta. fold ev1. rewrite Hg1, Hg2. cbn [deadlineIsSafe]. fold wait. fold deadline.
  set (c1 := set_optheap (<[o:=ev1]> (optheap c)) c).
  assert (Ho1 : optheap c1 !! o = Some ev1)
    by (unfold c1; st_simpl; apply lookup_insert_eq).
  assert (Htt : tol_target c1 ev1 = tol_target c ev)
    by (unfold tol_target; unfold ev1; rewrite tolerance_resolve_defaults; reflexivity).
  unfold bind at 1.
  rewrite (createEvent_eq run_cb fuel o deadline c1 ev1 own tol Ho1 Hown)
    by (rewrite Htt; exact Htol).
  set (c2 := completed o ev1 own tol c1).
  assert (Ho2 : optheap c2 !! o = Some ev2).
  { unfold c2, completed. st_simpl. rewrite Htt. apply lookup_insert_eq. }
  assert (Ht2 : tolheap c2 !! tol_target c ev = Some filled).
  { unfold c2, completed. st_simpl. rewrite Htt. apply lookup_insert_eq. }
  rewrite (newEvent_eq run_cb fuel o deadline c2 ev2 (tol_target c ev) filled l Ho2)
    by (try exact Ht2; try exact Hl; reflexivity).
  change (next_ev c2) with e.
  set (s0 := fresh_self ev2 filled l).
  set (c3 := put_self e s0 (set_next_ev (S e) c2)).
  unfold bind at 1. unfold bind at 1. unfold ev_schedule.
  rewrite (ev_schedule_with_eq _ e deadline false c3 s0 (evheap_put_self e s0 _)).
  cbv zeta. change (currentTime c3) with (currentTime c).
  change (s_earliest (rescheduled deadline s0))
    with (js_sub deadline (prop_val (early filled))).
  rewrite Hfut. cbn [negb orb].
  set (s1 := rescheduled deadline s0).
  rewrite (requeue_live e s1 _ (evheap_put_self e s1 c3)).
  unfold ret at 1.
  set (c4 := requeued e s1 (put_self e s1 c3)).
  assert (He4 : evheap c4 !! e = Some (Live s1)).
  { unfold c4, requeued, inserted. rewrite evheap_registered. st_simpl.
    apply evheap_put_self. }
  assert (Hin4 : e ∈ events c4).
  { unfold c4, requeued, inserted. rewrite events_registered. st_simpl.
    unfold splice_in. set_solver. }
  pose proof (finish_schedule run_cb fuel e s1 c4
                (js_mul wait (JNum (Fin 1000%Q))) He4 Hin4) as Hf.
  eexists _, (next_uid c4). split; [exact Hf|].
  destruct (frame_requeued e s1 (put_self e s1 c3))
    as (Htr4 & Hop4 & Hto4 & (Hctx4 & _) & _).
  fold c4 in Htr4, Hop4, Hto4, Hctx4.
  unfold put_self at 1 2 3 4 5 6. st_simpl.
  split.
  { unfold c4. rewrite evheap_requeued. unfold c3, c2, completed, c1, put_self.
    st_simpl. rewrite !insert_insert_eq. reflexivity. }
  assert (Hq4 : forall x, x ∈ events c4 <-> x = e \/ x ∈ remove_first e (events c)).
  { intros x. unfold c4. rewrite events_requeued. st_simpl.
    apply elem_of_splice_in. }
  split; [apply Hq4; left; reflexivity|].
  split; [intros x Hx Hne; apply Hq4; right; apply remove_first_other; assumption|].
  split; [exact Htr4|].
  split; [|split].
  - rewrite Hop4. unfold c3, c2, completed, put_self. st_simpl.
    rewrite Htt. unfold c1. st_simpl. rewrite insert_insert_eq. reflexivity.
  - rewrite Hto4. unfold c3, c2, completed, put_self. st_simpl.
    rewrite Htt. reflexivity.
  - etransitivity; [exact Hctx4 | reflexivity].
Qed.

(** ** The default policy of declarative requests *)

Lemma clamp_interval_Fin x :
  clamp_interval (JNum (Fin x)) =
  JNum (Fin (if Qle_bool (1 # 20) x then x else 1 # 200)).
Proof.
  unfold clamp_interval, js_geb, Num.geb. cbn [toNumber Num.leb].
  destruct (Qle_bool (1 # 20) x); reflexivity.
Qed.

Lemma wait_of_lower ms : (1 # 200 <= wait_of ms)%Q.
Proof.
  unfold wait_of. destruct (Qle_bool (1 # 20) (ms / 1000)) eqn:E.
  - apply Qle_bool_iff in E. lra.
  - lra.
Qed.

Lemma truthy_Fin q : ~ (q == 0)%Q -> Num.truthy (Fin q) = true.
Proof.
  intros H. simpl. destruct (Qeq_bool q 0) eqn:E; [|reflexivity].
  apply Qeq_bool_iff in E. contradiction.
Qed.

(** What the resolution of defaults and [getDelay] make of the three
    shapes. *)
Lemma declared_resolved ev ms reps iv :
  declared ev ms reps iv ->
  exists l,
    loop (resolve_defaults ev) = Some l
    /\ prop_val (repetitions l) = reps
    /\ infiniteDelay (resolve_defaults ev)
       || zeroDelayWithInfiniteRepetitions (resolve_defaults ev) = false
    /\ noDelayOrLoop (resolve_defaults ev) = false
    /\ clamp_interval (getDelay (resolve_defaults ev)) = JNum (Fin (wait_of ms)).
Proof.
  intros H. destruct H as [ev d Hd Hl | ev i Hd Hl Hi | ev d i r Hd Hd0 Hl Hi].
  - assert (E : resolve_defaults ev = with_loop (Some (mkLoop None (Some (Fin 1%Q)))) ev).
    { unfold resolve_defaults, loop_interval, loop_repetitions.
      rewrite Hd, Hl. reflexivity. }
    rewrite E. exists (mkLoop None (Some (Fin 1%Q))).
    split; [reflexivity|]. split; [reflexivity|].
    split; [unfold infiniteDelay, zeroDelayWithInfiniteRepetitions; cbn [delay with_loop];
            rewrite Hd; destruct (prop_truthy (Some (Fin d))); reflexivity|].
    split; [unfold noDelayOrLoop; cbn [delay with_loop]; rewrite Hd; reflexivity|].
    unfold getDelay. cbn [delay with_loop]. rewrite Hd.
    cbn [is_usable Num.isNaN negb prop_val]. unfold js_div1000. cbn [toNumber Num.div1000].
    apply clamp_interval_Fin.
  - assert (E : resolve_defaults ev
                = with_loop (Some (mkLoop (Some (Fin i)) (Some PInf))) ev).
    { unfold resolve_defaults, loop_interval, loop_repetitions.
      rewrite Hd, Hl. reflexivity. }
    rewrite E. exists (mkLoop (Some (Fin i)) (Some PInf)).
    split; [reflexivity|]. split; [reflexivity|].
    split; [unfold infiniteDelay, zeroDelayWithInfiniteRepetitions, loop_interval;
            cbn [delay loop with_loop interval]; rewrite Hd;
            cbn [prop_truthy]; rewrite (truthy_Fin i Hi); reflexivity|].
    split; [unfold noDelayOrLoop; cbn [delay loop with_loop]; rewrite Hd; reflexivity|].
    unfold getDelay, loop_interval. cbn [delay loop with_loop interval]. rewrite Hd.
    cbn [is_usable Num.isNaN negb prop_val]. unfold js_div1000. cbn [toNumber Num.div1000].
    apply clamp_interval_Fin.
  - assert (E : resolve_defaults ev = ev).
    { unfold resolve_defaults, loop_interval, loop_repetitions.
      rewrite Hd, Hl. cbn [is_number interval prop_truthy].
      rewrite (truthy_Fin i Hi), (truthy_Fin d Hd0). reflexivity. }
    rewrite E. exists (mkLoop (Some (Fin i)) r).
    split; [assumption|]. split; [reflexivity|].
    split; [unfold infiniteDelay, zeroDelayWithInfiniteRepetitions; rewrite Hd;
            cbn [prop_truthy is_infinity]; rewrite (truthy_Fin d Hd0); reflexivity|].
    split; [unfold noDelayOrLoop; rewrite Hd; reflexivity|].
    unfold getDelay. rewrite Hd.
    cbn [is_usable Num.isNaN negb prop_val]. unfold js_div1000. cbn [toNumber Num.div1000].
    apply clamp_interval_Fin.
Qed.

Lemma self_of_insert e s h c :
  evheap c = <[e := Live s]> h -> self_of c e = Some s.
Proof. intros H. unfold self_of. rewrite H, lookup_insert_eq. reflexivity. Qed.

(** C3, as the code has it: a request with a delay alone becomes a one-shot
    (one repetition, none elapsed) whose deadline is the wait after the
    call; a request with an interval alone becomes a repeater without end
    at that interval whose first deadline is one interval after the call,
    so that its first tick is not immediate; a request with both has its
    first deadline one delay after the call. In each case the event is
    queued, nothing fires during the call, and the wait is the duration
    itself from 50 ms on and 5 ms below. *)
Theorem schedule_default_policy run_cb fuel c o ev dl now own tol eps ms reps iv :
  isRunning c = true ->
  context c = Some now ->
  optheap c !! o = Some ev ->
  tolheap c !! clock_tolerance c = Some own ->
  tolheap c !! tol_target c ev = Some tol ->
  early (fill_tolerance own tol) = Some (Fin eps) ->
  (eps < 1 # 200)%Q ->
  declared ev ms reps iv ->
  exists c' s,
    schedule run_cb fuel (ArgOptions o) dl c = Ok (RetEvent (next_ev c)) c'
    /\ self_of c' (next_ev c) = Some s
    /\ next_ev c ∈ events c'
    /\ trace c' = trace c
    /\ future c' (next_ev c)
    /\ s_elapsedTickCount s = 0
    /\ s_repetitions s = reps
    /\ s_scheduled s = JNum (Fin (now + wait_of ms))
    /\ match iv with
       | Some i => s_currentInterval s = JNum (Fin (wait_of i * 1000 * 1))
       | None => True
       end.
Proof.
  intros Hrun Hctx Ho Hown Htol Heps Hlt Hdecl.
  destruct (declared_resolved ev ms reps iv Hdecl) as (l & Hl & Hreps & Hg1 & Hg2 & Hw).
  assert (Hst : started_b c = true) by (unfold started_b; rewrite Hctx, Hrun; reflexivity).
  assert (Hnow : currentTime c = JNum (Fin now)) by (unfold currentTime; rewrite Hctx; reflexivity).
  pose proof (wait_of_lower ms) as Hlow.
  destruct (schedule_accepts run_cb fuel c o ev dl own tol l Hst Ho Hg1 Hg2 Hl Hown Htol)
    as (c' & uid & Hrun' & Hheap & Hin & _ & Htr & _ & _ & Hctx').
  { rewrite Hw, Hnow, Heps. unfold js_geb, js_sub, js_add, Num.geb, Num.sub.
    cbn [toNumber prop_val Num.add Num.neg Num.leb].
    apply leb_false_Fin. lra. }
  rewrite Hw, Hnow in Hheap.
  eexists c', _. split; [exact Hrun'|].
  split; [eapply self_of_insert; exact Hheap|].
  split; [exact Hin|]. split; [exact Htr|].
  split.
  { unfold future, earliestOf, currentTime. rewrite Hctx', Hctx, Hheap, lookup_insert_eq.
    cbn [s_earliest s_tol_early with_intervals with_uid rescheduled with_deadline
         with_suspended fresh_self].
    rewrite Heps. unfold js_ltb, js_sub, js_add, Num.sub.
    cbn [toNumber prop_val Num.add Num.neg].
    apply ltb_Fin. lra. }
  split; [reflexivity|].
  split; [cbn [s_repetitions with_intervals with_uid rescheduled with_deadline
               with_suspended fresh_self]; exact Hreps|].
  split; [reflexivity|].
  destruct Hdecl; try exact I. reflexivity.
Qed.

Lemma schedule_default_policy_witness :
  exists c' s,
    schedule inert 5 (ArgOptions 0) JUndef interval_store
      = Ok (RetEvent (next_ev interval_store)) c'
    /\ self_of c' (next_ev interval_store) = Some s
    /\ next_ev interval_store ∈ events c'
    /\ trace c' = trace interval_store
    /\ future c' (next_ev interval_store)
    /\ s_elapsedTickCount s = 0
    /\ s_repetitions s = JNum PInf
    /\ s_scheduled s = JNum (Fin (10 + wait_of 1000))
    /\ s_currentInterval s = JNum (Fin (wait_of 1000 * 1000 * 1)).
Proof.
  apply (schedule_default_policy inert 5 interval_store 0 interval_request JUndef
           10 default_tolerance default_tolerance (1 # 1000) 1000 (JNum PInf)
           (Some 1000%Q)).
  - reflexivity.
  - reflexivity.
  - vm_compute. reflexivity.
  - vm_compute. reflexivity.
  - vm_compute. reflexivity.
  - reflexivity.
  - reflexivity.
  - apply interval_alone.
    + reflexivity.
    + reflexivity.
    + intros H. vm_compute in H. discriminate.
Defined.

(** C3, as stated, fails: the request [{loop: {interval: 1000}}] made at
    10 s yields an event that has not fired when [schedule] returns and is
    not due either: its earliest bound is 10.999 s. *)
Lemma first_tick_is_not_immediate :
  exists c',
    schedule inert 5 (ArgOptions 0) JUndef interval_store = Ok (RetEvent 0) c'
    /\ ~ first_tick_immediate 0 c'.
Proof.
  evaluate (schedule inert 5 (ArgOptions 0) JUndef interval_store).
  eexists. split; [reflexivity|].
  intros [[b Hf] | Hd].
  - cbn [trace] in Hf. apply not_elem_of_nil in Hf. exact Hf.
  - unfold due in Hd. vm_compute in Hd. discriminate.
Qed.

(** With a delay and an interval, it is the delay that becomes the interval
    of the event: [{delay: 2000, loop: {interval: 500, repetitions: 3}}]
    yields an event that ticks every two seconds. *)
Lemma delay_replaces_interval :
  exists c' s,
    schedule inert 5 (ArgOptions 0) JUndef delay_interval_store = Ok (RetEvent 0) c'
    /\ self_of c' 0 = Some s
    /\ Num.eqb (toNumber (s_currentInterval s)) (Fin 2000) = true
    /\ Num.eqb (toNumber (s_initialInterval s)) (Fin 2000) = true.
Proof. run_concrete. Qed.

(** ** Mutation of the request object *)

(** C10: [schedule] writes into the object of its caller. For an accepted
    request the object ends as the resolved request with a tolerance member,
    which is the clock's own tolerance object when the request had none;
    the resolution writes [loop = {repetitions: 1}] for a delay without
    interval and repetitions, and [loop.repetitions = Infinity] for an
    interval without delay and repetitions; and a request with an infinite
    delay and no loop is rejected after [loop = {repetitions: 1}] was
    written into it. *)
Theorem schedule_mutates_the_request run_cb fuel c o ev dl :
  started_b c = true ->
  optheap c !! o = Some ev ->
  (forall own tol l,
      infiniteDelay (resolve_defaults ev)
      || zeroDelayWithInfiniteRepetitions (resolve_defaults ev) = false ->
      noDelayOrLoop (resolve_defaults ev) = false ->
      loop (resolve_defaults ev) = Some l ->
      tolheap c !! clock_tolerance c = Some own ->
      tolheap c !! tol_target c ev = Some tol ->
      js_geb (currentTime c)
        (js_sub (js_add (currentTime c)
                        (clamp_interval (getDelay (resolve_defaults ev))))
                (prop_val (early (fill_tolerance own tol)))) = false ->
      exists c',
        schedule run_cb fuel (ArgOptions o) dl c = Ok (RetEvent (next_ev c)) c'
        /\ optheap c' !! o
           = Some (with_tolerance (Some (tol_target c ev)) (resolve_defaults ev))
        /\ (tolerance ev = None -> tol_target c ev = clock_tolerance c)
        /\ tolheap c' !! tol_target c ev = Some (fill_tolerance own tol))
  /\ (is_number (delay ev) = true ->
      prop_truthy (loop_interval ev) = false ->
      prop_truthy (loop_repetitions ev) = false ->
      loop (resolve_defaults ev) = Some (mkLoop None (Some (Fin 1%Q))))
  /\ (prop_truthy (delay ev) = false ->
      is_number (loop_interval ev) = true ->
      prop_truthy (loop_repetitions ev) = false ->
      is_number (delay ev) && negb (prop_truthy (loop_interval ev)) = false ->
      loop (resolve_defaults ev) = Some (mkLoop (loop_interval ev) (Some PInf)))
  /\ (delay ev = Some PInf ->
      loop ev = None ->
      exists c',
        schedule run_cb fuel (ArgOptions o) dl c = Ok RetUndefined c'
        /\ optheap c' !! o = Some (with_loop (Some (mkLoop None (Some (Fin 1%Q)))) ev)
        /\ optheap c' !! o <> optheap c !! o).
Proof.
  intros Hst Ho. split; [|split; [|split]].
  - intros own tol l Hg1 Hg2 Hl Hown Htol Hfut.
    destruct (schedule_accepts run_cb fuel c o ev dl own tol l Hst Ho Hg1 Hg2 Hl
                Hown Htol Hfut)
      as (c' & uid & Hrun & _ & _ & _ & _ & Hopt & Htolh & _).
    exists c'. split; [exact Hrun|].
    split; [rewrite Hopt; apply lookup_insert_eq|].
    split; [intros Hn; unfold tol_target; rewrite Hn; reflexivity|].
    rewrite Htolh. apply lookup_insert_eq.
  - intros H1 H2 H3. unfold resolve_defaults. rewrite H1, H2, H3. reflexivity.
  - intros H1 H2 H3 H4. unfold resolve_defaults. rewrite H4, H1, H2, H3. reflexivity.
  - intros Hd Hl.
    pose proof (clock_schedule_options_running run_cb fuel c o ev JUndef Hst Ho) as Hs.
    cbv zeta in Hs.
    assert (E : resolve_defaults ev = with_loop (Some (mkLoop None (Some (Fin 1%Q)))) ev).
    { rewrite (resolve_defaults_infinite_delay ev Hd).
      unfold loop_interval, loop_repetitions. rewrite Hl. reflexivity. }
    replace (infiniteDelay (resolve_defaults ev)) with true in Hs
      by (unfold infiniteDelay; rewrite delay_resolve_defaults, Hd; reflexivity).
    cbn [orb] in Hs. rewrite E in Hs.
    eexists. split; [exact Hs|]. st_simpl. rewrite lookup_insert_eq.
    split; [reflexivity|]. rewrite Ho. intros Heq. injection Heq as Heq.
    apply (f_equal loop) in Heq. cbn [loop with_loop] in Heq. congruence.
Qed.

Lemma schedule_mutates_the_request_witness :
  (exists c',
      schedule inert 5 (ArgOptions 0) JUndef interval_store = Ok (RetEvent 0) c'
      /\ optheap c' !! 0
         = Some (mkOptions None (Some (mkLoop (Some (Fin 1000)) (Some PInf)))
                           (Some 0) (Some 7) None None None))
  /\ (exists c',
      schedule inert 5 (ArgOptions 0) JUndef infinite_delay_store = Ok RetUndefined c'
      /\ optheap c' !! 0 <> optheap infinite_delay_store !! 0).
Proof.
  split.
  - destruct (schedule_mutates_the_request inert 5 interval_store 0 interval_request
                JUndef eq_refl eq_refl) as (H & _).
    destruct (H default_tolerance default_tolerance
                (mkLoop (Some (Fin 1000)) (Some PInf))
                eq_refl eq_refl eq_refl eq_refl eq_refl eq_refl)
      as (c' & Hrun & Hopt & _).
    exists c'. split; [exact Hrun | exact Hopt].
  - destruct (schedule_mutates_the_request inert 5 infinite_delay_store 0
                infinite_delay_request JUndef eq_refl eq_refl) as (_ & _ & _ & H).
    destruct (H eq_refl eq_refl) as (c' & Hrun & _ & Hne).
    exists c'. split; [exact Hrun | exact Hne].
Defined.

(** ** Execution *)

Ltac msimp2 :=
  cbv beta iota delta
    [bind ret get modify when throw diverge observe warn read_options
     write_options read_tolerance write_tolerance lacks hasEvent hasUIDFor
     getCurrentTime set_self removeEvent ev_suspend ev_destroy
     unless_deleted member deleteEventFromManager deleteUIDFor];
  st_simpl; cbn [negb andb orb is_Some_b is_number early late].

(** The time of the store is that of its context. *)
Ltac time_simpl :=
  repeat match goal with
  | |- context [currentTime (?f ?x ?c)] =>
      change (currentTime (f x c)) with (currentTime c)
  end.

Lemma set_trace_set_trace t t' c : set_trace t (set_trace t' c) = set_trace t c.
Proof. reflexivity. Qed.

Lemma call_inert slot f e c :
  call inert slot f e c = Ok tt (set_trace (trace c ++ [Called slot f e]) c).
Proof. reflexivity. Qed.

Lemma ev_delete_eq e c s :
  evheap c !! e = Some (Live s) ->
  ev_delete inert e c = Ok tt (deleted e s c).
Proof.
  intros He. unfold ev_delete, deleted, delete_trace. msimp2. rewrite He.
  destruct (if isLooping s then s_onAborted s else None) as [f|];
    [|destruct (s_onComplete s) as [f|]];
    repeat (progress (msimp2; rewrite ?call_inert, ?He, ?lookup_insert_eq));
    destruct (map_has e (uidmap c)) eqn:Eh;
    repeat (progress (msimp2; rewrite ?Eh, ?insert_insert_eq, ?app_nil_r));
    destruct c; reflexivity.
Qed.

(** One call of [execute] on a live event that is not suspended, in a
    running clock, with callbacks that leave the scheduler alone. *)
Lemma ev_execute_eq fuel e c s :
  evheap c !! e = Some (Live s) ->
  isRunning c = true ->
  s_suspended s = false ->
  ev_execute inert (S fuel) e c =
  let s1 := with_elapsedTickCount (S (s_elapsedTickCount s)) s in
  let c1 := fired e s c in
  if isComplete s1 then ev_delete inert e c1
  else if negb (inQueue e (events c1)) && isLooping s1 then
    ev_schedule_with (ev_execute inert fuel) e
      (js_add (s_scheduled s1) (js_div1000 (s_currentInterval s1))) false c1
  else Ok tt c1.
Proof.
  intros He Hrun Hsus. cbn [ev_execute]. unfold fired, fire_trace, put_self.
  msimp2. rewrite He. msimp2. rewrite Hrun, Hsus. msimp2. time_simpl.
  set (s1 := with_elapsedTickCount (S (s_elapsedTickCount s)) s).
  assert (Hs1 : s_suspended s1 = false) by exact Hsus.
  destruct (onTimeAt (currentTime c) s1) eqn:Eon;
    [destruct (s_onTick s1) as [f|] eqn:Etick|];
    try destruct (s_onMissed s1) as [g|] eqn:Emiss;
    repeat (progress (msimp2; rewrite ?call_inert, ?lookup_insert_eq, ?Hs1, ?andb_true_r));
    rewrite <- ?app_assoc; cbn [app]; rewrite ?set_trace_set_trace;
    (destruct (isComplete s1); [reflexivity|]);
    cbv beta; st_simpl; rewrite ?andb_true_r;
    destruct (negb _ && _); reflexivity.
Qed.

(** The handler of a firing: [onTick] on time, [onMissed] when the deadline
    was missed, and [onMissed] again on time when there is no [onTick]. *)
Lemma fire_trace_on_time e s f :
  s_onTick s = Some f -> fire_trace e s true = [Fire e true; Called OnTick f e].
Proof. intros H. unfold fire_trace. rewrite H. reflexivity. Qed.

Lemma fire_trace_missed e s f :
  s_onMissed s = Some f -> fire_trace e s false = [Fire e false; Called OnMissed f e].
Proof. intros H. unfold fire_trace. rewrite H. reflexivity. Qed.

Lemma fire_trace_on_time_without_onTick e s f :
  s_onTick s = None -> s_onMissed s = Some f ->
  fire_trace e s true = [Fire e true; Called OnMissed f e].
Proof. intros H1 H2. unfold fire_trace. rewrite H1, H2. reflexivity. Qed.

(** A firing calls one handler at most. *)
Lemma fire_trace_one_call e s b :
  fire_trace e s b = [Fire e b]
  \/ exists slot f, fire_trace e s b = [Fire e b; Called slot f e].
Proof.
  unfold fire_trace.
  destruct b; [destruct (s_onTick s)|]; try destruct (s_onMissed s); eauto.
Qed.

(** The callback of a deletion: [onAborted] for an event that still loops
    and has the handler, [onComplete] otherwise. *)
Lemma delete_trace_aborted e s f :
  isLooping s = true -> s_onAborted s = Some f ->
  delete_trace e s = [Called OnAborted f e].
Proof. intros H1 H2. unfold delete_trace. rewrite H1, H2. reflexivity. Qed.

Lemma delete_trace_complete e s f :
  isLooping s = false -> s_onComplete s = Some f ->
  delete_trace e s = [Called OnComplete f e].
Proof. intros H1 H2. unfold delete_trace. rewrite H1, H2. reflexivity. Qed.

Lemma delete_trace_pending_without_onAborted e s f :
  isLooping s = true -> s_onAborted s = None -> s_onComplete s = Some f ->
  delete_trace e s = [Called OnComplete f e].
Proof. intros H1 H2 H3. unfold delete_trace. rewrite H1, H2, H3. reflexivity. Qed.

Lemma fires_fire_trace e s b : fires e (fire_trace e s b).
Proof. exists b. unfold fire_trace. left. Qed.

Lemma about_fire_trace e s b : Forall (about e) (fire_trace e s b).
Proof.
  unfold fire_trace. constructor; [reflexivity|].
  destruct b; [destruct (s_onTick s)|]; try destruct (s_onMissed s);
    repeat constructor.
Qed.

Lemma about_delete_trace e s : Forall (about e) (delete_trace e s).
Proof.
  unfold delete_trace.
  destruct (if isLooping s then s_onAborted s else None);
    [|destruct (s_onComplete s)]; repeat constructor.
Qed.

Lemma fires_app_l e tr tr' : fires e tr -> fires e (tr ++ tr').
Proof. intros [b H]. exists b. apply elem_of_app. left. exact H. Qed.

Lemma splice_in_app_ge i e l1 l2 :
  length l1 <= i ->
  splice_in i e (l1 ++ l2) =
  l1 ++ take (i - length l1) l2 ++ e :: drop (i - length l1) l2.
Proof.
  intros H. unfold splice_in.
  rewrite take_app, drop_app.
  rewrite (take_ge l1) by lia. rewrite (drop_ge l1) by lia.
  rewrite <- app_assoc. reflexivity.
Qed.

Lemma earliestOf_ne h e o x : x <> e -> earliestOf (<[e := o]> h) x = earliestOf h x.
Proof. intros H. unfold earliestOf. rewrite lookup_insert_ne by congruence. reflexivity. Qed.

Lemma earliest_rescheduled x t s :
  s_tol_early s = JNum (Fin t) ->
  s_earliest (rescheduled (JNum (Fin x)) s) = JNum (Fin (x + - t)).
Proof. intros H. unfold rescheduled. cbn [s_earliest with_deadline]. rewrite H. reflexivity. Qed.

(** The number of intervals that carries a deadline past any time. *)
Lemma enough_intervals (x step : Q) :
  (0 < step)%Q -> exists n : nat, (x < inject_Z (Z.of_nat n) * step)%Q.
Proof.
  intros Hs.
  destruct x as [a b], step as [p q].
  assert (Hp : (0 < p)%Z).
  { unfold Qlt in Hs. simpl in Hs. lia. }
  exists (Z.to_nat (Z.abs a * Z.pos q + 1)).
  unfold Qlt, Qmult, inject_Z. cbn [Qnum Qden].
  rewrite Z2Nat.id by lia.
  rewrite Pos.mul_1_l.
  set (N := (Z.abs a * Z.pos q + 1)%Z).
  assert (H1 : (a * Z.pos q < N)%Z) by (unfold N; nia).
  assert (H2 : (N <= N * p * Z.pos b)%Z).
  { assert (1 <= p * Z.pos b)%Z by nia.
    assert (0 < N)%Z by (unfold N; nia).
    rewrite <- Z.mul_assoc. nia. }
  lia.
Qed.

(** *** The stores an execution passes through *)

Section Fired.

Variables (e : evref) (s : EventSelf) (c : State).
Hypothesis Hnin : e ∉ events c.

Let s1 := with_elapsedTickCount (S (s_elapsedTickCount s)) s.

Lemma events_fired : events (fired e s c) = events c.
Proof. unfold fired, put_self. st_simpl. apply remove_first_notin. exact Hnin. Qed.

Lemma evheap_fired : evheap (fired e s c) = <[e := Live s1]> (evheap c).
Proof. reflexivity. Qed.

Lemma executed_fired : executed e c (fired e s c).
Proof.
  constructor.
  - repeat split.
  - intros x Hx. rewrite evheap_fired. apply lookup_insert_ne. congruence.
  - eexists. split; [reflexivity|]. split.
    + apply fires_fire_trace.
    + apply about_fire_trace.
  - intros pre post Hq _. left. rewrite events_fired. exact Hq.
Qed.

Lemma executed_deleted : executed e c (deleted e s1 (fired e s c)).
Proof.
  constructor.
  - repeat split.
  - intros x Hx. unfold deleted. st_simpl. rewrite evheap_fired.
    rewrite !lookup_insert_ne by congruence. reflexivity.
  - exists (fire_trace e s1 (onTimeAt (currentTime c) s1) ++ delete_trace e s1).
    split; [|split].
    + unfold deleted, fired. st_simpl. rewrite app_assoc. reflexivity.
    + apply fires_app_l, fires_fire_trace.
    + apply Forall_app. split; [apply about_fire_trace | apply about_delete_trace].
  - intros pre post Hq _. left. unfold deleted. st_simpl.
    rewrite events_fired. rewrite remove_first_notin by exact Hnin. exact Hq.
Qed.

(** The event is put back in the queue, behind the events that are due. *)
Lemma executed_requeued s' :
  js_ltb (currentTime c) (s_earliest s') = true ->
  executed e c (requeued e s' (put_self e s' (fired e s c))).
Proof.
  intros Hfut.
  set (c2 := put_self e s' (fired e s c)).
  destruct (frame_requeued e s' c2) as (Htr & _ & _ & Hclk & _).
  assert (Hh : evheap (requeued e s' c2) = <[e := Live s']> (evheap c)).
  { rewrite evheap_requeued. unfold c2, put_self. st_simpl.
    rewrite evheap_fired, insert_insert_eq. reflexivity. }
  constructor.
  - destruct Hclk as (H1 & H2 & H3). repeat split; assumption.
  - intros x Hx. rewrite Hh. apply lookup_insert_ne. congruence.
  - eexists. split; [rewrite Htr; reflexivity|]. split.
    + apply fires_fire_trace.
    + apply about_fire_trace.
  - intros pre post Hq Hdue. right.
    assert (Hq2 : remove_first e (events c2) = pre ++ post).
    { unfold c2, put_self. st_simpl. rewrite events_fired.
      rewrite remove_first_notin by exact Hnin. exact Hq. }
    rewrite events_requeued, Hq2.
    assert (Hpre : Forall (fun x => js_ltb (earliestOf (evheap c2) x) (s_earliest s') = true) pre).
    { rewrite Forall_forall in Hdue. apply Forall_forall. intros x Hx.
      assert (x <> e).
      { intros ->. apply Hnin. rewrite Hq. apply elem_of_app. left. exact Hx. }
      unfold c2, put_self. st_simpl. rewrite evheap_fired.
      rewrite !earliestOf_ne by assumption.
      eapply leb_ltb_trans; [apply Hdue; exact Hx | exact Hfut]. }
    destruct (indexByTime_lower (evheap c2) pre post (s_earliest s') Hpre) as [Hlo Hhi].
    set (idx := indexByTime (evheap c2) (pre ++ post) (s_earliest s')) in *.
    exists (take (idx - length pre) post), (drop (idx - length pre) post).
    split; [symmetry; apply take_drop|].
    split; [apply splice_in_app_ge; exact Hlo|].
    unfold future. rewrite Hh. unfold earliestOf. rewrite lookup_insert_eq.
    destruct Hclk as (H1 & _). unfold currentTime. rewrite H1. exact Hfut.
Qed.

(** A further execution, after the event was rescheduled, adds up. *)
Lemma executed_again s' c' :
  executed e (put_self e s' (fired e s c)) c' ->
  executed e c c'.
Proof.
  set (c2 := put_self e s' (fired e s c)).
  intros [Hclk Hheap (tr & Htr & Hf & Ha) Hqueue].
  constructor.
  - exact Hclk.
  - intros x Hx. rewrite (Hheap x Hx). unfold c2, put_self. st_simpl.
    rewrite evheap_fired. rewrite !lookup_insert_ne by congruence. reflexivity.
  - exists (fire_trace e s1 (onTimeAt (currentTime c) s1) ++ tr).
    split; [|split].
    + rewrite Htr. unfold c2, put_self, fired. st_simpl. rewrite app_assoc. reflexivity.
    + apply fires_app_l, fires_fire_trace.
    + apply Forall_app. split; [apply about_fire_trace | exact Ha].
  - intros pre post Hq Hdue. apply Hqueue.
    + unfold c2, put_self. st_simpl. rewrite events_fired. exact Hq.
    + rewrite Forall_forall in Hdue. apply Forall_forall. intros x Hx.
      assert (x <> e).
      { intros ->. apply Hnin. rewrite Hq. apply elem_of_app. left. exact Hx. }
      unfold due, c2, put_self. st_simpl. rewrite evheap_fired.
      rewrite !earliestOf_ne by assumption.
      apply Hdue. exact Hx.
Qed.

End Fired.

(** The three ways [execute] ends or goes on, for a steady repeater. *)
Lemma ev_execute_cases fuel c e s now d t i :
  isRunning c = true ->
  context c = Some now ->
  evheap c !! e = Some (Live s) ->
  s_suspended s = false ->
  s_scheduled s = JNum (Fin d) ->
  s_tol_early s = JNum (Fin t) ->
  s_currentInterval s = JNum (Fin i) ->
  let s1 := with_elapsedTickCount (S (s_elapsedTickCount s)) s in
  let s' := rescheduled (JNum (Fin (d + i / 1000))) s1 in
  let c2 := put_self e s' (fired e s c) in
  ev_execute inert (S fuel) e c =
  if isComplete s1 then Ok tt (deleted e s1 (fired e s c))
  else if negb (inQueue e (events (fired e s c))) && isLooping s1 then
    if Qle_bool (d + i / 1000 + - t) now then ev_execute inert fuel e c2
    else Ok tt (requeued e s' c2)
  else Ok tt (fired e s c).
Proof.
  intros Hrun Hctx He Hsus Hd Ht Hi s1 s' c2.
  rewrite (ev_execute_eq fuel e c s He Hrun Hsus). cbv zeta. fold s1.
  assert (He1 : evheap (fired e s c) !! e = Some (Live s1))
    by (rewrite evheap_fired; apply lookup_insert_eq).
  destruct (isComplete s1); [apply ev_delete_eq; exact He1|].
  destruct (negb (inQueue e (events (fired e s c))) && isLooping s1); [|reflexivity].
  rewrite (ev_schedule_with_eq _ e _ false _ s1 He1). cbv zeta. cbn [orb].
  change (s_scheduled s1) with (s_scheduled s).
  change (s_currentInterval s1) with (s_currentInterval s).
  rewrite Hd, Hi.
  change (js_add (JNum (Fin d)) (js_div1000 (JNum (Fin i))))
    with (JNum (Fin (d + i / 1000))).
  fold s'. fold c2.
  assert (Ht1 : s_tol_early s1 = JNum (Fin t)) by exact Ht.
  unfold s' at 1. rewrite (earliest_rescheduled _ t s1 Ht1).
  change (currentTime (fired e s c)) with (currentTime c).
  replace (currentTime c) with (JNum (Fin now))
    by (unfold currentTime; rewrite Hctx; reflexivity).
  change (js_geb (JNum (Fin now)) (JNum (Fin (d + i / 1000 + - t))))
    with (Qle_bool (d + i / 1000 + - t) now).
  destruct (Qle_bool (d + i / 1000 + - t) now); cbn [negb]; [reflexivity|].
  apply requeue_live. apply evheap_put_self.
Qed.

(** [execute] returns on a steady repeater, with fuel for one call more
    than the number [n] of intervals between its earliest bound and a point
    beyond the current time; the store it returns does not depend on the
    fuel. *)
Lemma execute_spec n :
  forall c e s now d t i,
    isRunning c = true ->
    context c = Some now ->
    evheap c !! e = Some (Live s) ->
    s_suspended s = false ->
    s_scheduled s = JNum (Fin d) ->
    s_tol_early s = JNum (Fin t) ->
    s_currentInterval s = JNum (Fin i) ->
    (0 < i)%Q ->
    e ∉ events c ->
    (now - (d - t) < inject_Z (Z.of_nat n) * (i / 1000))%Q ->
    exists c',
      executed e c c'
      /\ forall fuel, n < fuel -> ev_execute inert fuel e c = Ok tt c'.
Proof.
  induction n as [|n IH];
    intros c e s now d t i Hrun Hctx He Hsus Hd Ht Hi Hpos Hnin Hm;
    pose proof (fun fuel => ev_execute_cases fuel c e s now d t i
                              Hrun Hctx He Hsus Hd Ht Hi) as Hcases;
    cbv zeta in Hcases;
    set (s1 := with_elapsedTickCount (S (s_elapsedTickCount s)) s) in *;
    set (s' := rescheduled (JNum (Fin (d + i / 1000))) s1) in *;
    (assert (Ht1 : s_tol_early s1 = JNum (Fin t)) by exact Ht);
    (assert (Hnow : currentTime c = JNum (Fin now))
      by (unfold currentTime; rewrite Hctx; reflexivity));
    (destruct (isComplete s1);
     [exists (deleted e s1 (fired e s c)); split;
      [apply executed_deleted; exact Hnin
      |intros [|fuel] Hf; [lia | apply Hcases]] |]);
    (destruct (negb (inQueue e (events (fired e s c))) && isLooping s1);
     [|exists (fired e s c); split;
       [apply executed_fired; exact Hnin
       |intros [|fuel] Hf; [lia | apply Hcases]]]);
    destruct (Qle_bool (d + i / 1000 + - t) now) eqn:Edue.
  - (* due again, yet no interval left: impossible *)
    apply Qle_bool_iff in Edue. exfalso.
    assert (0 < i / 1000)%Q by (apply Qlt_shift_div_l; lra).
    change (inject_Z (Z.of_nat 0)) with 0%Q in Hm. lra.
  - exists (requeued e s' (put_self e s' (fired e s c))). split.
    + apply executed_requeued; [exact Hnin|].
      unfold s'. rewrite (earliest_rescheduled _ t s1 Ht1), Hnow.
      apply ltb_Fin. apply leb_false_Fin. exact Edue.
    + intros [|fuel] Hf; [lia | apply Hcases].
  - apply Qle_bool_iff in Edue.
    destruct (IH (put_self e s' (fired e s c)) e s' now (d + i / 1000)%Q t i)
      as (c' & Hex & Hrun'); try assumption; try reflexivity.
    + apply evheap_put_self.
    + unfold put_self. st_simpl. rewrite events_fired by exact Hnin. exact Hnin.
    + rewrite Nat2Z.inj_succ, <- Z.add_1_r, inject_Z_plus in Hm.
      change (inject_Z 1) with 1%Q in Hm. lra.
    + exists c'. split.
      * eapply executed_again; [exact Hnin | exact Hex].
      * intros [|fuel] Hf; [lia|]. rewrite Hcases. apply Hrun'. lia.
  - exists (requeued e s' (put_self e s' (fired e s c))). split.
    + apply executed_requeued; [exact Hnin|].
      unfold s'. rewrite (earliest_rescheduled _ t s1 Ht1), Hnow.
      apply ltb_Fin. apply leb_false_Fin. exact Edue.
    + intros [|fuel] Hf; [lia | apply Hcases].
Qed.

(** ** The tick *)

Lemma tick_drain run_cb fuel c now :
  context c = Some now -> tick run_cb fuel c = drain run_cb fuel c.
Proof. intros H. unfold tick, bind, get. rewrite H. reflexivity. Qed.

(** An empty queue: nothing to do. *)
Lemma drain_nil run_cb fuel c :
  events c = [] -> drain run_cb (S fuel) c = Ok tt c.
Proof.
  intros H. unfold drain, bind, shift. rewrite H. reflexivity.
Qed.

(** A head that is not due is pushed back. *)
Lemma drain_future run_cb fuel c e rest :
  events c = e :: rest ->
  js_leb (earliestOf (evheap c) e) (currentTime c) = false ->
  drain run_cb (S fuel) c = Ok tt c.
Proof.
  intros H Hf. unfold drain, bind, shift. rewrite H.
  cbn [tick_loop]. unfold bind, get. st_simpl. time_simpl. rewrite Hf.
  unfold unshift, modify. st_simpl. f_equal. destruct c. st_simpl. subst.
  reflexivity.
Qed.

(** A head that is due is executed, and the loop goes on. *)
Lemma drain_due run_cb fuel c e rest s :
  events c = e :: rest ->
  evheap c !! e = Some (Live s) ->
  js_leb (earliestOf (evheap c) e) (currentTime c) = true ->
  drain run_cb (S fuel) c =
  (ev_execute run_cb (S fuel) e ;;; drain run_cb fuel) (set_events rest c).
Proof.
  intros H He Hd. unfold drain at 1. unfold bind at 1. unfold shift. rewrite H.
  cbn [tick_loop]. unfold bind at 1. unfold get. st_simpl. time_simpl. rewrite Hd.
  unfold bind at 1. rewrite (member_live e _ _ _ s) by exact He.
  reflexivity.
Qed.

Lemma future_not_due c e : future c e -> js_leb (earliestOf (evheap c) e) (currentTime c) = false.
Proof. unfold future, js_ltb, js_leb. apply ltb_leb_excl. Qed.

Lemma fires_nil e : ~ fires e [].
Proof. intros [b H]. apply not_elem_of_nil in H. exact H. Qed.

Lemma fires_app e tr tr' : fires e (tr ++ tr') <-> fires e tr \/ fires e tr'.
Proof.
  unfold fires. split.
  - intros [b H]. apply elem_of_app in H. destruct H; [left|right]; eauto.
  - intros [[b H]|[b H]]; exists b; apply elem_of_app; [left|right]; exact H.
Qed.

Lemma fires_about e x tr : Forall (about e) tr -> fires x tr -> x = e.
Proof.
  intros Ha [b H]. rewrite Forall_forall in Ha. apply (Ha _ H).
Qed.

Lemma firing_sequence_app tr tr' :
  firing_sequence (tr ++ tr') = firing_sequence tr ++ firing_sequence tr'.
Proof. unfold firing_sequence. apply omap_app. Qed.

Lemma fires_firing_sequence e tr : fires e tr <-> e ∈ firing_sequence tr.
Proof.
  unfold fires, firing_sequence. rewrite list_elem_of_omap. split.
  - intros [b H]. exists (Fire e b). split; [exact H | reflexivity].
  - intros ([msg|slot f x|x b] & H & Heq); try discriminate.
    injection Heq as ->. exists b. exact H.
Qed.

(** The firings of a trace that concerns one event, with a firing in it:
    this event, once or more. *)
Lemma firing_sequence_about e tr :
  Forall (about e) tr -> fires e tr ->
  exists k, firing_sequence tr = replicate (S k) e.
Proof.
  intros Ha Hf.
  assert (Hn : exists n, firing_sequence tr = replicate n e).
  { clear Hf. induction Ha as [|o tr Ho Ha [n IH]]; [exists 0; reflexivity|].
    destruct o as [msg|slot f x|x b]; simpl in Ho.
    - contradiction.
    - exists n. exact IH.
    - subst x. exists (S n). cbn. rewrite <- IH. reflexivity. }
  destruct Hn as [[|k] Hn]; [|exists k; exact Hn].
  apply fires_firing_sequence in Hf. rewrite Hn in Hf. inversion Hf.
Qed.

(** One more turn, before the others. *)
Lemma in_turns_cons d dues tr1 tr :
  fires d tr1 -> Forall (about d) tr1 ->
  (exists reps, length reps = length dues
                /\ firing_sequence tr = in_turns dues reps) ->
  exists reps, length reps = length (d :: dues)
               /\ firing_sequence (tr1 ++ tr) = in_turns (d :: dues) reps.
Proof.
  intros Hf Ha (reps & Hlen & Hturns).
  destruct (firing_sequence_about d tr1 Ha Hf) as [k Hk].
  exists (k :: reps). split; [simpl; rewrite Hlen; reflexivity|].
  rewrite firing_sequence_app, Hk, Hturns. reflexivity.
Qed.

(** The loop of [tick] on a queue that begins with the events that are due:
    with enough fuel it ends, and has fired them all and nothing else. *)
Lemma drain_spec dues :
  forall c rest now,
    isRunning c = true ->
    context c = Some now ->
    events c = dues ++ rest ->
    NoDup (dues ++ rest) ->
    Forall (fun e => due c e /\ runnable c e) dues ->
    Forall (future c) rest ->
    exists fuel0, forall fuel, fuel0 <= fuel ->
      exists c', drain inert fuel c = Ok tt c' /\ drained dues rest c c'.
Proof.
  induction dues as [|d dues IH]; intros c rest now Hrun Hctx Hq Hnd Hdues Hrest.
  - exists 1. intros [|fuel] Hf; [lia|]. exists c. split.
    + destruct rest as [|r rest].
      * apply drain_nil. exact Hq.
      * apply (drain_future inert fuel c r rest Hq).
        apply future_not_due. inversion Hrest; assumption.
    + exists []. rewrite app_nil_r. split; [reflexivity|].
      split; [exists []; split; reflexivity|].
      split; [intros x Hx; inversion Hx|].
      split; [intros x Hx; exfalso; exact (fires_nil x Hx)|].
      split; [rewrite Hq; exact Hrest|].
      split; [intros x Hx; split; [rewrite Hq; exact Hx | reflexivity]|].
      repeat split.
  - inversion Hdues as [|? ? [Hdue (s & He & Hsus & (d0 & Hd0) & (t & Ht) & (i & Hi & Hpos))] Hdues']; subst.
    cbn [app] in Hq, Hnd. apply NoDup_cons in Hnd. destruct Hnd as [Hd_nin Hnd].
    destruct (enough_intervals (now - (d0 - t)) (i / 1000)) as [n Hn].
    { apply Qlt_shift_div_l; lra. }
    set (c0 := set_events (dues ++ rest) c).
    destruct (execute_spec n c0 d s now d0 t i Hrun Hctx He Hsus Hd0 Ht Hi Hpos Hd_nin Hn)
      as (c1 & [Hclk Hheap (tr1 & Htr1 & Hf1 & Ha1) Hqueue] & Hex).
    assert (Hdues0 : Forall (due c0) dues).
    { eapply Forall_impl; [exact Hdues'|]. intros x [Hx _]. exact Hx. }
    assert (Hne : forall x, x ∈ dues ++ rest -> x <> d).
    { intros x Hx ->. contradiction. }
    destruct Hclk as (Hctx1 & Hrun1 & Htol1).
    assert (Hsame : forall x, x <> d -> earliestOf (evheap c1) x = earliestOf (evheap c) x).
    { intros x Hx. unfold earliestOf. rewrite (Hheap x Hx). reflexivity. }
    assert (Hnow1 : currentTime c1 = currentTime c).
    { unfold currentTime. rewrite Hctx1. reflexivity. }
    destruct (Hqueue dues rest eq_refl Hdues0) as [Hq1 | (a & b & Hab & Hq1 & Hfut1)].
    + (* the event is not queued again *)
      destruct (IH c1 rest now) as (fuel0 & Hloop); try assumption.
      * rewrite Hrun1. exact Hrun.
      * rewrite Hctx1. exact Hctx.
      * rewrite Forall_forall in Hdues'. apply Forall_forall. intros x Hx.
        assert (x <> d) by (apply Hne; apply elem_of_app; left; exact Hx).
        destruct (Hdues' x Hx) as [Hxd (sx & Hsx & Hst)]. split.
        -- unfold due. rewrite Hsame, Hnow1 by assumption. exact Hxd.
        -- exists sx. split; [rewrite (Hheap x) by assumption; exact Hsx | exact Hst].
      * rewrite Forall_forall in Hrest. apply Forall_forall. intros x Hx.
        assert (x <> d) by (apply Hne; apply elem_of_app; right; exact Hx).
        unfold future. rewrite Hsame, Hnow1 by assumption. apply Hrest. exact Hx.
      * exists (S (Nat.max n fuel0)). intros [|fuel] Hfuel; [lia|].
        destruct (Hloop fuel)
          as (c' & Hrun' & tr & Htr & Hturns & Hall & Honly & Hfut & Hkeep & Hclk');
          [lia|].
        exists c'. split.
        -- rewrite (drain_due inert fuel c d (dues ++ rest) s Hq He Hdue).
           unfold bind. fold c0. rewrite (Hex (S fuel)) by lia. exact Hrun'.
        -- exists (tr1 ++ tr). split; [rewrite Htr, Htr1, app_assoc; reflexivity|].
           split; [apply in_turns_cons; assumption|].
           split.
           { intros x Hx. apply fires_app. apply elem_of_cons in Hx.
             destruct Hx as [->|Hx]; [left; exact Hf1 | right; apply Hall; exact Hx]. }
           split.
           { intros x Hx. apply fires_app in Hx. destruct Hx as [Hx|Hx].
             - rewrite (fires_about d x tr1 Ha1 Hx). left.
             - right. apply Honly. exact Hx. }
           split; [exact Hfut|].
           split.
           { intros x Hx. destruct (Hkeep x Hx) as [Hin Hh]. split; [exact Hin|].
             rewrite Hh. apply Hheap. apply Hne. apply elem_of_app. right. exact Hx. }
           destruct Hclk' as (H1 & H2 & H3).
           repeat split; [rewrite H1; exact Hctx1 | rewrite H2; exact Hrun1
                         | rewrite H3; exact Htol1].
    + (* the event is queued again, behind the events that are due *)
      subst rest.
      destruct (IH c1 (a ++ d :: b) now) as (fuel0 & Hloop); try assumption.
      * rewrite Hrun1. exact Hrun.
      * rewrite Hctx1. exact Hctx.
      * apply NoDup_app in Hnd. destruct Hnd as (Hn1 & Hn2 & Hn3).
        apply NoDup_app in Hn3. destruct Hn3 as (Hn4 & Hn5 & Hn6).
        apply NoDup_app. split; [exact Hn1|]. split.
        -- intros x Hx Hin. apply elem_of_app in Hin.
           destruct Hin as [Hin|Hin].
           ++ apply (Hn2 x Hx). apply elem_of_app. left. exact Hin.
           ++ apply elem_of_cons in Hin. destruct Hin as [->|Hin].
              ** apply Hd_nin. apply elem_of_app. left. exact Hx.
              ** apply (Hn2 x Hx). apply elem_of_app. right. exact Hin.
        -- apply NoDup_app. split; [exact Hn4|]. split.
           ++ intros x Hx Hin. apply elem_of_cons in Hin. destruct Hin as [->|Hin].
              ** apply Hd_nin. apply elem_of_app. right. apply elem_of_app. left. exact Hx.
              ** apply (Hn5 x Hx Hin).
           ++ apply NoDup_cons. split; [|exact Hn6].
              intros Hin. apply Hd_nin. apply elem_of_app. right.
              apply elem_of_app. right. exact Hin.
      * rewrite Forall_forall in Hdues'. apply Forall_forall. intros x Hx.
        assert (x <> d) by (apply Hne; apply elem_of_app; left; exact Hx).
        destruct (Hdues' x Hx) as [Hxd (sx & Hsx & Hst)]. split.
        -- unfold due. rewrite Hsame, Hnow1 by assumption. exact Hxd.
        -- exists sx. split; [rewrite (Hheap x) by assumption; exact Hsx | exact Hst].
      * rewrite Forall_forall in Hrest. apply Forall_forall. intros x Hx.
        apply elem_of_app in Hx. rewrite elem_of_cons in Hx.
        destruct Hx as [Hx|[->|Hx]]; [|exact Hfut1|].
        -- assert (x <> d) by (apply Hne; apply elem_of_app; right;
                               apply elem_of_app; left; exact Hx).
           unfold future. rewrite Hsame, Hnow1 by assumption. apply Hrest.
           apply elem_of_app. left. exact Hx.
        -- assert (x <> d) by (apply Hne; apply elem_of_app; right;
                               apply elem_of_app; right; exact Hx).
           unfold future. rewrite Hsame, Hnow1 by assumption. apply Hrest.
           apply elem_of_app. right. exact Hx.
      * exists (S (Nat.max n fuel0)). intros [|fuel] Hfuel; [lia|].
        destruct (Hloop fuel)
          as (c' & Hrun' & tr & Htr & Hturns & Hall & Honly & Hfut & Hkeep & Hclk');
          [lia|].
        exists c'. split.
        -- rewrite (drain_due inert fuel c d (dues ++ a ++ b) s Hq He Hdue).
           unfold bind. fold c0. rewrite (Hex (S fuel)) by lia. exact Hrun'.
        -- exists (tr1 ++ tr). split; [rewrite Htr, Htr1, app_assoc; reflexivity|].
           split; [apply in_turns_cons; assumption|].
           split.
           { intros x Hx. apply fires_app. apply elem_of_cons in Hx.
             destruct Hx as [->|Hx]; [left; exact Hf1 | right; apply Hall; exact Hx]. }
           split.
           { intros x Hx. apply fires_app in Hx. destruct Hx as [Hx|Hx].
             - rewrite (fires_about d x tr1 Ha1 Hx). left.
             - right. apply Honly. exact Hx. }
           split; [exact Hfut|].
           split.
           { intros x Hx.
             assert (Hx' : x ∈ a ++ d :: b).
             { apply elem_of_app in Hx. apply elem_of_app.
               destruct Hx; [left | right; right]; assumption. }
             destruct (Hkeep x Hx') as [Hin Hh]. split; [exact Hin|].
             rewrite Hh. apply Hheap. apply Hne. apply elem_of_app. right. exact Hx. }
           destruct Hclk' as (H1 & H2 & H3).
           repeat split; [rewrite H1; exact Hctx1 | rewrite H2; exact Hrun1
                         | rewrite H3; exact Htol1].
Qed.

(** A sorted queue begins with the events that are due. *)
Lemma sorted_due_first h q now :
  queue_sorted h q ->
  exists dues rest,
    q = dues ++ rest
    /\ Forall (fun x => Num.leb (keyOf h x) (Fin now) = true) dues
    /\ Forall (fun x => Num.ltb (Fin now) (keyOf h x) = true) rest.
Proof.
  intros [Hs Hn]. induction q as [|a q IH].
  - exists [], []. repeat split; constructor.
  - apply StronglySorted_inv in Hs. destruct Hs as [Hs Ha].
    inversion Hn as [|? ? Hna Hnq]; subst.
    destruct (Num.leb (keyOf h a) (Fin now)) eqn:E.
    + destruct (IH Hs Hnq) as (b & r & -> & Hb & Hr).
      exists (a :: b), r. repeat split; [constructor; assumption | assumption].
    + exists [], (a :: q). split; [reflexivity|]. split; [constructor|].
      assert (Hlt : Num.ltb (Fin now) (keyOf h a) = true).
      { destruct (keyOf h a) as [x| | |]; simpl in *; try congruence.
        rewrite E. reflexivity. }
      constructor; [assumption|].
      rewrite Forall_forall in Ha. apply Forall_forall. intros x Hx.
      eapply ltb_leb_trans; [exact Hlt | apply Ha; assumption].
Qed.



(** One tick, several firings: at 12 s the repeater fires for its missed
    deadline of 11 s and again, on time, for 12 s, and the one-shot fires
    and completes; the repeater for 15 s stays where it is. *)
Lemma tick_fires_several :
  exists c',
    tick inert 5 tick_store = Ok tt c'
    /\ trace c' = [Fire 0 false; Fire 0 true; Called OnTick 7 0;
                   Fire 1 true; Called OnComplete 8 1]
    /\ events c' = [0; 2].
Proof. run_concrete. Qed.
(** ** The order of the firings *)

Lemma leb_refl a : a <> NaN -> Num.leb a a = true.
Proof.
  destruct a as [q| | |]; intros H; try reflexivity; [|congruence].
  apply leb_Fin. apply Qle_refl.
Qed.

Lemma in_turns_elem es : forall reps x, x ∈ in_turns es reps -> x ∈ es.
Proof.
  induction es as [|e es IH]; intros [|k reps] x H; try (inversion H; fail).
  change (in_turns (e :: es) (k :: reps))
    with (replicate (S k) e ++ in_turns es reps) in H.
  apply elem_of_app in H. destruct H as [H|H].
  - apply elem_of_replicate in H. destruct H as [-> _]. left.
  - right. exact (IH _ _ H).
Qed.

Lemma replicate_sorted {A} (R : A -> A -> Prop) n x :
  R x x -> StronglySorted R (replicate n x).
Proof.
  intros H. induction n as [|n IH]; simpl; constructor; [exact IH|].
  apply Forall_forall. intros y Hy.
  apply elem_of_replicate in Hy. destruct Hy as [-> _]. exact H.
Qed.

(** Events that are in order stay in order when each takes several turns
    in a row. *)
Lemma in_turns_sorted (R : evref -> evref -> Prop) es :
  StronglySorted R es -> (forall x, x ∈ es -> R x x) ->
  forall reps, StronglySorted R (in_turns es reps).
Proof.
  induction es as [|e es IH]; intros Hs Hr [|k reps];
    try (apply SSorted_nil; fail).
  apply StronglySorted_inv in Hs. destruct Hs as [Hs He].
  change (in_turns (e :: es) (k :: reps))
    with (replicate (S k) e ++ in_turns es reps).
  apply StronglySorted_app. split; [|split].
  - intros x1 x2 H1 H2. apply elem_of_replicate in H1. destruct H1 as [-> _].
    rewrite Forall_forall in He. apply He. exact (in_turns_elem _ _ _ H2).
  - apply replicate_sorted. apply Hr. left.
  - apply IH; [exact Hs|]. intros x Hx. apply Hr. right. exact Hx.
Qed.

(** The five firings of one tick of [catch_up_store], as the handlers see
    them: the first repeater fires for 10 s, 11 s and 12 s, and only then
    the second fires, for 10.5 s and 11.5 s. *)
Lemma catch_up_firings :
  exists b1 b2 b3 b4 b5,
    firing_seen 8 1 catch_up_store = Some (0, JNum (Fin b1))
    /\ firing_seen 8 2 catch_up_store = Some (0, JNum (Fin b2))
    /\ firing_seen 8 3 catch_up_store = Some (0, JNum (Fin b3))
    /\ firing_seen 8 4 catch_up_store = Some (1, JNum (Fin b4))
    /\ firing_seen 8 5 catch_up_store = Some (1, JNum (Fin b5))
    /\ (b1 == 9999 # 1000)%Q /\ (b2 == 10999 # 1000)%Q
    /\ (b3 == 11999 # 1000)%Q /\ (b4 == 10499 # 1000)%Q
    /\ (b5 == 11499 # 1000)%Q.
Proof.
  eexists _, _, _, _, _.
  repeat (split; [vm_compute; reflexivity|]). vm_compute. reflexivity.
Qed.

(** C4, as stated, fails in both its parts. In one tick of
    [catch_up_store] the third firing, a catch-up firing of event 0, has
    the earliest bound 11.999 and the fourth, the first firing of event 1,
    has the bound 10.499. And event 1 of [tie_store], inserted with the key
    of the queued event 0, lands before it. *)
Lemma firing_order_and_stability_fail :
  ~ fires_by_earliest catch_up_store /\ ~ stable_insertion_at tie_store 1.
Proof.
  split; [|exact insertion_is_not_stable].
  intros H.
  assert (Hrun : exists b3 b4,
             firing_seen 8 3 catch_up_store = Some (0, b3)
             /\ firing_seen 8 4 catch_up_store = Some (1, b4)
             /\ js_leb b3 b4 = false).
  { eexists _, _. split; [vm_compute; reflexivity|].
    split; vm_compute; reflexivity. }
  destruct Hrun as (b3 & b4 & H3 & H4 & Hlt).
  rewrite (H 8 3 0 b3 1 b4 H3 H4) in Hlt. discriminate Hlt.
Qed.

(** C4, as the code has it. One tick of a running clock over a sorted queue
    without duplicates, whose due events are live and steady, returns with
    enough fuel, and the events that were due fire in the order of the
    queue, each in its turn: once, or several times in a row when it
    catches up. So the firings are in non-decreasing order of the earliest
    bound the events were queued with. And binary-search insertion of a
    live event with a numeric key into a sorted queue puts it after every
    entry with a strictly smaller key and before every entry with an equal
    or greater key, and leaves the queue sorted: among equal keys the
    newcomer is first in the queue, and so the first to fire. *)
Theorem events_fire_in_queue_order c now c0 e s :
  isRunning c = true ->
  context c = Some now ->
  NoDup (events c) ->
  queue_sorted (evheap c) (events c) ->
  (forall x, x ∈ events c -> due c x -> runnable c x) ->
  evheap c0 !! e = Some (Live s) ->
  queue_sorted (evheap c0) (events c0) ->
  toNumber (s_earliest s) <> NaN ->
  (exists dues rest,
      events c = dues ++ rest
      /\ Forall (due c) dues
      /\ Forall (future c) rest
      /\ exists fuel0, forall fuel, fuel0 <= fuel ->
           exists c' tr reps,
             tick inert fuel c = Ok tt c'
             /\ trace c' = trace c ++ tr
             /\ length reps = length dues
             /\ firing_sequence tr = in_turns dues reps
             /\ StronglySorted (by_earliest (evheap c)) (firing_sequence tr))
  /\ (exists c' before after,
        insertEvent e c0 = Ok true c'
        /\ evheap c' = evheap c0
        /\ events c0 = before ++ after
        /\ events c' = before ++ e :: after
        /\ Forall (fun x => Num.ltb (keyOf (evheap c0) x) (keyOf (evheap c0) e) = true)
                  before
        /\ Forall (fun x => Num.leb (keyOf (evheap c0) e) (keyOf (evheap c0) x) = true)
                  after
        /\ queue_sorted (evheap c') (events c')).
Proof.
  intros Hrun Hctx Hnd Hsorted Hready He Hsorted0 Hkey.
  split; [|exact (insertEvent_lower_bound c0 e s He Hsorted0 Hkey)].
  destruct (sorted_due_first _ _ now Hsorted) as (dues & rest & Hq & Hdues & Hrest).
  assert (Hnow : currentTime c = JNum (Fin now))
    by (unfold currentTime; rewrite Hctx; reflexivity).
  assert (Hd : Forall (due c) dues).
  { eapply Forall_impl; [exact Hdues|]. intros x Hx.
    unfold due, js_leb. rewrite Hnow. exact Hx. }
  assert (Hf : Forall (future c) rest).
  { eapply Forall_impl; [exact Hrest|]. intros x Hx.
    unfold future, js_ltb. rewrite Hnow. exact Hx. }
  exists dues, rest. split; [exact Hq|]. split; [exact Hd|]. split; [exact Hf|].
  destruct (drain_spec dues c rest now Hrun Hctx Hq) as (fuel0 & Hloop).
  - rewrite <- Hq. exact Hnd.
  - rewrite Forall_forall in Hd. apply Forall_forall. intros x Hx.
    split; [apply Hd; exact Hx|]. apply Hready; [|apply Hd; exact Hx].
    rewrite Hq. apply elem_of_app. left. exact Hx.
  - exact Hf.
  - exists fuel0. intros fuel Hfuel.
    destruct (Hloop fuel Hfuel) as (c' & Hrun' & tr & Htr & (reps & Hlen & Hturns) & _).
    exists c', tr, reps. rewrite (tick_drain inert fuel c now Hctx).
    split; [exact Hrun'|]. split; [exact Htr|]. split; [exact Hlen|].
    split; [exact Hturns|].
    rewrite Hturns. destruct Hsorted as [Hss Hnn]. rewrite Hq in Hss, Hnn.
    apply StronglySorted_app in Hss. destruct Hss as (_ & Hs1 & _).
    apply Forall_app in Hnn. destruct Hnn as [Hn1 _].
    apply in_turns_sorted; [exact Hs1|].
    intros x Hx. rewrite Forall_forall in Hn1. apply leb_refl, Hn1, Hx.
Qed.

Lemma events_fire_in_queue_order_witness :
  (exists dues rest,
      events catch_up_store = dues ++ rest
      /\ Forall (due catch_up_store) dues
      /\ Forall (future catch_up_store) rest
      /\ exists fuel0, forall fuel, fuel0 <= fuel ->
           exists c' tr reps,
             tick inert fuel catch_up_store = Ok tt c'
             /\ trace c' = trace catch_up_store ++ tr
             /\ length reps = length dues
             /\ firing_sequence tr = in_turns dues reps
             /\ StronglySorted (by_earliest (evheap catch_up_store))
                               (firing_sequence tr))
  /\ (exists c' before after,
        insertEvent 1 tie_store = Ok true c'
        /\ evheap c' = evheap tie_store
        /\ events tie_store = before ++ after
        /\ events c' = before ++ 1 :: after
        /\ Forall (fun x => Num.ltb (keyOf (evheap tie_store) x)
                                    (keyOf (evheap tie_store) 1) = true) before
        /\ Forall (fun x => Num.leb (keyOf (evheap tie_store) 1)
                                    (keyOf (evheap tie_store) x) = true) after
        /\ queue_sorted (evheap c') (events c')).
Proof.
  apply (events_fire_in_queue_order catch_up_store 12 tie_store 1
           (sample_self 12 1000 (JNum PInf) 0 None None None None)).
  - reflexivity.
  - reflexivity.
  - apply (bool_decide_unpack _). vm_compute. reflexivity.
  - split.
    + repeat constructor; vm_compute; reflexivity.
    + repeat constructor; vm_compute; intros H; discriminate H.
  - intros x Hx Hdue.
    change (events catch_up_store) with [0; 1] in Hx.
    apply elem_of_cons in Hx. destruct Hx as [->|Hx];
      [|apply elem_of_cons in Hx; destruct Hx as [->|Hx];
        [|apply not_elem_of_nil in Hx; contradiction]].
    + eexists. split; [vm_compute; reflexivity|].
      split; [reflexivity|]. split; [eexists; reflexivity|].
      split; [eexists; reflexivity|]. eexists. split; reflexivity.
    + eexists. split; [vm_compute; reflexivity|].
      split; [reflexivity|]. split; [eexists; reflexivity|].
      split; [eexists; reflexivity|]. eexists. split; reflexivity.
  - vm_compute. reflexivity.
  - split.
    + repeat constructor.
    + repeat constructor. vm_compute. discriminate.
  - vm_compute. discriminate.
Defined.
(** ** The identifier manager *)

(** [NoDup] of a list that computes. *)
Ltac distinct_concrete :=
  vm_compute; compute_done.

Lemma generateUIDFor_eq e c :
  generateUIDFor e c =
  Ok (next_uid c)
     (set_uidmap
        ((if map_has e (uidmap c) then map_delete e (uidmap c) else uidmap c)
           ++ [(e, next_uid c)])
        (set_next_uid (S (next_uid c)) c)).
Proof. reflexivity. Qed.

Lemma map_has_elem e m : map_has e m = true <-> e ∈ (fst <$> m).
Proof.
  induction m as [|[k v] m IH]; simpl.
  - split; [discriminate | intros H; inversion H].
  - rewrite orb_true_iff, IH, elem_of_cons, Nat.eqb_eq. split; intros [H|H]; auto.
Qed.

Lemma map_has_false e m : map_has e m = false <-> e ∉ (fst <$> m).
Proof.
  rewrite <- map_has_elem. destruct (map_has e m); split; congruence.
Qed.

Lemma keys_map_delete e m :
  fst <$> map_delete e m = List.filter (fun k => negb (Nat.eqb k e)) (fst <$> m).
Proof.
  induction m as [|[k v] m IH]; simpl; [reflexivity|].
  destruct (Nat.eqb k e); simpl; [assumption | f_equal; assumption].
Qed.

Lemma filter_ne_notin e (l : list nat) :
  e ∉ l -> List.filter (fun k => negb (Nat.eqb k e)) l = l.
Proof.
  induction l as [|k l IH]; simpl; intros H; [reflexivity|].
  apply not_elem_of_cons in H. destruct H as [Hne Hl].
  destruct (Nat.eqb_spec k e); [congruence|]. simpl. f_equal. auto.
Qed.

Lemma elem_of_filter_ne e (l : list nat) x :
  x ∈ List.filter (fun k => negb (Nat.eqb k e)) l <-> x ∈ l /\ x <> e.
Proof.
  induction l as [|k l IH]; simpl.
  - split; [intros H; inversion H | intros [H _]; inversion H].
  - destruct (Nat.eqb_spec k e); simpl.
    + rewrite IH, elem_of_cons. split; [tauto|]. intros [[->|H] Hne]; [congruence|tauto].
    + rewrite !elem_of_cons, IH. split; [|tauto].
      intros [->|[H Hne]]; tauto.
Qed.

Lemma NoDup_filter_ne e (l : list nat) :
  NoDup l -> NoDup (List.filter (fun k => negb (Nat.eqb k e)) l).
Proof.
  induction 1 as [|k l Hk Hl IH]; simpl; [constructor|].
  destruct (Nat.eqb k e); simpl; [assumption|].
  constructor; [|assumption]. rewrite elem_of_filter_ne. tauto.
Qed.

(** The keys after [generateUIDFor]: the target is taken out and put last. *)
Lemma keys_generated e m u :
  fst <$> ((if map_has e m then map_delete e m else m) ++ [(e, u)])
  = List.filter (fun k => negb (Nat.eqb k e)) (fst <$> m) ++ [e].
Proof.
  rewrite fmap_app. simpl. f_equal.
  destruct (map_has e m) eqn:E.
  - apply keys_map_delete.
  - symmetry. apply filter_ne_notin. apply map_has_false. assumption.
Qed.

Lemma map_get_app_l x m m' :
  x ∈ (fst <$> m) -> map_get x (m ++ m') = map_get x m.
Proof.
  unfold map_get. induction m as [|[k v] m IH]; simpl; intros H.
  - inversion H.
  - destruct (Nat.eqb_spec k x); [reflexivity|].
    apply IH. apply elem_of_cons in H. destruct H; [congruence | assumption].
Qed.

Lemma map_get_app_r x m m' :
  x ∉ (fst <$> m) -> map_get x (m ++ m') = map_get x m'.
Proof.
  unfold map_get. induction m as [|[k v] m IH]; simpl; intros H; [reflexivity|].
  apply not_elem_of_cons in H. destruct H as [Hne Hl].
  destruct (Nat.eqb_spec k x); [congruence|]. auto.
Qed.

Lemma map_get_None x m : x ∉ (fst <$> m) -> map_get x m = None.
Proof.
  unfold map_get. induction m as [|[k v] m IH]; simpl; intros H; [reflexivity|].
  apply not_elem_of_cons in H. destruct H as [Hne Hl].
  destruct (Nat.eqb_spec k x); [congruence|]. auto.
Qed.

Lemma map_get_delete_ne x e m : x <> e -> map_get x (map_delete e m) = map_get x m.
Proof.
  intros Hne. unfold map_get. induction m as [|[k v] m IH]; simpl; [reflexivity|].
  destruct (Nat.eqb_spec k e) as [->|Hk]; simpl.
  - destruct (Nat.eqb_spec e x); [congruence | assumption].
  - destruct (Nat.eqb_spec k x); [reflexivity | assumption].
Qed.

Lemma notin_map_delete e m : e ∉ (fst <$> map_delete e m).
Proof. rewrite keys_map_delete, elem_of_filter_ne. tauto. Qed.

Lemma map_get_elem e u m : map_get e m = Some u -> (e, u) ∈ m.
Proof.
  unfold map_get. induction m as [|[k v] m IH]; simpl; [discriminate|].
  destruct (Nat.eqb_spec k e) as [->|Hk]; simpl.
  - intros [= ->]. left.
  - intros H. right. auto.
Qed.

Lemma map_key_of_elem e u m : map_key_of u m = Some e -> (e, u) ∈ m.
Proof.
  unfold map_key_of. induction m as [|[k v] m IH]; simpl; [discriminate|].
  destruct (Nat.eqb_spec v u) as [->|Hv]; simpl.
  - intros [= ->]. left.
  - intros H. right. auto.
Qed.

(** With distinct values, the entry of a value is found by its value. *)
Lemma map_key_of_unique e u m :
  NoDup (snd <$> m) -> (e, u) ∈ m -> map_key_of u m = Some e.
Proof.
  unfold map_key_of. induction m as [|[k v] m IH]; simpl; intros Hnd Hin.
  - inversion Hin.
  - apply NoDup_cons in Hnd. destruct Hnd as [Hv Hnd].
    apply elem_of_cons in Hin.
    destruct (Nat.eqb_spec v u) as [->|Hne]; simpl.
    + destruct Hin as [[= -> ]|Hin]; [reflexivity|].
      exfalso. apply Hv. apply (list_elem_of_fmap_2 snd) in Hin. exact Hin.
    + destruct Hin as [[= -> ->]|Hin]; [congruence|]. auto.
Qed.

(** With distinct keys, the entry of a key is found by its key. *)
Lemma map_get_unique e u m :
  NoDup (fst <$> m) -> (e, u) ∈ m -> map_get e m = Some u.
Proof.
  unfold map_get. induction m as [|[k v] m IH]; simpl; intros Hnd Hin.
  - inversion Hin.
  - apply NoDup_cons in Hnd. destruct Hnd as [Hk Hnd].
    apply elem_of_cons in Hin.
    destruct (Nat.eqb_spec k e) as [->|Hne]; simpl.
    + destruct Hin as [[= -> ]|Hin]; [reflexivity|].
      exfalso. apply Hk. apply (list_elem_of_fmap_2 fst) in Hin. exact Hin.
    + destruct Hin as [[= -> ->]|Hin]; [congruence|]. auto.
Qed.

Lemma map_key_of_None u m : u ∉ (snd <$> m) -> map_key_of u m = None.
Proof.
  unfold map_key_of. induction m as [|[k v] m IH]; simpl; intros H; [reflexivity|].
  apply not_elem_of_cons in H. destruct H as [Hne Hl].
  destruct (Nat.eqb_spec v u); [congruence|]. auto.
Qed.

(** X1. [generateUIDFor] then [getUIDFor]: the target reads the identifier
    that was just returned, and every other target reads what it read
    before; the queue and the events are not touched. *)
Theorem generateUIDFor_then_getUIDFor e c :
  exists uid c',
    generateUIDFor e c = Ok uid c'
    /\ getUIDFor e c' = Ok (Some uid) c'
    /\ (forall x, x <> e -> getUIDFor x c' = Ok (map_get x (uidmap c)) c')
    /\ events c' = events c
    /\ evheap c' = evheap c.
Proof.
  rewrite generateUIDFor_eq. eexists _, _. split; [reflexivity|].
  unfold getUIDFor. st_simpl.
  assert (Hnot : e ∉ (fst <$> (if map_has e (uidmap c)
                               then map_delete e (uidmap c) else uidmap c))).
  { destruct (map_has e (uidmap c)) eqn:E.
    - apply notin_map_delete.
    - apply map_has_false. assumption. }
  split; [|split; [|split; reflexivity]].
  - rewrite map_get_app_r by assumption. unfold map_get. simpl.
    rewrite Nat.eqb_refl. reflexivity.
  - intros x Hx. f_equal.
    destruct (decide (x ∈ (fst <$> uidmap c))) as [Hin|Hout].
    + assert (Hin' : x ∈ (fst <$> (if map_has e (uidmap c)
                                   then map_delete e (uidmap c) else uidmap c))).
      { destruct (map_has e (uidmap c)); [|assumption].
        rewrite keys_map_delete, elem_of_filter_ne. tauto. }
      rewrite map_get_app_l by assumption.
      destruct (map_has e (uidmap c)); [|reflexivity].
      apply map_get_delete_ne. assumption.
    + assert (Hout' : x ∉ (fst <$> (if map_has e (uidmap c)
                                    then map_delete e (uidmap c) else uidmap c))).
      { destruct (map_has e (uidmap c)); [|assumption].
        rewrite keys_map_delete, elem_of_filter_ne. tauto. }
      rewrite map_get_app_r by assumption.
      rewrite (map_get_None x (uidmap c)) by assumption.
      unfold map_get. simpl. destruct (Nat.eqb_spec e x); [congruence | reflexivity].
Qed.

(** X2. The manager keeps one entry for a target: [generateUIDFor] on a
    map with distinct keys leaves the keys distinct, and the target, new
    or not, becomes the last key in the order of enumeration while the
    other keys keep their order. *)
Theorem generateUIDFor_moves_key_last e c :
  NoDup (fst <$> uidmap c) ->
  exists uid c',
    generateUIDFor e c = Ok uid c'
    /\ keys c' =
       Ok (List.filter (fun k => negb (Nat.eqb k e)) (fst <$> uidmap c) ++ [e]) c'
    /\ NoDup (fst <$> uidmap c').
Proof.
  intros Hnd. rewrite generateUIDFor_eq. eexists _, _. split; [reflexivity|].
  unfold keys. st_simpl. rewrite keys_generated. split; [reflexivity|].
  apply NoDup_app. split; [apply NoDup_filter_ne; assumption|]. split.
  - intros x Hx Hx'. apply elem_of_filter_ne in Hx.
    apply list_elem_of_singleton in Hx'. tauto.
  - apply NoDup_singleton.
Qed.

Lemma generateUIDFor_moves_key_last_witness :
  exists uid c',
    generateUIDFor 0 tick_store = Ok uid c'
    /\ keys c' =
       Ok (List.filter (fun k => negb (Nat.eqb k 0)) (fst <$> uidmap tick_store)
             ++ [0]) c'
    /\ NoDup (fst <$> uidmap c').
Proof.
  apply (generateUIDFor_moves_key_last 0 tick_store).
  distinct_concrete.
Defined.

(** X3. With distinct keys and distinct identifiers, [getKeyFor] is the
    inverse of [getUIDFor]: a target has an identifier exactly when the
    identifier leads back to the target. An identifier the map does not
    hold leads to [undefined]. *)
Theorem getKeyFor_inverts_getUIDFor c e u :
  NoDup (fst <$> uidmap c) ->
  NoDup (snd <$> uidmap c) ->
  (getUIDFor e c = Ok (Some u) c <-> getKeyFor u c = Ok (Some e) c)
  /\ (u ∉ (snd <$> uidmap c) -> getKeyFor u c = Ok None c).
Proof.
  intros Hk Hv. unfold getUIDFor, getKeyFor. split; [split|].
  - intros [= H]. f_equal. apply map_key_of_unique; [assumption|].
    apply map_get_elem. assumption.
  - intros [= H]. do 2 f_equal. apply map_get_unique; [assumption|].
    apply map_key_of_elem. assumption.
  - intros H. rewrite map_key_of_None by assumption. reflexivity.
Qed.

Lemma getKeyFor_inverts_getUIDFor_witness :
  (getUIDFor 1 tick_store = Ok (Some 1) tick_store
   <-> getKeyFor 1 tick_store = Ok (Some 1) tick_store)
  /\ (1 ∉ (snd <$> uidmap tick_store) -> getKeyFor 1 tick_store = Ok None tick_store).
Proof.
  apply (getKeyFor_inverts_getUIDFor tick_store 1 1).
  - distinct_concrete.
  - distinct_concrete.
Defined.

(** X4. With distinct identifiers, deleting by identifier is deleting by
    target: [deleteUID] with the identifier of a target does what
    [deleteUIDFor] does with the target, after which the target has no
    identifier. With an identifier the map does not hold it does nothing. *)
Theorem deleteUID_is_deleteUIDFor c e u :
  NoDup (snd <$> uidmap c) ->
  getUIDFor e c = Ok (Some u) c ->
  exists c',
    deleteUID u c = Ok tt c'
    /\ deleteUIDFor e c = Ok tt c'
    /\ hasUIDFor e c' = Ok false c'
    /\ (forall u', u' ∉ (snd <$> uidmap c) -> deleteUID u' c = Ok tt c).
Proof.
  intros Hv [= H]. pose proof (map_get_elem _ _ _ H) as Hin.
  unfold deleteUID, deleteUIDFor, modify, hasUIDFor.
  rewrite (map_key_of_unique e u) by assumption.
  assert (Hhas : map_has e (uidmap c) = true).
  { apply map_has_elem. apply (list_elem_of_fmap_2 fst) in Hin. exact Hin. }
  rewrite Hhas. eexists. split; [reflexivity|]. split; [reflexivity|]. split.
  - st_simpl. f_equal. apply map_has_false. apply notin_map_delete.
  - intros u' Hu'. rewrite map_key_of_None by assumption. reflexivity.
Qed.

Lemma deleteUID_is_deleteUIDFor_witness :
  exists c',
    deleteUID 2 tick_store = Ok tt c'
    /\ deleteUIDFor 2 tick_store = Ok tt c'
    /\ hasUIDFor 2 c' = Ok false c'
    /\ (forall u', u' ∉ (snd <$> uidmap tick_store) ->
        deleteUID u' tick_store = Ok tt tick_store).
Proof.
  apply (deleteUID_is_deleteUIDFor tick_store 2 2).
  - distinct_concrete.
  - reflexivity.
Defined.
(** ** The queue *)

Lemma remove_first_NoDup e q :
  NoDup q -> NoDup (remove_first e q) /\ (e ∉ remove_first e q).
Proof.
  induction 1 as [|x q Hx Hq IH]; simpl.
  - split; [constructor | apply not_elem_of_nil].
  - destruct (Nat.eqb_spec x e) as [->|Hne].
    + split; assumption.
    + destruct IH as [IH1 IH2]. split.
      * constructor; [|assumption]. intros Hin. apply Hx.
        eapply remove_first_subset. exact Hin.
      * apply not_elem_of_cons. split; [congruence | assumption].
Qed.

Lemma remove_first_filter e q :
  NoDup q -> remove_first e q = List.filter (fun k => negb (Nat.eqb k e)) q.
Proof.
  induction 1 as [|x q Hx Hq IH]; simpl; [reflexivity|].
  destruct (Nat.eqb_spec x e) as [->|Hne]; simpl.
  - symmetry. apply filter_ne_notin. assumption.
  - f_equal. assumption.
Qed.

Lemma queue_sorted_remove h e q : queue_sorted h q -> queue_sorted h (remove_first e q).
Proof.
  intros [Hs Hn]. induction q as [|x q IH]; simpl; [split; assumption|].
  apply StronglySorted_inv in Hs. destruct Hs as [Hs Hx].
  inversion Hn as [|? ? Hnx Hnq]; subst.
  destruct (Nat.eqb x e); [split; assumption|].
  destruct (IH Hs Hnq) as [IH1 IH2]. split.
  - constructor; [assumption|]. rewrite Forall_forall in Hx. apply Forall_forall.
    intros y Hy. apply Hx. eapply remove_first_subset. exact Hy.
  - constructor; assumption.
Qed.

(** The order of a queue depends on the keys of its entries alone. *)
Lemma queue_sorted_heap h h' q :
  (forall x, x ∈ q -> keyOf h' x = keyOf h x) ->
  queue_sorted h q -> queue_sorted h' q.
Proof.
  intros Hk [Hs Hn]. split.
  - clear Hn. induction q as [|x q IH]; [constructor|].
    apply StronglySorted_inv in Hs. destruct Hs as [Hs Hx].
    constructor.
    + apply IH; [|assumption]. intros y Hy. apply Hk. right. assumption.
    + rewrite Forall_forall in Hx. apply Forall_forall. intros y Hy.
      rewrite (Hk x) by left. rewrite (Hk y) by (right; assumption). auto.
  - rewrite Forall_forall in Hn. apply Forall_forall. intros x Hx.
    rewrite (Hk x Hx). auto.
Qed.

Lemma keyOf_insert_ne h e o x : x <> e -> keyOf (<[e := o]> h) x = keyOf h x.
Proof. intros H. unfold keyOf. rewrite earliestOf_ne by assumption. reflexivity. Qed.

(** Insertion by binary search into a sorted queue, on lists. *)
Lemma splice_sorted h q e s :
  h !! e = Some (Live s) ->
  toNumber (s_earliest s) <> NaN ->
  queue_sorted h q ->
  exists before after,
    q = before ++ after
    /\ splice_in (indexByTime h q (s_earliest s)) e q = before ++ e :: after
    /\ queue_sorted h (before ++ e :: after).
Proof.
  intros He Hk Hs.
  destruct (sorted_partition _ _ _ Hs Hk) as (before & after & Hq & Hb & Ha).
  pose proof (keyOf_live _ _ _ He) as Hkey.
  assert (Hidx : indexByTime h q (s_earliest s) = length before).
  { rewrite Hq. apply indexByTime_partition.
    - eapply Forall_impl; [exact Hb|]. intros x Hx. exact Hx.
    - eapply Forall_impl; [exact Ha|]. intros x Hx.
      unfold js_ltb. fold (keyOf h x).
      destruct (Num.ltb (keyOf h x) (toNumber (s_earliest s))) eqn:E; [|reflexivity].
      apply ltb_leb_excl in E. congruence. }
  exists before, after. split; [assumption|]. split.
  - rewrite Hidx, Hq. apply splice_in_app.
  - destruct Hs as [Hss Hnn]. rewrite Hq in Hss, Hnn.
    apply StronglySorted_app in Hss. destruct Hss as (Hcross & Hs1 & Hs2).
    apply Forall_app in Hnn. destruct Hnn as [Hn1 Hn2].
    split.
    + apply StronglySorted_app. split; [|split; [assumption|]].
      * intros x1 x2 H1 H2. rewrite Forall_forall in Hb.
        apply elem_of_cons in H2. destruct H2 as [->|H2].
        -- rewrite Hkey. apply ltb_leb. apply Hb. assumption.
        -- apply Hcross; assumption.
      * constructor; [assumption|].
        eapply Forall_impl; [exact Ha|]. intros x Hx. rewrite Hkey. exact Hx.
    + apply Forall_app. split; [assumption|].
      constructor; [rewrite Hkey; assumption | assumption].
Qed.

(** Against a deadline that is [NaN] no entry is early: the search ends
    at the head. *)
Lemma indexByTime_NaN h q d : toNumber d = NaN -> indexByTime h q d = 0.
Proof.
  intros Hd. apply (indexByTime_partition h [] q d); [constructor|].
  apply Forall_forall. intros x _. unfold js_ltb. rewrite Hd.
  destruct (toNumber (earliestOf h x)); reflexivity.
Qed.

Lemma uidmap_registered_has e c : map_has e (uidmap (registered e c)) = true.
Proof.
  unfold registered. destruct (map_has e (uidmap c)) eqn:E; [assumption|].
  st_simpl. apply map_has_elem. rewrite fmap_app. simpl.
  apply elem_of_app. right. left.
Qed.

Lemma uidmap_registered_get e c x :
  x ∈ (fst <$> uidmap c) ->
  map_get x (uidmap (registered e c)) = map_get x (uidmap c).
Proof.
  intros Hx. unfold registered. destruct (map_has e (uidmap c)); [reflexivity|].
  st_simpl. apply map_get_app_l. assumption.
Qed.

(** X5. [removeEvent] on a sorted queue without duplicates answers [true]
    and takes out the event and nothing else: the other entries keep their
    order, the queue stays sorted, and neither the events nor the
    identifiers change. *)
Theorem removeEvent_keeps_the_order c e :
  NoDup (events c) ->
  queue_sorted (evheap c) (events c) ->
  exists c',
    removeEvent e c = Ok true c'
    /\ events c' = List.filter (fun k => negb (Nat.eqb k e)) (events c)
    /\ (e ∉ events c')
    /\ NoDup (events c')
    /\ queue_sorted (evheap c') (events c')
    /\ evheap c' = evheap c
    /\ uidmap c' = uidmap c.
Proof.
  intros Hnd Hs. rewrite removeEvent_eq.
  destruct (remove_first_NoDup e _ Hnd) as [Hnd' Hout].
  apply inQueue_false in Hout as Hq. rewrite Hq. eexists. split; [reflexivity|].
  st_simpl. split; [apply remove_first_filter; assumption|].
  split; [assumption|]. split; [assumption|].
  split; [apply queue_sorted_remove; assumption|]. split; reflexivity.
Qed.

Lemma removeEvent_keeps_the_order_witness :
  exists c',
    removeEvent 1 tick_store = Ok true c'
    /\ events c' = List.filter (fun k => negb (Nat.eqb k 1)) (events tick_store)
    /\ (1 ∉ events c')
    /\ NoDup (events c')
    /\ queue_sorted (evheap c') (events c')
    /\ evheap c' = evheap tick_store
    /\ uidmap c' = uidmap tick_store.
Proof.
  apply (removeEvent_keeps_the_order tick_store 1).
  - distinct_concrete.
  - split.
    + repeat constructor.
    + repeat constructor; vm_compute; discriminate.
Defined.

(** X6. [insertEvent] of a live event, whatever the order of the queue and
    whatever the deadline: the answer is [true], the event is put at one
    place of the queue and every other entry keeps its place relative to
    the others; the event has an identifier afterwards, the one it had if
    it had one, and no other target changes its identifier. *)
Theorem insertEvent_keeps_the_entries c e s :
  evheap c !! e = Some (Live s) ->
  exists c' before after,
    insertEvent e c = Ok true c'
    /\ events c = before ++ after
    /\ events c' = before ++ e :: after
    /\ hasUIDFor e c' = Ok true c'
    /\ (forall x, x ∈ (fst <$> uidmap c) ->
        getUIDFor x c' = Ok (map_get x (uidmap c)) c')
    /\ evheap c' = evheap c.
Proof.
  intros He. rewrite (insertEvent_live e s) by assumption.
  set (i := indexByTime (evheap c) (events c) (s_earliest s)).
  exists (inserted e s c), (take i (events c)), (drop i (events c)).
  split; [reflexivity|]. split; [symmetry; apply take_drop|].
  unfold inserted. fold i. split; [rewrite events_registered; reflexivity|].
  unfold hasUIDFor, getUIDFor. split; [rewrite uidmap_registered_has; reflexivity|].
  split; [|rewrite evheap_registered; reflexivity].
  intros x Hx. rewrite uidmap_registered_get by assumption. reflexivity.
Qed.

Lemma insertEvent_keeps_the_entries_witness :
  exists c' before after,
    insertEvent 1 tie_store = Ok true c'
    /\ events tie_store = before ++ after
    /\ events c' = before ++ 1 :: after
    /\ hasUIDFor 1 c' = Ok true c'
    /\ (forall x, x ∈ (fst <$> uidmap tie_store) ->
        getUIDFor x c' = Ok (map_get x (uidmap tie_store)) c')
    /\ evheap c' = evheap tie_store.
Proof.
  apply (insertEvent_keeps_the_entries tie_store 1
           (sample_self 12 1000 (JNum PInf) 0 None None None None)).
  vm_compute. reflexivity.
Defined.

(** X7. An event whose [earliest] bound is [NaN] goes to the head of the
    queue, before every queued event, and is never due: from then on a
    tick returns at once and fires nothing, whatever stands behind it. *)
Theorem nan_deadline_blocks_the_queue c e s now :
  evheap c !! e = Some (Live s) ->
  toNumber (s_earliest s) = NaN ->
  context c = Some now ->
  exists c',
    insertEvent e c = Ok true c'
    /\ events c' = e :: events c
    /\ (forall run_cb fuel, tick run_cb (S fuel) c' = Ok tt c').
Proof.
  intros He Hk Hc. rewrite (insertEvent_live e s) by assumption.
  exists (inserted e s c). split; [reflexivity|].
  assert (Hev : events (inserted e s c) = e :: events c).
  { unfold inserted. rewrite events_registered. st_simpl.
    rewrite indexByTime_NaN by assumption. reflexivity. }
  split; [assumption|]. intros run_cb fuel.
  destruct (frame_registered e
              (set_events (splice_in (indexByTime (evheap c) (events c) (s_earliest s))
                                     e (events c)) c))
    as (_ & _ & _ & (Hctx & _ & _) & _).
  assert (Hctx' : context (inserted e s c) = Some now).
  { unfold inserted. rewrite Hctx. exact Hc. }
  rewrite (tick_drain _ _ _ now) by assumption.
  apply (drain_future _ _ _ e (events c)); [assumption|].
  unfold inserted. rewrite evheap_registered. st_simpl.
  unfold earliestOf. rewrite He. unfold js_leb. rewrite Hk. reflexivity.
Qed.

Lemma nan_deadline_blocks_the_queue_witness :
  exists c',
    insertEvent 3 lost_store = Ok true c'
    /\ events c' = 3 :: events lost_store
    /\ (forall run_cb fuel, tick run_cb (S fuel) c' = Ok tt c').
Proof.
  apply (nan_deadline_blocks_the_queue lost_store 3 lost_self 12).
  - vm_compute. reflexivity.
  - reflexivity.
  - reflexivity.
Defined.
(** ** The methods of an event *)

Lemma elem_of_remove_first_ne e q x : x <> e -> (x ∈ remove_first e q <-> x ∈ q).
Proof.
  intros Hne. split; [apply remove_first_subset|].
  intros H. apply remove_first_other; assumption.
Qed.

(** Taking an event out of the queue and replacing its [self]. *)
Lemma well_queued_taken_out e s' c :
  well_queued c ->
  let c' := put_self e s' (set_events (remove_first e (events c)) c) in
  well_queued c' /\ (e ∉ events c') /\ others_kept e c c'.
Proof.
  intros [Hnd Hs] c'. destruct (remove_first_NoDup e _ Hnd) as [Hnd' Hout].
  subst c'. unfold well_queued, others_kept, put_self. st_simpl.
  split; [split; [assumption|]|split; [assumption|]].
  - apply (queue_sorted_heap (evheap c)).
    + intros x Hx. apply keyOf_insert_ne. intros ->. contradiction.
    + apply queue_sorted_remove. assumption.
  - intros x Hne. split; [apply elem_of_remove_first_ne; assumption|].
    apply lookup_insert_ne. congruence.
Qed.

(** Putting an event, with its new [self], back where it belongs. *)
Lemma well_queued_put_back e s' c :
  well_queued c ->
  toNumber (s_earliest s') <> NaN ->
  let c' := requeued e s' (put_self e s' c) in
  well_queued c'
  /\ e ∈ events c'
  /\ others_kept e c c'
  /\ evheap c' = <[e := Live s']> (evheap c)
  /\ trace c' = trace c
  /\ same_clock c c'.
Proof.
  intros Hw Hk c'.
  destruct (well_queued_taken_out e s' c Hw) as ([Hnd Hs] & Hout & Hkept).
  unfold others_kept, put_self in Hnd, Hs, Hout, Hkept. st_simpl.
  assert (He : <[e := Live s']> (evheap c) !! e = Some (Live s'))
    by apply lookup_insert_eq.
  destruct (splice_sorted _ _ e s' He Hk Hs) as (before & after & Hq & Hsp & Hsorted).
  assert (Hev : events c' = before ++ e :: after).
  { subst c'. rewrite events_requeued. unfold put_self. st_simpl. exact Hsp. }
  assert (Hh : evheap c' = <[e := Live s']> (evheap c)).
  { subst c'. rewrite evheap_requeued. reflexivity. }
  destruct (frame_requeued e s' (put_self e s' c)) as (Htr & _ & _ & Hclock & _).
  split; [split|].
  - rewrite Hev. rewrite Hq in Hnd, Hout.
    apply NoDup_app in Hnd. destruct Hnd as (H1 & H2 & H3).
    apply NoDup_app. split; [assumption|]. split.
    + intros x Hx Hx'. apply elem_of_cons in Hx'. destruct Hx' as [->|Hx'].
      * apply Hout. apply elem_of_app. left. assumption.
      * apply (H2 x); assumption.
    + constructor; [|assumption]. intros Hin. apply Hout.
      apply elem_of_app. right. assumption.
  - rewrite Hh, Hev. assumption.
  - split; [rewrite Hev; apply elem_of_app; right; left|].
    split; [|split; [assumption|split]].
    + intros x Hne. destruct (Hkept x Hne) as [Hin Hlk]. split.
      * rewrite Hev. etransitivity; [|exact Hin]. rewrite Hq.
        rewrite !elem_of_app, elem_of_cons. tauto.
      * rewrite Hh. assumption.
    + exact Htr.
    + exact Hclock.
Qed.

(** [schedule] of an event when it does not execute: the deadlines are
    set and the event is put in the queue. *)
Lemma ev_schedule_with_requeues exec e deadline sync c s :
  evheap c !! e = Some (Live s) ->
  sync || negb (js_geb (currentTime c) (s_earliest (rescheduled deadline s))) = true ->
  ev_schedule_with exec e deadline sync c =
  Ok tt (requeued e (rescheduled deadline s) (put_self e (rescheduled deadline s) c)).
Proof.
  intros He Hq. rewrite (ev_schedule_with_eq _ _ _ _ _ s) by assumption.
  cbv zeta. rewrite Hq. apply requeue_live. apply evheap_put_self.
Qed.

Lemma self_of_put_back e s' c :
  self_of (requeued e s' (put_self e s' c)) e = Some s'.
Proof. unfold self_of. rewrite evheap_requeued, evheap_put_self. reflexivity. Qed.

(** X8. [suspend] takes a live event out of the queue and keeps it under
    management: the event is marked suspended, [getEvents] still lists it
    and it keeps its identifier, [hasEvent] answers [false] for the event and for
    its identifier, the rest of the queue is as it was and still in order,
    and [execute] on the suspended event does nothing. *)
Theorem suspend_keeps_the_event_managed run_cb fuel c e s :
  evheap c !! e = Some (Live s) ->
  well_queued c ->
  exists c',
    clock_suspend (One e) c = Ok tt c'
    /\ self_of c' e = Some (with_suspended true s)
    /\ getEvents c' = Ok (fst <$> uidmap c) c'
    /\ (forall x, getUIDFor x c' = Ok (map_get x (uidmap c)) c')
    /\ clock_hasEvent (ByEvent e) c' = Ok false c'
    /\ (forall u, getKeyFor u c = Ok (Some e) c ->
        clock_hasEvent (ByUid u) c' = Ok false c')
    /\ well_queued c'
    /\ others_kept e c c'
    /\ trace c' = trace c
    /\ ev_execute run_cb (S fuel) e c' = Ok tt c'.
Proof.
  intros He Hw.
  destruct (well_queued_taken_out e (with_suspended true s) c Hw)
    as (Hw' & Hout & Hkept).
  exists (put_self e (with_suspended true s)
            (set_events (remove_first e (events c)) c)).
  split.
  { unfold clock_suspend, on_targets. rewrite (member_live _ _ _ _ s) by assumption.
    unfold ev_suspend. rewrite (unless_deleted_live _ _ _ _ He). reflexivity. }
  split; [unfold self_of; rewrite evheap_put_self; reflexivity|].
  split; [reflexivity|]. split; [reflexivity|].
  assert (Hq : inQueue e (remove_first e (events c)) = false)
    by (apply inQueue_false; exact Hout).
  split; [unfold clock_hasEvent, hasEvent, put_self; cbv beta; st_simpl;
          rewrite Hq; reflexivity|].
  split.
  { intros u [= Hu]. unfold clock_hasEvent, bind, getKeyFor, hasEvent, put_self.
    cbv beta. st_simpl. rewrite Hu. cbv beta iota. st_simpl. rewrite Hq. reflexivity. }
  split; [assumption|]. split; [assumption|]. split; [reflexivity|].
  cbn [ev_execute].
  rewrite (unless_deleted_live _ _ _ _ (evheap_put_self e _ _)).
  unfold bind, get. cbn [s_suspended with_suspended]. rewrite orb_true_r. reflexivity.
Qed.

Lemma suspend_keeps_the_event_managed_witness :
  exists c',
    clock_suspend (One 1) tick_store = Ok tt c'
    /\ self_of c' 1
       = Some (with_suspended true
                 (sample_self 12 500 (JNum (Fin 1)) 0 None (Some 8) None None))
    /\ getEvents c' = Ok (fst <$> uidmap tick_store) c'
    /\ (forall x, getUIDFor x c' = Ok (map_get x (uidmap tick_store)) c')
    /\ clock_hasEvent (ByEvent 1) c' = Ok false c'
    /\ (forall u, getKeyFor u tick_store = Ok (Some 1) tick_store ->
        clock_hasEvent (ByUid u) c' = Ok false c')
    /\ well_queued c'
    /\ others_kept 1 tick_store c'
    /\ trace c' = trace tick_store
    /\ ev_execute inert (S 0) 1 c' = Ok tt c'.
Proof.
  apply (suspend_keeps_the_event_managed inert 0 tick_store 1
           (sample_self 12 500 (JNum (Fin 1)) 0 None (Some 8) None None)).
  - vm_compute. reflexivity.
  - split; [distinct_concrete|]. split.
    + repeat constructor.
    + repeat constructor; vm_compute; discriminate.
Defined.

(** X9. [reschedule] with a deadline that is a number other than zero
    restarts a live event: the tick count is back to zero, the event is no
    longer suspended, its deadline is the one given, and it is in the
    queue, once, at the place of its new [earliest] bound. Nothing fires
    during the call, be the deadline long past. A deadline that is falsy
    ([undefined], zero, [NaN]) stands for the current time. *)
Theorem reschedule_restarts_the_event run_cb fuel c e s d t :
  evheap c !! e = Some (Live s) ->
  s_tol_early s = JNum (Fin t) ->
  ~ (d == 0)%Q ->
  well_queued c ->
  exists c' s',
    ev_reschedule run_cb fuel e (JNum (Fin d)) c = Ok tt c'
    /\ self_of c' e = Some s'
    /\ s_elapsedTickCount s' = 0
    /\ s_suspended s' = false
    /\ s_scheduled s' = JNum (Fin d)
    /\ s_earliest s' = JNum (Fin (d - t))
    /\ s_latest s' = js_add (JNum (Fin d)) (s_tol_late s)
    /\ s_repetitions s' = s_repetitions s
    /\ s_currentInterval s' = s_currentInterval s
    /\ e ∈ events c'
    /\ well_queued c'
    /\ others_kept e c c'
    /\ trace c' = trace c
    /\ (forall dl, Num.truthy (toNumber dl) = false ->
        ev_reschedule run_cb fuel e dl c
        = ev_reschedule run_cb fuel e (currentTime c) c).
Proof.
  intros He Ht Hd Hw.
  set (s0 := with_elapsedTickCount 0 s).
  set (s' := rescheduled (JNum (Fin d)) s0).
  assert (Hearly : s_earliest s' = JNum (Fin (d - t))).
  { subst s'. rewrite (earliest_rescheduled d t) by exact Ht. reflexivity. }
  assert (Hk : toNumber (s_earliest s') <> NaN) by (rewrite Hearly; discriminate).
  destruct (well_queued_put_back e s' c Hw Hk) as (Hw' & Hin & Hkept & Hh & Htr & _).
  exists (requeued e s' (put_self e s' c)), s'.
  split.
  { unfold ev_reschedule. rewrite (unless_deleted_live _ _ _ _ He).
    unfold bind at 1. unfold getCurrentTime. cbn [toNumber].
    rewrite (truthy_Fin d Hd). unfold bind at 1. rewrite set_self_eq.
    unfold ev_schedule.
    rewrite (ev_schedule_with_requeues _ _ _ _ _ s0)
      by (try apply evheap_put_self; reflexivity).
    rewrite put_self_put_self. reflexivity. }
  split; [apply self_of_put_back|].
  repeat (split; [first [reflexivity | assumption]|]).
  intros dl Hdl. unfold ev_reschedule.
  rewrite !(unless_deleted_live _ _ _ _ He).
  unfold bind at 1 3. unfold getCurrentTime. rewrite Hdl.
  destruct (Num.truthy (toNumber (currentTime c))); reflexivity.
Qed.

Lemma reschedule_restarts_the_event_witness :
  exists c' s',
    ev_reschedule inert 0 2 (JNum (Fin 5)) tick_store = Ok tt c'
    /\ self_of c' 2 = Some s'
    /\ s_elapsedTickCount s' = 0
    /\ s_suspended s' = false
    /\ s_scheduled s' = JNum (Fin 5)
    /\ s_earliest s' = JNum (Fin (5 - (1 # 1000)))
    /\ s_latest s'
       = js_add (JNum (Fin 5))
           (s_tol_late (sample_self 15 1000 (JNum PInf) 0 (Some 7) None None None))
    /\ s_repetitions s'
       = s_repetitions (sample_self 15 1000 (JNum PInf) 0 (Some 7) None None None)
    /\ s_currentInterval s'
       = s_currentInterval (sample_self 15 1000 (JNum PInf) 0 (Some 7) None None None)
    /\ 2 ∈ events c'
    /\ well_queued c'
    /\ others_kept 2 tick_store c'
    /\ trace c' = trace tick_store
    /\ (forall dl, Num.truthy (toNumber dl) = false ->
        ev_reschedule inert 0 2 dl tick_store
        = ev_reschedule inert 0 2 (currentTime tick_store) tick_store).
Proof.
  apply (reschedule_restarts_the_event inert 0 tick_store 2
           (sample_self 15 1000 (JNum PInf) 0 (Some 7) None None None) 5 (1 # 1000)).
  - vm_compute. reflexivity.
  - reflexivity.
  - intros H. vm_compute in H. discriminate.
  - split; [distinct_concrete|]. split.
    + repeat constructor.
    + repeat constructor; vm_compute; discriminate.
Defined.

(** X10. [sync] of an event queues it for the current time plus the
    delay, without firing it and without touching its tick count: the
    event is in the queue once, at the place of its new [earliest] bound,
    no longer suspended. Without a delay the delay is zero. *)
Theorem sync_requeues_without_firing run_cb fuel c e s now ms t :
  evheap c !! e = Some (Live s) ->
  context c = Some now ->
  s_tol_early s = JNum (Fin t) ->
  well_queued c ->
  exists c' s',
    ev_sync run_cb fuel e (JNum (Fin ms)) c = Ok tt c'
    /\ self_of c' e = Some s'
    /\ s_scheduled s' = JNum (Fin (now + ms / 1000))
    /\ s_earliest s' = JNum (Fin (now + ms / 1000 - t))
    /\ s_elapsedTickCount s' = s_elapsedTickCount s
    /\ s_suspended s' = false
    /\ e ∈ events c'
    /\ well_queued c'
    /\ others_kept e c c'
    /\ trace c' = trace c
    /\ ev_sync run_cb fuel e JUndef c = ev_sync run_cb fuel e (JNum (Fin 0)) c.
Proof.
  intros He Hc Ht Hw.
  set (s' := rescheduled (JNum (Fin (now + ms / 1000))) s).
  assert (Hearly : s_earliest s' = JNum (Fin (now + ms / 1000 - t))).
  { subst s'. rewrite (earliest_rescheduled _ t) by exact Ht. reflexivity. }
  assert (Hk : toNumber (s_earliest s') <> NaN) by (rewrite Hearly; discriminate).
  destruct (well_queued_put_back e s' c Hw Hk) as (Hw' & Hin & Hkept & Hh & Htr & _).
  exists (requeued e s' (put_self e s' c)), s'.
  split.
  { unfold ev_sync. rewrite (member_live _ _ _ _ s) by assumption.
    unfold bind at 1. unfold getCurrentTime, currentTime. rewrite Hc.
    unfold ev_schedule.
    rewrite (ev_schedule_with_requeues _ _ _ _ _ s) by (try assumption; reflexivity).
    reflexivity. }
  split; [apply self_of_put_back|].
  repeat (split; [first [reflexivity | assumption]|]).
  reflexivity.
Qed.

Lemma sync_requeues_without_firing_witness :
  exists c' s',
    ev_sync inert 0 0 (JNum (Fin 250)) tick_store = Ok tt c'
    /\ self_of c' 0 = Some s'
    /\ s_scheduled s' = JNum (Fin (12 + 250 / 1000))
    /\ s_earliest s' = JNum (Fin (12 + 250 / 1000 - (1 # 1000)))
    /\ s_elapsedTickCount s'
       = s_elapsedTickCount (sample_self 11 1000 (JNum PInf) 0 (Some 7) None None None)
    /\ s_suspended s' = false
    /\ 0 ∈ events c'
    /\ well_queued c'
    /\ others_kept 0 tick_store c'
    /\ trace c' = trace tick_store
    /\ ev_sync inert 0 0 JUndef tick_store
       = ev_sync inert 0 0 (JNum (Fin 0)) tick_store.
Proof.
  apply (sync_requeues_without_firing inert 0 tick_store 0
           (sample_self 11 1000 (JNum PInf) 0 (Some 7) None None None)
           12 250 (1 # 1000)).
  - vm_compute. reflexivity.
  - reflexivity.
  - reflexivity.
  - split; [distinct_concrete|]. split.
    + repeat constructor.
    + repeat constructor; vm_compute; discriminate.
Defined.

(** X11. [updateWithInterval] on an event that is in the queue sets the
    initial interval and the current interval (the new interval times the
    time stretch) and nothing else: the pending deadline, the queue and
    the trace are as they were. *)
Theorem updateWithInterval_keeps_the_pending_deadline run_cb fuel c e s ms :
  evheap c !! e = Some (Live s) ->
  e ∈ events c ->
  exists c' s',
    ev_updateWithInterval run_cb fuel e ms c = Ok tt c'
    /\ self_of c' e = Some s'
    /\ s_initialInterval s' = ms
    /\ s_currentInterval s' = js_mul ms (s_timeStretch s)
    /\ s_scheduled s' = s_scheduled s
    /\ s_earliest s' = s_earliest s
    /\ s_latest s' = s_latest s
    /\ s_elapsedTickCount s' = s_elapsedTickCount s
    /\ events c' = events c
    /\ trace c' = trace c
    /\ (forall x, x <> e -> evheap c' !! x = evheap c !! x).
Proof.
  intros He Hin. apply inQueue_true in Hin.
  set (s' := with_intervals ms (js_mul ms (s_timeStretch s)) s).
  exists (put_self e s' c), s'. split.
  { unfold ev_updateWithInterval. rewrite (unless_deleted_live _ _ _ _ He).
    unfold bind at 1. rewrite set_self_eq. unfold bind at 1. unfold hasEvent.
    change (events (put_self e _ c)) with (events c). rewrite Hin. reflexivity. }
  split; [unfold self_of; rewrite evheap_put_self; reflexivity|].
  repeat (split; [reflexivity|]).
  intros x Hx. unfold put_self. st_simpl. apply lookup_insert_ne. congruence.
Qed.

Lemma updateWithInterval_keeps_the_pending_deadline_witness :
  exists c' s',
    ev_updateWithInterval inert 0 2 (JNum (Fin 250)) tick_store = Ok tt c'
    /\ self_of c' 2 = Some s'
    /\ s_initialInterval s' = JNum (Fin 250)
    /\ s_currentInterval s'
       = js_mul (JNum (Fin 250))
           (s_timeStretch (sample_self 15 1000 (JNum PInf) 0 (Some 7) None None None))
    /\ s_scheduled s'
       = s_scheduled (sample_self 15 1000 (JNum PInf) 0 (Some 7) None None None)
    /\ s_earliest s'
       = s_earliest (sample_self 15 1000 (JNum PInf) 0 (Some 7) None None None)
    /\ s_latest s'
       = s_latest (sample_self 15 1000 (JNum PInf) 0 (Some 7) None None None)
    /\ s_elapsedTickCount s'
       = s_elapsedTickCount (sample_self 15 1000 (JNum PInf) 0 (Some 7) None None None)
    /\ events c' = events tick_store
    /\ trace c' = trace tick_store
    /\ (forall x, x <> 2 -> evheap c' !! x = evheap tick_store !! x).
Proof.
  apply (updateWithInterval_keeps_the_pending_deadline inert 0 tick_store 2
           (sample_self 15 1000 (JNum PInf) 0 (Some 7) None None None)).
  - vm_compute. reflexivity.
  - apply inQueue_true. reflexivity.
Defined.

(** X12. [updateWithInterval] on a live event that is not in the queue,
    a suspended one for instance, schedules it: when the deadline it had
    plus the new current interval is still ahead, the event is put in the
    queue for that time and is no longer suspended. *)
Theorem updateWithInterval_resumes_an_idle_event run_cb fuel c e s now d r t ms :
  evheap c !! e = Some (Live s) ->
  e ∉ events c ->
  context c = Some now ->
  s_scheduled s = JNum (Fin d) ->
  s_timeStretch s = JNum (Fin r) ->
  s_tol_early s = JNum (Fin t) ->
  (now < d + ms * r / 1000 - t)%Q ->
  well_queued c ->
  exists c' s',
    ev_updateWithInterval run_cb fuel e (JNum (Fin ms)) c = Ok tt c'
    /\ self_of c' e = Some s'
    /\ s_suspended s' = false
    /\ s_initialInterval s' = JNum (Fin ms)
    /\ s_currentInterval s' = JNum (Fin (ms * r))
    /\ s_scheduled s' = JNum (Fin (d + ms * r / 1000))
    /\ s_elapsedTickCount s' = s_elapsedTickCount s
    /\ e ∈ events c'
    /\ well_queued c'
    /\ others_kept e c c'
    /\ trace c' = trace c.
Proof.
  intros He Hout Hc Hd Hr Ht Hlt Hw. apply inQueue_false in Hout.
  set (s0 := with_intervals (JNum (Fin ms)) (JNum (Fin (ms * r))) s).
  set (s' := rescheduled (JNum (Fin (d + ms * r / 1000))) s0).
  assert (Hearly : s_earliest s' = JNum (Fin (d + ms * r / 1000 - t))).
  { subst s'. rewrite (earliest_rescheduled _ t) by exact Ht. reflexivity. }
  assert (Hk : toNumber (s_earliest s') <> NaN) by (rewrite Hearly; discriminate).
  destruct (well_queued_put_back e s' c Hw Hk) as (Hw' & Hin & Hkept & Hh & Htr & _).
  exists (requeued e s' (put_self e s' c)), s'. split.
  { unfold ev_updateWithInterval. rewrite (unless_deleted_live _ _ _ _ He).
    rewrite Hr, Hd.
    change (js_mul (JNum (Fin ms)) (JNum (Fin r))) with (JNum (Fin (ms * r))).
    change (js_add (JNum (Fin d)) (js_div1000 (JNum (Fin (ms * r)))))
      with (JNum (Fin (d + ms * r / 1000))).
    unfold bind at 1. rewrite set_self_eq. unfold bind at 1. unfold hasEvent.
    change (events (put_self e _ c)) with (events c). rewrite Hout.
    fold s0. unfold ev_schedule.
    rewrite (ev_schedule_with_requeues _ _ _ _ _ s0).
    - rewrite put_self_put_self. reflexivity.
    - apply evheap_put_self.
    - fold s'. rewrite Hearly.
      change (currentTime (put_self e s0 c)) with (currentTime c).
      unfold currentTime. rewrite Hc. cbn [orb].
      change (js_geb (JNum (Fin now)) (JNum (Fin (d + ms * r / 1000 - t))))
        with (Qle_bool (d + ms * r / 1000 - t) now).
      destruct (Qle_bool (d + ms * r / 1000 - t) now) eqn:E; [|reflexivity].
      apply Qle_bool_iff in E. lra. }
  split; [apply self_of_put_back|].
  repeat (split; [first [reflexivity | assumption]|]).
  assumption.
Qed.

Lemma updateWithInterval_resumes_an_idle_event_witness :
  exists c' s',
    ev_updateWithInterval inert 0 2 (JNum (Fin 500)) idle_store = Ok tt c'
    /\ self_of c' 2 = Some s'
    /\ s_suspended s' = false
    /\ s_initialInterval s' = JNum (Fin 500)
    /\ s_currentInterval s' = JNum (Fin (500 * 1))
    /\ s_scheduled s' = JNum (Fin (15 + 500 * 1 / 1000))
    /\ s_elapsedTickCount s'
       = s_elapsedTickCount
           (with_suspended true
              (sample_self 15 1000 (JNum PInf) 0 (Some 7) None None None))
    /\ 2 ∈ events c'
    /\ well_queued c'
    /\ others_kept 2 idle_store c'
    /\ trace c' = trace idle_store.
Proof.
  apply (updateWithInterval_resumes_an_idle_event inert 0 idle_store 2
           (with_suspended true
              (sample_self 15 1000 (JNum PInf) 0 (Some 7) None None None))
           12 15 1 (1 # 1000) 500).
  - vm_compute. reflexivity.
  - apply inQueue_false. reflexivity.
  - reflexivity.
  - reflexivity.
  - reflexivity.
  - reflexivity.
  - vm_compute. reflexivity.
  - split; [distinct_concrete|]. split.
    + repeat constructor.
    + repeat constructor; vm_compute; discriminate.
Defined.

Lemma well_queued_remove e c :
  well_queued c -> well_queued (set_events (remove_first e (events c)) c).
Proof.
  intros [Hnd Hs]. split; st_simpl.
  - apply remove_first_NoDup. assumption.
  - apply queue_sorted_remove. assumption.
Qed.

(** The two branches of [if (hasEvent) removeEvent] end in one store. *)
Lemma remove_if_queued e c (k : M unit) :
  (has <- hasEvent e ;;
   (if has then (removeEvent e ;;; ret tt) else ret tt) ;;; k) c
  = k (set_events (remove_first e (events c)) c).
Proof.
  unfold bind at 1. unfold hasEvent.
  destruct (inQueue e (events c)) eqn:E.
  - reflexivity.
  - apply inQueue_false in E. rewrite (remove_first_notin _ _ E), set_events_id.
    reflexivity.
Qed.

(** X13. [timeStretch] on a live event that still loops, when the new
    deadline is ahead of the current time: the ratio is recorded, the
    current interval becomes the initial interval times the ratio, and the
    pending deadline moves by the difference of the two current intervals.
    The event ends in the queue, once and in order, not suspended, with
    its tick count; nothing fires. *)
Theorem timeStretch_moves_the_pending_deadline run_cb fuel c e s now d i i0 r t :
  evheap c !! e = Some (Live s) ->
  isLooping s = true ->
  context c = Some now ->
  s_scheduled s = JNum (Fin d) ->
  s_currentInterval s = JNum (Fin i) ->
  s_initialInterval s = JNum (Fin i0) ->
  s_tol_early s = JNum (Fin t) ->
  (now < d - i / 1000 + i0 * r / 1000 - t)%Q ->
  well_queued c ->
  exists c' s',
    ev_timeStretch run_cb fuel e (JNum (Fin r)) c = Ok tt c'
    /\ self_of c' e = Some s'
    /\ s_timeStretch s' = JNum (Fin r)
    /\ s_initialInterval s' = JNum (Fin i0)
    /\ s_currentInterval s' = JNum (Fin (i0 * r))
    /\ s_scheduled s' = JNum (Fin (d - i / 1000 + i0 * r / 1000))
    /\ s_elapsedTickCount s' = s_elapsedTickCount s
    /\ s_suspended s' = false
    /\ e ∈ events c'
    /\ well_queued c'
    /\ others_kept e c c'
    /\ trace c' = trace c.
Proof.
  intros He Hloop Hc Hd Hi Hi0 Ht Hlt Hw.
  set (c1 := set_events (remove_first e (events c)) c).
  set (s0 := with_intervals (JNum (Fin i0)) (JNum (Fin (i0 * r)))
               (with_timeStretch (JNum (Fin r)) s)).
  set (dl := (d - i / 1000 + i0 * r / 1000)%Q).
  set (s' := rescheduled (JNum (Fin dl)) s0).
  assert (Hearly : s_earliest s' = JNum (Fin (dl - t))).
  { subst s'. rewrite (earliest_rescheduled _ t) by exact Ht. reflexivity. }
  assert (Hk : toNumber (s_earliest s') <> NaN) by (rewrite Hearly; discriminate).
  pose proof (well_queued_remove e c Hw) as Hw1. fold c1 in Hw1.
  destruct (well_queued_put_back e s' c1 Hw1 Hk) as (Hw' & Hin & Hkept & Hh & Htr & _).
  assert (Hgeb : js_geb (JNum (Fin now)) (JNum (Fin (dl - t))) = false).
  { change (js_geb (JNum (Fin now)) (JNum (Fin (dl - t))))
      with (Qle_bool (dl - t) now).
    destruct (Qle_bool (dl - t) now) eqn:E; [|reflexivity].
    apply Qle_bool_iff in E. subst dl. lra. }
  exists (requeued e s' (put_self e s' c1)), s'. split.
  { unfold ev_timeStretch. rewrite (unless_deleted_live _ _ _ _ He).
    rewrite Hloop. cbn [negb]. rewrite remove_if_queued. fold c1.
    rewrite Hd, Hi, Hi0, Ht.
    change (js_mul (JNum (Fin i0)) (JNum (Fin r))) with (JNum (Fin (i0 * r))).
    change (js_add (js_sub (JNum (Fin d)) (js_div1000 (JNum (Fin i))))
                   (js_div1000 (JNum (Fin (i0 * r)))))
      with (JNum (Fin dl)).
    change (js_sub (JNum (Fin dl)) (JNum (Fin t))) with (JNum (Fin (dl - t))).
    fold s0. unfold bind at 1. rewrite set_self_eq.
    unfold bind at 1. unfold getCurrentTime.
    change (currentTime (put_self e s0 c1)) with (currentTime c).
    unfold currentTime at 1. rewrite Hc. rewrite Hgeb.
    unfold ev_schedule.
    rewrite (ev_schedule_with_requeues _ _ _ _ _ s0).
    - rewrite put_self_put_self. reflexivity.
    - apply evheap_put_self.
    - fold s'. rewrite Hearly.
      change (currentTime (put_self e s0 c1)) with (currentTime c).
      unfold currentTime. rewrite Hc, Hgeb. reflexivity. }
  split; [apply self_of_put_back|].
  repeat (split; [first [reflexivity | assumption]|]).
  split; [|assumption].
  intros x Hne. destruct (Hkept x Hne) as [H1 H2]. split; [|assumption].
  rewrite H1. apply elem_of_remove_first_ne. assumption.
Qed.

Lemma timeStretch_moves_the_pending_deadline_witness :
  exists c' s',
    ev_timeStretch inert 0 2 (JNum (Fin 2)) tick_store = Ok tt c'
    /\ self_of c' 2 = Some s'
    /\ s_timeStretch s' = JNum (Fin 2)
    /\ s_initialInterval s' = JNum (Fin 1000)
    /\ s_currentInterval s' = JNum (Fin (1000 * 2))
    /\ s_scheduled s' = JNum (Fin (15 - 1000 / 1000 + 1000 * 2 / 1000))
    /\ s_elapsedTickCount s'
       = s_elapsedTickCount (sample_self 15 1000 (JNum PInf) 0 (Some 7) None None None)
    /\ s_suspended s' = false
    /\ 2 ∈ events c'
    /\ well_queued c'
    /\ others_kept 2 tick_store c'
    /\ trace c' = trace tick_store.
Proof.
  apply (timeStretch_moves_the_pending_deadline inert 0 tick_store 2
           (sample_self 15 1000 (JNum PInf) 0 (Some 7) None None None)
           12 15 1000 1000 2 (1 # 1000)).
  - vm_compute. reflexivity.
  - reflexivity.
  - reflexivity.
  - reflexivity.
  - reflexivity.
  - reflexivity.
  - reflexivity.
  - vm_compute. reflexivity.
  - split; [distinct_concrete|]. split.
    + repeat constructor.
    + repeat constructor; vm_compute; discriminate.
Defined.

Lemma well_queued_fired e s c :
  well_queued c ->
  well_queued (fired e s c) /\ (e ∉ events (fired e s c))
  /\ others_kept e c (fired e s c).
Proof.
  intros Hw.
  exact (well_queued_taken_out e
           (with_elapsedTickCount (S (s_elapsedTickCount s)) s) c Hw).
Qed.

Lemma others_kept_trans e c1 c2 c3 :
  others_kept e c1 c2 -> others_kept e c2 c3 -> others_kept e c1 c3.
Proof.
  intros H12 H23 x Hne. destruct (H12 x Hne) as [A B], (H23 x Hne) as [C D].
  split; [tauto | congruence].
Qed.

(** X14. The last repetition, with callbacks that leave the scheduler
    alone. When the tick count reaches the number of repetitions,
    [execute] fires the event, calls the handler of the firing,
    then [onComplete] if there is one and never [onAborted], and deletes
    the event: it is gone from the queue and from the manager, and the
    other events are as they were. *)
Theorem last_repetition_completes_the_event fuel c e s r :
  isRunning c = true ->
  evheap c !! e = Some (Live s) ->
  s_suspended s = false ->
  s_repetitions s = JNum (Fin r) ->
  (r <= inject_Z (Z.of_nat (S (s_elapsedTickCount s))))%Q ->
  well_queued c ->
  exists c',
    ev_execute inert (S fuel) e c = Ok tt c'
    /\ evheap c' !! e = Some Deleted
    /\ (e ∉ events c')
    /\ hasUIDFor e c' = Ok false c'
    /\ trace c' =
       trace c ++ fire_trace e s (onTimeAt (currentTime c) s)
         ++ match s_onComplete s with
            | Some f => [Called OnComplete f e]
            | None => []
            end
    /\ others_kept e c c'.
Proof.
  intros Hrun He Hsus Hreps Hr Hw.
  rewrite (ev_execute_eq fuel e c s He Hrun Hsus). cbv zeta.
  set (s1 := with_elapsedTickCount (S (s_elapsedTickCount s)) s).
  assert (Hc : isComplete s1 = true).
  { unfold isComplete, s1. cbn [s_elapsedTickCount s_repetitions with_elapsedTickCount].
    rewrite Hreps. apply Qle_bool_iff. exact Hr. }
  assert (Hl : isLooping s1 = false).
  { unfold isLooping, s1. cbn [s_elapsedTickCount s_repetitions with_elapsedTickCount].
    rewrite Hreps. unfold js_ltb, Num.ltb, toNumber, Num.of_nat.
    apply negb_false_iff. apply Qle_bool_iff. exact Hr. }
  rewrite Hc.
  assert (He1 : evheap (fired e s c) !! e = Some (Live s1))
    by (rewrite evheap_fired; apply lookup_insert_eq).
  rewrite (ev_delete_eq e _ s1 He1).
  destruct (well_queued_fired e s c Hw) as ([Hnd _] & Hout & Hkept).
  exists (deleted e s1 (fired e s c)).
  split; [reflexivity|]. split; [|split; [|split; [|split]]].
  - unfold deleted. st_simpl. apply lookup_insert_eq.
  - unfold deleted. st_simpl. rewrite remove_first_notin; assumption.
  - unfold hasUIDFor, deleted. st_simpl. f_equal.
    destruct (map_has e (uidmap (fired e s c))) eqn:E; [|exact E].
    apply map_has_false. apply notin_map_delete.
  - unfold deleted, delete_trace. st_simpl. rewrite Hl.
    unfold fired. st_simpl. rewrite app_assoc. reflexivity.
  - eapply others_kept_trans; [exact Hkept|].
    intros x Hne. unfold deleted. st_simpl.
    rewrite (remove_first_notin _ _ Hout). split; [reflexivity|].
    apply lookup_insert_ne. congruence.
Qed.

Lemma last_repetition_completes_the_event_witness :
  exists c',
    ev_execute inert (S 0) 1 tick_store = Ok tt c'
    /\ evheap c' !! 1 = Some Deleted
    /\ (1 ∉ events c')
    /\ hasUIDFor 1 c' = Ok false c'
    /\ trace c' =
       trace tick_store
         ++ fire_trace 1 (sample_self 12 500 (JNum (Fin 1)) 0 None (Some 8) None None)
              (onTimeAt (currentTime tick_store)
                 (sample_self 12 500 (JNum (Fin 1)) 0 None (Some 8) None None))
         ++ match s_onComplete
                    (sample_self 12 500 (JNum (Fin 1)) 0 None (Some 8) None None) with
            | Some f => [Called OnComplete f 1]
            | None => []
            end
    /\ others_kept 1 tick_store c'.
Proof.
  apply (last_repetition_completes_the_event 0 tick_store 1
           (sample_self 12 500 (JNum (Fin 1)) 0 None (Some 8) None None) 1).
  - reflexivity.
  - vm_compute. reflexivity.
  - reflexivity.
  - reflexivity.
  - vm_compute. discriminate.
  - split; [distinct_concrete|]. split.
    + repeat constructor.
    + repeat constructor; vm_compute; discriminate.
Defined.

Lemma well_queued_put_self_notin e s' c :
  well_queued c -> e ∉ events c -> well_queued (put_self e s' c).
Proof.
  intros [Hnd Hs] Hout. split; [exact Hnd|].
  unfold put_self. st_simpl. apply (queue_sorted_heap (evheap c)); [|assumption].
  intros x Hx. apply keyOf_insert_ne. intros ->. contradiction.
Qed.

Lemma others_kept_put_self e s' c : others_kept e c (put_self e s' c).
Proof.
  intros x Hne. split; [reflexivity|].
  unfold put_self. st_simpl. apply lookup_insert_ne. congruence.
Qed.

Lemma nth_deadline_le d step n : (0 <= step)%Q -> (d <= nth_deadline d step n)%Q.
Proof.
  intros Hs. revert d. induction n as [|n IH]; intros d; simpl; [lra|].
  specialize (IH (d + step)%Q). lra.
Qed.

Lemma nth_deadline_closed d step n :
  (nth_deadline d step n == d + inject_Z (Z.of_nat n) * step)%Q.
Proof.
  revert d. induction n as [|n IH]; intros d.
  - simpl. ring.
  - cbn [nth_deadline]. rewrite IH, Nat2Z.inj_succ. unfold Z.succ.
    rewrite inject_Z_plus. change (inject_Z 1) with 1%Q. ring.
Qed.

Lemma of_nat_ltb_mono a b r :
  b <= a -> Num.ltb (Num.of_nat a) r = true -> Num.ltb (Num.of_nat b) r = true.
Proof.
  intros Hle. unfold Num.of_nat. destruct r as [q| | |]; simpl; try congruence.
  intros H. apply negb_true_iff in H. apply negb_true_iff.
  destruct (Qle_bool q (inject_Z (Z.of_nat b))) eqn:E; [|reflexivity].
  apply Qle_bool_iff in E.
  assert (Hq : (inject_Z (Z.of_nat b) <= inject_Z (Z.of_nat a))%Q).
  { rewrite <- Zle_Qle. lia. }
  assert (Hqa : Qle_bool q (inject_Z (Z.of_nat a)) = true).
  { apply Qle_bool_iff. lra. }
  congruence.
Qed.

Lemma firings_app tr tr' : firings (tr ++ tr') = firings tr + firings tr'.
Proof. unfold firings. rewrite List.filter_app, length_app. reflexivity. Qed.

Lemma firings_fire_trace e s b : firings (fire_trace e s b) = 1.
Proof.
  unfold fire_trace, firings.
  destruct b; [destruct (s_onTick s)|]; try destruct (s_onMissed s); reflexivity.
Qed.

(** The rounds of one call of [execute] on an event that is late by [n]
    intervals: it fires, puts its deadline one interval further, finds
    itself due again and starts over, [n + 1] times in all. *)
Lemma execute_rounds n :
  forall fuel c e s now d t i,
    isRunning c = true ->
    context c = Some now ->
    evheap c !! e = Some (Live s) ->
    s_suspended s = false ->
    s_scheduled s = JNum (Fin d) ->
    s_tol_early s = JNum (Fin t) ->
    s_currentInterval s = JNum (Fin i) ->
    (0 <= i)%Q ->
    js_ltb (JNum (Num.of_nat (s_elapsedTickCount s + S n))) (s_repetitions s) = true ->
    well_queued c ->
    (nth_deadline d (i / 1000) n - t <= now)%Q ->
    (now < nth_deadline d (i / 1000) (S n) - t)%Q ->
    exists c' s' tr,
      ev_execute inert (S (n + fuel)) e c = Ok tt c'
      /\ self_of c' e = Some s'
      /\ s_elapsedTickCount s' = s_elapsedTickCount s + S n
      /\ s_scheduled s' = JNum (Fin (nth_deadline d (i / 1000) (S n)))
      /\ s_currentInterval s' = JNum (Fin i)
      /\ s_suspended s' = false
      /\ e ∈ events c'
      /\ well_queued c'
      /\ others_kept e c c'
      /\ trace c' = trace c ++ tr
      /\ firings tr = S n
      /\ Forall (about e) tr.
Proof.
  induction n as [|n IH];
    intros fuel c e s now d t i Hrun Hctx He Hsus Hd Ht Hi Hi0 Hloop Hw Hdue Hnext.
  - cbn [nth_deadline] in Hdue, Hnext. cbn [Nat.add].
    rewrite (ev_execute_cases fuel c e s now d t i Hrun Hctx He Hsus Hd Ht Hi).
    cbv zeta.
    set (s1 := with_elapsedTickCount (S (s_elapsedTickCount s)) s).
    set (s' := rescheduled (JNum (Fin (d + i / 1000))) s1).
    assert (Hl : isLooping s1 = true).
    { unfold isLooping, s1. cbn [s_elapsedTickCount s_repetitions with_elapsedTickCount].
      rewrite Nat.add_1_r in Hloop. exact Hloop. }
    assert (Hc : isComplete s1 = false).
    { unfold isComplete, js_geb, Num.geb. apply ltb_leb_excl. exact Hl. }
    destruct (well_queued_fired e s c Hw) as (Hw1 & Hout & Hkept).
    assert (Hq : inQueue e (events (fired e s c)) = false)
      by (apply inQueue_false; exact Hout).
    assert (Hnot : Qle_bool (d + i / 1000 + - t) now = false).
    { destruct (Qle_bool (d + i / 1000 + - t) now) eqn:E; [|reflexivity].
      apply Qle_bool_iff in E. lra. }
    rewrite Hc, Hq, Hl, Hnot. cbn [negb andb].
    assert (Hearly : s_earliest s' = JNum (Fin (d + i / 1000 - t))).
    { subst s'. rewrite (earliest_rescheduled _ t) by exact Ht. reflexivity. }
    assert (Hk : toNumber (s_earliest s') <> NaN) by (rewrite Hearly; discriminate).
    destruct (well_queued_put_back e s' (fired e s c) Hw1 Hk)
      as (Hw' & Hin & Hkept' & Hh & Htr & _).
    exists (requeued e s' (put_self e s' (fired e s c))), s',
           (fire_trace e s1 (onTimeAt (currentTime c) s1)).
    split; [reflexivity|]. split; [apply self_of_put_back|].
    split; [cbn; lia|]. split; [reflexivity|]. split; [exact Hi|].
    split; [reflexivity|]. split; [assumption|]. split; [assumption|].
    split; [eapply others_kept_trans; eassumption|].
    split; [rewrite Htr; reflexivity|].
    split; [apply firings_fire_trace | apply about_fire_trace].
  - cbn [nth_deadline] in Hdue, Hnext.
    change (S (S n + fuel)) with (S (S (n + fuel))).
    rewrite (ev_execute_cases (S (n + fuel)) c e s now d t i Hrun Hctx He Hsus Hd Ht Hi).
    cbv zeta.
    set (s1 := with_elapsedTickCount (S (s_elapsedTickCount s)) s).
    set (s' := rescheduled (JNum (Fin (d + i / 1000))) s1).
    assert (Hl : isLooping s1 = true).
    { unfold isLooping, s1. cbn [s_elapsedTickCount s_repetitions with_elapsedTickCount].
      unfold js_ltb in *. cbn [toNumber] in *.
      eapply of_nat_ltb_mono; [|exact Hloop]. lia. }
    assert (Hc : isComplete s1 = false).
    { unfold isComplete, js_geb, Num.geb. apply ltb_leb_excl. exact Hl. }
    destruct (well_queued_fired e s c Hw) as (Hw1 & Hout & Hkept).
    assert (Hq : inQueue e (events (fired e s c)) = false)
      by (apply inQueue_false; exact Hout).
    assert (Hstep : (0 <= i / 1000)%Q).
    { apply Qle_shift_div_l; [reflexivity|]. lra. }
    pose proof (nth_deadline_le (d + i / 1000) (i / 1000) n Hstep) as Hmono.
    assert (Hyes : Qle_bool (d + i / 1000 + - t) now = true).
    { apply Qle_bool_iff. lra. }
    rewrite Hc, Hq, Hl, Hyes. cbn [negb andb].
    set (c2 := put_self e s' (fired e s c)).
    assert (Hw2 : well_queued c2) by (apply well_queued_put_self_notin; assumption).
    destruct (IH fuel c2 e s' now (d + i / 1000)%Q t i)
      as (c' & s'' & tr & Hrun' & Hself & Hcount & Hsched & Hint & Hsus' & Hin
          & Hw' & Hkept' & Htr & Hf & Hab).
    + exact Hrun.
    + exact Hctx.
    + apply evheap_put_self.
    + reflexivity.
    + reflexivity.
    + exact Ht.
    + exact Hi.
    + exact Hi0.
    + cbn [s_elapsedTickCount s_repetitions rescheduled with_deadline with_suspended
           with_elapsedTickCount s' s1].
      replace (S (s_elapsedTickCount s) + S n) with (s_elapsedTickCount s + S (S n))
        by lia.
      exact Hloop.
    + exact Hw2.
    + exact Hdue.
    + exact Hnext.
    + exists c', s'', (fire_trace e s1 (onTimeAt (currentTime c) s1) ++ tr).
      split; [exact Hrun'|]. split; [exact Hself|].
      split; [rewrite Hcount; cbn; lia|]. split; [exact Hsched|].
      split; [exact Hint|]. split; [exact Hsus'|]. split; [exact Hin|].
      split; [exact Hw'|].
      split.
      { eapply others_kept_trans; [exact Hkept|].
        eapply others_kept_trans; [apply others_kept_put_self | exact Hkept']. }
      split; [rewrite Htr; unfold c2, fired, put_self; st_simpl;
              rewrite app_assoc; reflexivity|].
      split; [rewrite firings_app, firings_fire_trace, Hf; reflexivity|].
      apply Forall_app. split; [apply about_fire_trace | exact Hab].
Qed.

(** X15. One call of [execute] on a live event that is late by [n]
    intervals, with callbacks that leave the scheduler alone and
    repetitions to spare: the event fires [n + 1] times in the call, each
    time with the handler of the firing, and is then queued for its old
    deadline plus [n + 1] intervals, the first deadline that is still
    ahead. The deadline follows the previous deadline, not the clock. *)
Theorem late_event_catches_up_in_one_call fuel c e s now d t i n :
  isRunning c = true ->
  context c = Some now ->
  evheap c !! e = Some (Live s) ->
  s_suspended s = false ->
  s_scheduled s = JNum (Fin d) ->
  s_tol_early s = JNum (Fin t) ->
  s_currentInterval s = JNum (Fin i) ->
  (0 <= i)%Q ->
  js_ltb (JNum (Num.of_nat (s_elapsedTickCount s + S n))) (s_repetitions s) = true ->
  well_queued c ->
  (d + inject_Z (Z.of_nat n) * (i / 1000) - t <= now)%Q ->
  (now < d + inject_Z (Z.of_nat (S n)) * (i / 1000) - t)%Q ->
  exists c' s' d' tr,
    ev_execute inert (S (n + fuel)) e c = Ok tt c'
    /\ self_of c' e = Some s'
    /\ s_elapsedTickCount s' = s_elapsedTickCount s + S n
    /\ s_scheduled s' = JNum (Fin d')
    /\ (d' == d + inject_Z (Z.of_nat (S n)) * (i / 1000))%Q
    /\ e ∈ events c'
    /\ well_queued c'
    /\ others_kept e c c'
    /\ trace c' = trace c ++ tr
    /\ firings tr = S n
    /\ Forall (about e) tr.
Proof.
  intros Hrun Hctx He Hsus Hd Ht Hi Hi0 Hloop Hw Hdue Hnext.
  rewrite <- (nth_deadline_closed d (i / 1000) n) in Hdue.
  rewrite <- (nth_deadline_closed d (i / 1000) (S n)) in Hnext.
  destruct (execute_rounds n fuel c e s now d t i
              Hrun Hctx He Hsus Hd Ht Hi Hi0 Hloop Hw Hdue Hnext)
    as (c' & s' & tr & Hrun' & Hself & Hcount & Hsched & _ & _ & Hin & Hw'
        & Hkept & Htr & Hf & Hab).
  exists c', s', (nth_deadline d (i / 1000) (S n)), tr.
  split; [exact Hrun'|]. split; [exact Hself|]. split; [exact Hcount|].
  split; [exact Hsched|]. split; [apply nth_deadline_closed|].
  repeat (split; [assumption|]). assumption.
Qed.

Lemma late_event_catches_up_in_one_call_witness :
  exists c' s' d' tr,
    ev_execute inert (S (10 + 0)) 0 stalled_store = Ok tt c'
    /\ self_of c' 0 = Some s'
    /\ s_elapsedTickCount s'
       = s_elapsedTickCount
           (sample_self 10 1000 (JNum PInf) 0 (Some 7) None None None) + S 10
    /\ s_scheduled s' = JNum (Fin d')
    /\ (d' == 10 + inject_Z (Z.of_nat (S 10)) * (1000 / 1000))%Q
    /\ 0 ∈ events c'
    /\ well_queued c'
    /\ others_kept 0 stalled_store c'
    /\ trace c' = trace stalled_store ++ tr
    /\ firings tr = S 10
    /\ Forall (about 0) tr.
Proof.
  apply (late_event_catches_up_in_one_call 0 stalled_store 0
           (sample_self 10 1000 (JNum PInf) 0 (Some 7) None None None)
           20 10 (1 # 1000) 1000 10).
  - reflexivity.
  - reflexivity.
  - vm_compute. reflexivity.
  - reflexivity.
  - reflexivity.
  - reflexivity.
  - reflexivity.
  - vm_compute. discriminate.
  - reflexivity.
  - split; [distinct_concrete|]. split.
    + repeat constructor.
    + repeat constructor; vm_compute; discriminate.
  - vm_compute. discriminate.
  - vm_compute. reflexivity.
Defined.

(** X16. After [delete] the event is of no use: the object is cleared,
    out of the queue and out of the manager, and the one callback of the
    deletion has run (callbacks that leave the scheduler alone). A later
    [delete], [clearInterval], [suspend] or [timeStretch] of the clock on it
    throws a [TypeError], the member being [undefined], and leaves the store
    as it is. *)
Theorem deleted_event_throws_on_use c e s :
  evheap c !! e = Some (Live s) ->
  well_queued c ->
  exists c',
    clock_delete inert (One e) c = Ok tt c'
    /\ evheap c' !! e = Some Deleted
    /\ (e ∉ events c')
    /\ hasUIDFor e c' = Ok false c'
    /\ trace c' = trace c ++ delete_trace e s
    /\ others_kept e c c'
    /\ (forall run_cb fuel ratio,
          clock_delete run_cb (One e) c'
            = Throw "event.delete is not a function" c'
          /\ clearInterval run_cb e c'
            = Throw "event.delete is not a function" c'
          /\ clock_suspend (One e) c'
            = Throw "event.suspend is not a function" c'
          /\ clock_timeStretch run_cb fuel (One e) ratio c'
            = Throw "event.timeStretch is not a function" c').
Proof.
  intros He [Hnd Hs].
  destruct (remove_first_NoDup e _ Hnd) as [_ Hout].
  exists (deleted e s c).
  assert (Hdel : evheap (deleted e s c) !! e = Some Deleted)
    by (unfold deleted; st_simpl; apply lookup_insert_eq).
  split.
  { unfold clock_delete, on_targets. rewrite (member_live _ _ _ _ s) by assumption.
    apply ev_delete_eq. assumption. }
  split; [assumption|]. split; [exact Hout|]. split.
  { unfold hasUIDFor, deleted. st_simpl. f_equal.
    destruct (map_has e (uidmap c)) eqn:E; [|exact E].
    apply map_has_false. apply notin_map_delete. }
  split; [reflexivity|]. split.
  { intros x Hne. unfold deleted. st_simpl.
    split; [apply elem_of_remove_first_ne; assumption|].
    apply lookup_insert_ne. congruence. }
  intros run_cb fuel ratio.
  unfold clock_delete, clearInterval, clock_suspend, clock_timeStretch,
    on_targets, member, bind, get, throw.
  rewrite Hdel. repeat split; reflexivity.
Qed.

Lemma deleted_event_throws_on_use_witness :
  exists c',
    clock_delete inert (One 0) repeater_store = Ok tt c'
    /\ evheap c' !! 0 = Some Deleted
    /\ (0 ∉ events c')
    /\ hasUIDFor 0 c' = Ok false c'
    /\ trace c' =
       trace repeater_store
         ++ delete_trace 0 (sample_self 11 1000 (JNum PInf) 0 (Some 7) None None None)
    /\ others_kept 0 repeater_store c'
    /\ (forall run_cb fuel ratio,
          clock_delete run_cb (One 0) c'
            = Throw "event.delete is not a function" c'
          /\ clearInterval run_cb 0 c'
            = Throw "event.delete is not a function" c'
          /\ clock_suspend (One 0) c'
            = Throw "event.suspend is not a function" c'
          /\ clock_timeStretch run_cb fuel (One 0) ratio c'
            = Throw "event.timeStretch is not a function" c').
Proof.
  apply (deleted_event_throws_on_use repeater_store 0
           (sample_self 11 1000 (JNum PInf) 0 (Some 7) None None None)).
  - vm_compute. reflexivity.
  - split; [distinct_concrete|]. split.
    + repeat constructor.
    + repeat constructor; vm_compute; discriminate.
Defined.

(** X17. [schedule(deadline)] of an event, unlike [reschedule] and
    [sync], executes the event inside the call when the deadline is due.
    For a live event that is not in the queue, a suspended one for
    instance, and a deadline that is late by [n] intervals, the event
    fires [n + 1] times in the call and ends in the queue, not suspended,
    for the deadline plus [n + 1] intervals. *)
Theorem schedule_of_a_due_deadline_fires_in_the_call fuel c e s now d t i n :
  isRunning c = true ->
  context c = Some now ->
  evheap c !! e = Some (Live s) ->
  e ∉ events c ->
  s_tol_early s = JNum (Fin t) ->
  s_currentInterval s = JNum (Fin i) ->
  (0 <= i)%Q ->
  js_ltb (JNum (Num.of_nat (s_elapsedTickCount s + S n))) (s_repetitions s) = true ->
  well_queued c ->
  (d + inject_Z (Z.of_nat n) * (i / 1000) - t <= now)%Q ->
  (now < d + inject_Z (Z.of_nat (S n)) * (i / 1000) - t)%Q ->
  exists c' s' d' tr,
    ev_schedule inert (S (n + fuel)) e (JNum (Fin d)) false c = Ok tt c'
    /\ self_of c' e = Some s'
    /\ s_elapsedTickCount s' = s_elapsedTickCount s + S n
    /\ s_scheduled s' = JNum (Fin d')
    /\ (d' == d + inject_Z (Z.of_nat (S n)) * (i / 1000))%Q
    /\ s_suspended s' = false
    /\ e ∈ events c'
    /\ well_queued c'
    /\ others_kept e c c'
    /\ trace c' = trace c ++ tr
    /\ firings tr = S n.
Proof.
  intros Hrun Hctx He Hout Ht Hi Hi0 Hloop Hw Hdue Hnext.
  rewrite <- (nth_deadline_closed d (i / 1000) n) in Hdue.
  rewrite <- (nth_deadline_closed d (i / 1000) (S n)) in Hnext.
  assert (Hstep : (0 <= i / 1000)%Q).
  { apply Qle_shift_div_l; [reflexivity|]. lra. }
  pose proof (nth_deadline_le d (i / 1000) n Hstep) as Hmono.
  set (s2 := rescheduled (JNum (Fin d)) s).
  set (c2 := put_self e s2 c).
  assert (Hw2 : well_queued c2) by (apply well_queued_put_self_notin; assumption).
  destruct (execute_rounds n fuel c2 e s2 now d t i)
    as (c' & s' & tr & Hrun' & Hself & Hcount & Hsched & _ & Hsus & Hin & Hw'
        & Hkept & Htr & Hf & _);
    try first [assumption | reflexivity | apply evheap_put_self].
  exists c', s', (nth_deadline d (i / 1000) (S n)), tr.
  split.
  { unfold ev_schedule. rewrite (ev_schedule_with_eq _ _ _ _ _ s He). cbv zeta.
    fold s2 c2. unfold s2 at 1. rewrite (earliest_rescheduled d t s Ht).
    unfold currentTime. rewrite Hctx. cbn [orb].
    change (js_geb (JNum (Fin now)) (JNum (Fin (d + - t))))
      with (Qle_bool (d + - t) now).
    assert (Hyes : Qle_bool (d + - t) now = true) by (apply Qle_bool_iff; lra).
    rewrite Hyes. exact Hrun'. }
  split; [exact Hself|]. split; [exact Hcount|]. split; [exact Hsched|].
  split; [apply nth_deadline_closed|]. split; [exact Hsus|].
  split; [exact Hin|]. split; [exact Hw'|].
  split; [eapply others_kept_trans; [apply others_kept_put_self | exact Hkept]|].
  split; [exact Htr | exact Hf].
Qed.

Lemma schedule_of_a_due_deadline_fires_in_the_call_witness :
  exists c' s' d' tr,
    ev_schedule inert (S (1 + 0)) 2 (JNum (Fin 11)) false idle_store = Ok tt c'
    /\ self_of c' 2 = Some s'
    /\ s_elapsedTickCount s'
       = s_elapsedTickCount
           (with_suspended true
              (sample_self 15 1000 (JNum PInf) 0 (Some 7) None None None)) + S 1
    /\ s_scheduled s' = JNum (Fin d')
    /\ (d' == 11 + inject_Z (Z.of_nat (S 1)) * (1000 / 1000))%Q
    /\ s_suspended s' = false
    /\ 2 ∈ events c'
    /\ well_queued c'
    /\ others_kept 2 idle_store c'
    /\ trace c' = trace idle_store ++ tr
    /\ firings tr = S 1.
Proof.
  apply (schedule_of_a_due_deadline_fires_in_the_call 0 idle_store 2
           (with_suspended true
              (sample_self 15 1000 (JNum PInf) 0 (Some 7) None None None))
           12 11 (1 # 1000) 1000 1).
  - reflexivity.
  - reflexivity.
  - vm_compute. reflexivity.
  - apply inQueue_false. reflexivity.
  - reflexivity.
  - reflexivity.
  - vm_compute. discriminate.
  - reflexivity.
  - split; [distinct_concrete|]. split.
    + repeat constructor.
    + repeat constructor; vm_compute; discriminate.
  - vm_compute. discriminate.
  - vm_compute. reflexivity.
Defined.
(** ** The clock *)

Lemma js_leb_earliest_live h e now :
  js_leb (earliestOf h e) now = true -> exists s, h !! e = Some (Live s).
Proof.
  unfold earliestOf. destruct (h !! e) as [[s|]|]; [eauto | discriminate | discriminate].
Qed.

(** [execute] on a clock that is not running returns at once. *)
Lemma ev_execute_not_running run_cb fuel e c s :
  evheap c !! e = Some (Live s) ->
  isRunning c = false ->
  ev_execute run_cb (S fuel) e c = Ok tt c.
Proof.
  intros He Hrun. cbn [ev_execute]. rewrite (unless_deleted_live _ _ _ _ He).
  unfold bind, get. rewrite Hrun. reflexivity.
Qed.

Lemma drain_paused run_cb q :
  forall c fuel,
    events c = q ->
    isRunning c = false ->
    length q < fuel ->
    drain run_cb fuel c
    = Ok tt (set_events (drop_due (evheap c) (currentTime c) q) c).
Proof.
  induction q as [|e rest IH]; intros c fuel Hq Hrun Hf.
  - destruct fuel as [|fuel]; [simpl in Hf; lia|].
    rewrite drain_nil by assumption. cbn [drop_due]. rewrite <- Hq, set_events_id.
    reflexivity.
  - destruct fuel as [|fuel]; [simpl in Hf; lia|]. cbn [drop_due].
    destruct (js_leb (earliestOf (evheap c) e) (currentTime c)) eqn:Ed.
    + destruct (js_leb_earliest_live _ _ _ Ed) as [s He].
      rewrite (drain_due _ _ _ e rest s) by assumption.
      unfold bind.
      rewrite (ev_execute_not_running _ _ _ _ s) by assumption.
      rewrite (IH (set_events rest c) fuel); [reflexivity|reflexivity|assumption|].
      simpl in Hf. lia.
    + rewrite (drain_future _ _ _ e rest) by assumption.
      rewrite <- Hq, set_events_id. reflexivity.
Qed.

(** X18. A tick of a clock that has its context but is not running, a
    paused clock, fires nothing and calls nothing, yet it takes the
    leading run of due events out of the queue: [execute] returns at once
    for each of them and none is put back. Their objects and identifiers
    stay as they are. *)
Theorem tick_of_a_paused_clock_unqueues_due_events run_cb fuel c now :
  isRunning c = false ->
  context c = Some now ->
  length (events c) < fuel ->
  tick run_cb fuel c
  = Ok tt (set_events (drop_due (evheap c) (currentTime c) (events c)) c).
Proof.
  intros Hrun Hc Hf. rewrite (tick_drain _ _ _ now) by assumption.
  apply drain_paused; [reflexivity | assumption | assumption].
Qed.

Lemma tick_of_a_paused_clock_unqueues_due_events_witness :
  tick inert 4 paused_store
  = Ok tt (set_events (drop_due (evheap paused_store) (currentTime paused_store)
                                (events paused_store)) paused_store)
  /\ drop_due (evheap paused_store) (currentTime paused_store) (events paused_store)
     = [2].
Proof.
  split.
  - apply (tick_of_a_paused_clock_unqueues_due_events inert 4 paused_store 12).
    + reflexivity.
    + reflexivity.
    + vm_compute. lia.
  - vm_compute. reflexivity.
Defined.

Lemma stop_trace_ext h h' ks :
  (forall e, e ∈ ks -> h' !! e = h !! e) -> stop_trace h' ks = stop_trace h ks.
Proof.
  induction ks as [|k ks IH]; intros H; [reflexivity|].
  unfold stop_trace. cbn [List.flat_map]. rewrite (H k) by left. f_equal.
  apply IH. intros e He. apply H. right. assumption.
Qed.

Lemma keys_deleted e s c :
  fst <$> uidmap (deleted e s c)
  = List.filter (fun k => negb (Nat.eqb k e)) (fst <$> uidmap c).
Proof.
  unfold deleted. st_simpl. destruct (map_has e (uidmap c)) eqn:E.
  - apply keys_map_delete.
  - symmetry. apply filter_ne_notin. apply map_has_false. assumption.
Qed.

(** The loop of [stop] over a list of distinct live events. *)
Lemma delete_each ks :
  forall c,
    NoDup ks ->
    (forall e, e ∈ ks -> exists s, evheap c !! e = Some (Live s)) ->
    NoDup (events c) ->
    exists c',
      forEach (fun e => member e "event.delete" (ev_delete inert e)) ks c = Ok tt c'
      /\ (forall e, e ∈ ks -> evheap c' !! e = Some Deleted)
      /\ (forall x, x ∉ ks -> evheap c' !! x = evheap c !! x)
      /\ (forall x, x ∈ (fst <$> uidmap c') <-> x ∈ (fst <$> uidmap c) /\ x ∉ ks)
      /\ (forall x, x ∈ events c' <-> x ∈ events c /\ x ∉ ks)
      /\ trace c' = trace c ++ stop_trace (evheap c) ks
      /\ isRunning c' = isRunning c
      /\ context c' = context c.
Proof.
  induction ks as [|k ks IH]; intros c Hnd Hlive Hq.
  - exists c. split; [reflexivity|].
    split; [intros e He; inversion He|]. split; [reflexivity|].
    split; [intros x; split; [intros H; split; [assumption|apply not_elem_of_nil]|tauto]|].
    split; [intros x; split; [intros H; split; [assumption|apply not_elem_of_nil]|tauto]|].
    split; [unfold stop_trace; simpl; rewrite app_nil_r; reflexivity|].
    split; reflexivity.
  - apply NoDup_cons in Hnd. destruct Hnd as [Hk Hnd].
    destruct (Hlive k) as [s Hs]; [left|].
    destruct (remove_first_NoDup k _ Hq) as [Hq' Hout].
    destruct (IH (deleted k s c)) as (c' & Hrun & Hdel & Hkeep & Hkeys & Hev & Htr & Hr & Hctx).
    + assumption.
    + intros e He. destruct (Hlive e) as [s' Hs']; [right; assumption|].
      exists s'. unfold deleted. st_simpl. rewrite lookup_insert_ne; [assumption|].
      intros ->. contradiction.
    + unfold deleted. st_simpl. assumption.
    + exists c'. split.
      { cbn [forEach]. unfold bind at 1.
        rewrite (member_live _ _ _ _ s) by assumption.
        rewrite (ev_delete_eq _ _ s) by assumption. exact Hrun. }
      split.
      { intros e He. apply elem_of_cons in He. destruct He as [->|He]; [|auto].
        rewrite Hkeep by assumption. unfold deleted. st_simpl. apply lookup_insert_eq. }
      split.
      { intros x Hx. apply not_elem_of_cons in Hx. destruct Hx as [Hne Hx].
        rewrite Hkeep by assumption. unfold deleted. st_simpl.
        apply lookup_insert_ne. congruence. }
      split.
      { intros x. rewrite Hkeys, keys_deleted, elem_of_filter_ne, not_elem_of_cons. tauto. }
      split.
      { intros x. rewrite Hev. unfold deleted. st_simpl.
        rewrite not_elem_of_cons. split.
        - intros [Hx Hn]. assert (x <> k) by (intros ->; contradiction).
          split; [eapply remove_first_subset; eassumption | tauto].
        - intros [Hx [Hne Hn]]. split; [apply remove_first_other; assumption | assumption]. }
      split.
      { rewrite Htr. unfold deleted at 1. st_simpl.
        unfold stop_trace at 2. cbn [List.flat_map]. rewrite Hs, <- app_assoc.
        do 2 f_equal. apply stop_trace_ext. intros e He.
        unfold deleted. st_simpl. apply lookup_insert_ne. intros ->. contradiction. }
      split; [rewrite Hr | rewrite Hctx]; reflexivity.
Qed.

Lemma fmap_nil_of_no_elem {A B} (f : A -> B) (l : list A) :
  (forall x, x ∉ (f <$> l)) -> l = [].
Proof.
  destruct l as [|a l]; [reflexivity|]. intros H. exfalso. apply (H (f a)). left.
Qed.

(** X19. [stop], with callbacks that leave the scheduler alone: the clock
    stops running and every event the manager holds is deleted, in the
    order of registration, each with the one callback of its deletion.
    Afterwards [getEvents] and [getEventQueue] are empty and every event
    that was managed is cleared; the context is still in place until its
    closing is settled, and from then on a tick does nothing. *)
Theorem stop_deletes_every_event c :
  managed_live c ->
  NoDup (events c) ->
  queue_managed c ->
  exists c',
    clock_stop inert c = Ok tt c'
    /\ isRunning c' = false
    /\ getEvents c' = Ok [] c'
    /\ getEventQueue c' = Ok [] c'
    /\ (forall e, e ∈ (fst <$> uidmap c) -> evheap c' !! e = Some Deleted)
    /\ (forall x, x ∉ (fst <$> uidmap c) -> evheap c' !! x = evheap c !! x)
    /\ trace c' = trace c ++ stop_trace (evheap c) (fst <$> uidmap c)
    /\ context c' = context c
    /\ (forall run_cb fuel,
          (clock_closed ;;; tick run_cb fuel) c' = Ok tt (set_context None c')).
Proof.
  intros [Hnd Hlive] Hq Hm.
  destruct (delete_each (fst <$> uidmap c) (set_isRunning false c) Hnd Hlive Hq)
    as (c' & Hrun & Hdel & Hkeep & Hkeys & Hev & Htr & Hr & Hctx).
  exists c'. split; [exact Hrun|]. split; [exact Hr|]. split.
  { unfold getEvents, keys.
    rewrite (fmap_nil_of_no_elem fst (uidmap c')); [reflexivity|].
    intros x Hx. apply Hkeys in Hx. tauto. }
  split.
  { assert (Hnone : forall x, x ∉ events c').
    { intros x Hx. apply Hev in Hx. destruct Hx as [Hx Hn]. apply Hn. apply Hm.
      exact Hx. }
    unfold getEventQueue.
    destruct (events c') as [|x q]; [reflexivity|]. exfalso. apply (Hnone x). left. }
  split; [exact Hdel|]. split; [exact Hkeep|]. split; [exact Htr|].
  split; [exact Hctx|].
  intros run_cb fuel. reflexivity.
Qed.

Lemma stop_deletes_every_event_witness :
  exists c',
    clock_stop inert tick_store = Ok tt c'
    /\ isRunning c' = false
    /\ getEvents c' = Ok [] c'
    /\ getEventQueue c' = Ok [] c'
    /\ (forall e, e ∈ (fst <$> uidmap tick_store) -> evheap c' !! e = Some Deleted)
    /\ (forall x, x ∉ (fst <$> uidmap tick_store) ->
        evheap c' !! x = evheap tick_store !! x)
    /\ trace c' = trace tick_store
                  ++ stop_trace (evheap tick_store) (fst <$> uidmap tick_store)
    /\ context c' = context tick_store
    /\ (forall run_cb fuel,
          (clock_closed ;;; tick run_cb fuel) c' = Ok tt (set_context None c')).
Proof.
  apply (stop_deletes_every_event tick_store).
  - split; [distinct_concrete|]. intros e He.
    apply inQueue_true in He. vm_compute in He.
    destruct e as [|[|[|e]]]; try discriminate; eexists; vm_compute; reflexivity.
  - distinct_concrete.
  - intros e He. exact He.
Defined.

Lemma prop_truthy_or_else a b :
  prop_truthy b = true -> prop_truthy (or_else a b) = true.
Proof. intros H. unfold or_else. destruct (prop_truthy a) eqn:E; assumption. Qed.

Lemma or_else_None a b : or_else a b = None -> b = None.
Proof.
  unfold or_else. destruct (prop_truthy a) eqn:E; [|auto].
  intros ->. discriminate.
Qed.

(** X20. The public [setTolerance] keeps, for every member of its
    argument that is falsy (absent, zero or [NaN]), the value the clock
    has; the other members replace the clock's. So tolerances that are
    truthy stay truthy, and zero cannot be set. The write goes to the
    clock's tolerance object in place; events, queue and requests are not
    touched. *)
Theorem setTolerance_skips_falsy_members c own t :
  tolheap c !! clock_tolerance c = Some own ->
  exists c',
    setTolerance t c = Ok tt c'
    /\ tolheap c' !! clock_tolerance c
       = Some (mkTolerance (or_else (early t) (early own))
                           (or_else (late t) (late own)))
    /\ (prop_truthy (early t) = false -> or_else (early t) (early own) = early own)
    /\ (prop_truthy (late t) = false -> or_else (late t) (late own) = late own)
    /\ (prop_truthy (early own) = true -> prop_truthy (late own) = true ->
        prop_truthy (or_else (early t) (early own)) = true
        /\ prop_truthy (or_else (late t) (late own)) = true)
    /\ (forall r, r <> clock_tolerance c -> tolheap c' !! r = tolheap c !! r)
    /\ clock_tolerance c' = clock_tolerance c
    /\ evheap c' = evheap c
    /\ events c' = events c
    /\ optheap c' = optheap c
    /\ trace c' = trace c.
Proof.
  intros Hown.
  assert (Hfacts :
    (prop_truthy (early t) = false -> or_else (early t) (early own) = early own)
    /\ (prop_truthy (late t) = false -> or_else (late t) (late own) = late own)
    /\ (prop_truthy (early own) = true -> prop_truthy (late own) = true ->
        prop_truthy (or_else (early t) (early own)) = true
        /\ prop_truthy (or_else (late t) (late own)) = true)).
  { split; [intros H; unfold or_else; rewrite H; reflexivity|].
    split; [intros H; unfold or_else; rewrite H; reflexivity|].
    intros H1 H2. split; apply prop_truthy_or_else; assumption. }
  unfold setTolerance, clock_setTolerance.
  unfold bind at 1. unfold get. unfold bind at 1. unfold read_tolerance at 1.
  rewrite Hown. cbn [early late].
  destruct (or_else (early t) (early own)) as [x|] eqn:Ee;
    destruct (or_else (late t) (late own)) as [y|] eqn:El;
    msimp; rewrite ?Hown; msimp; rewrite ?lookup_insert_eq; msimp;
    eexists; (split; [reflexivity|]); st_simpl;
    try (apply or_else_None in Ee); try (apply or_else_None in El);
    (split; [rewrite ?lookup_insert_eq; try rewrite Hown; destruct own; simpl in *;
             congruence|]);
    (split; [apply Hfacts|]); (split; [apply Hfacts|]); (split; [apply Hfacts|]);
    (split; [intros r Hr; rewrite ?lookup_insert_ne by congruence; reflexivity|]);
    repeat split.
Qed.

Lemma setTolerance_skips_falsy_members_witness :
  exists c',
    setTolerance (mkTolerance (Some (Fin 0)) (Some (Fin (1 # 2)))) tick_store = Ok tt c'
    /\ tolheap c' !! clock_tolerance tick_store
       = Some (mkTolerance (or_else (Some (Fin 0)) (early default_tolerance))
                           (or_else (Some (Fin (1 # 2))) (late default_tolerance)))
    /\ (prop_truthy (Some (Fin 0)) = false ->
        or_else (Some (Fin 0)) (early default_tolerance) = early default_tolerance)
    /\ (prop_truthy (Some (Fin (1 # 2))) = false ->
        or_else (Some (Fin (1 # 2))) (late default_tolerance) = late default_tolerance)
    /\ (prop_truthy (early default_tolerance) = true ->
        prop_truthy (late default_tolerance) = true ->
        prop_truthy (or_else (Some (Fin 0)) (early default_tolerance)) = true
        /\ prop_truthy (or_else (Some (Fin (1 # 2))) (late default_tolerance)) = true)
    /\ (forall r, r <> clock_tolerance tick_store ->
        tolheap c' !! r = tolheap tick_store !! r)
    /\ clock_tolerance c' = clock_tolerance tick_store
    /\ evheap c' = evheap tick_store
    /\ events c' = events tick_store
    /\ optheap c' = optheap tick_store
    /\ trace c' = trace tick_store.
Proof.
  apply (setTolerance_skips_falsy_members tick_store default_tolerance
           (mkTolerance (Some (Fin 0)) (Some (Fin (1 # 2))))).
  vm_compute. reflexivity.
Defined.

Lemma new_options_eq opts c :
  new_options opts c =
  Ok (fresh (dom (optheap c)))
     (set_optheap (<[fresh (dom (optheap c)) := opts]> (optheap c)) c).
Proof. reflexivity. Qed.

Lemma fill_tolerance_self own : fill_tolerance own own = own.
Proof. destruct own as [[x|] [y|]]; reflexivity. Qed.

(** The request [setTimeout] builds needs no defaults. *)
Lemma timeout_request_resolved d cb :
  let ev := mkOptions (Some (Fin d)) (Some (mkLoop None (Some (Fin 1%Q)))) None
                      None cb None None in
  resolve_defaults ev = ev
  /\ infiniteDelay ev || zeroDelayWithInfiniteRepetitions ev = false
  /\ noDelayOrLoop ev = false
  /\ clamp_interval (getDelay ev) = JNum (Fin (wait_of d)).
Proof.
  intros ev. split; [|split; [|split]].
  - unfold resolve_defaults, loop_interval, loop_repetitions. subst ev.
    cbn [delay loop interval repetitions is_number prop_truthy negb andb].
    destruct (Num.truthy (Fin d)); reflexivity.
  - unfold infiniteDelay, zeroDelayWithInfiniteRepetitions, loop_repetitions. subst ev.
    cbn [delay loop repetitions is_infinity orb]. rewrite andb_false_r. reflexivity.
  - reflexivity.
  - unfold getDelay. subst ev.
    cbn [delay is_usable Num.isNaN negb prop_val]. unfold js_div1000.
    cbn [toNumber Num.div1000]. apply clamp_interval_Fin.
Qed.

(** X21. [setTimeout(callback, delay)] on a running clock whose early
    tolerance is below 5 ms, with a delay that is a finite number: the
    result is a new event with one repetition,
    none elapsed, whose only callback is [onComplete], queued for the
    current time plus the wait (the delay itself from 50 ms on, 5 ms
    below). Nothing fires during the call. *)
Theorem setTimeout_makes_a_one_shot run_cb fuel c now d cb own eps :
  isRunning c = true ->
  context c = Some now ->
  tolheap c !! clock_tolerance c = Some own ->
  early own = Some (Fin eps) ->
  (eps < 1 # 200)%Q ->
  exists c' s,
    clock_setTimeout run_cb fuel cb (Some (Fin d)) c = Ok (RetEvent (next_ev c)) c'
    /\ self_of c' (next_ev c) = Some s
    /\ s_repetitions s = JNum (Fin 1)
    /\ s_elapsedTickCount s = 0
    /\ s_onComplete s = cb
    /\ s_onTick s = None
    /\ s_onMissed s = None
    /\ s_onAborted s = None
    /\ s_scheduled s = JNum (Fin (now + wait_of d))
    /\ s_suspended s = false
    /\ next_ev c ∈ events c'
    /\ (forall x, x ∈ events c -> x <> next_ev c -> x ∈ events c')
    /\ future c' (next_ev c)
    /\ trace c' = trace c.
Proof.
  intros Hrun Hctx Hown Heps Hlt.
  set (ev := mkOptions (Some (Fin d)) (Some (mkLoop None (Some (Fin 1%Q)))) None
                       None cb None None).
  destruct (timeout_request_resolved d cb) as (Hres & Hg1 & Hg2 & Hw).
  fold ev in Hres, Hg1, Hg2, Hw.
  set (o := fresh (dom (optheap c))).
  set (c0 := set_optheap (<[o := ev]> (optheap c)) c).
  assert (Hst : started_b c0 = true)
    by (unfold started_b, c0; st_simpl; rewrite Hctx, Hrun; reflexivity).
  assert (Hnow : currentTime c0 = JNum (Fin now))
    by (unfold currentTime, c0; st_simpl; rewrite Hctx; reflexivity).
  assert (Ho : optheap c0 !! o = Some ev) by (unfold c0; st_simpl; apply lookup_insert_eq).
  pose proof (wait_of_lower d) as Hlow.
  destruct (schedule_accepts run_cb fuel c0 o ev JUndef own own
              (mkLoop None (Some (Fin 1%Q))) Hst Ho)
    as (c' & uid & Hrun' & Hheap & Hin & Hkeep & Htr & _ & _ & Hctx').
  { rewrite Hres. exact Hg1. }
  { rewrite Hres. exact Hg2. }
  { rewrite Hres. reflexivity. }
  { exact Hown. }
  { exact Hown. }
  { rewrite Hres, Hw, Hnow, fill_tolerance_self, Heps.
    unfold js_geb, js_sub, js_add, Num.geb, Num.sub.
    cbn [toNumber prop_val Num.add Num.neg Num.leb].
    apply leb_false_Fin. lra. }
  rewrite Hres, Hw, Hnow, fill_tolerance_self in Hheap.
  change (next_ev c0) with (next_ev c) in *.
  eexists c', _. split.
  { unfold clock_setTimeout, bind. rewrite new_options_eq. exact Hrun'. }
  split; [eapply self_of_insert; exact Hheap|].
  repeat (split; [reflexivity|]).
  split; [exact Hin|]. split; [exact Hkeep|]. split; [|exact Htr].
  unfold future, earliestOf, currentTime. rewrite Hctx'. unfold c0. st_simpl.
  rewrite Hctx, Hheap, lookup_insert_eq.
  cbn [s_earliest s_tol_early with_intervals with_uid rescheduled with_deadline
       with_suspended fresh_self].
  rewrite Heps. unfold js_ltb, js_sub, js_add, Num.sub.
  cbn [toNumber prop_val Num.add Num.neg].
  apply ltb_Fin. lra.
Qed.

Lemma setTimeout_makes_a_one_shot_witness :
  exists c' s,
    clock_setTimeout inert 5 (Some 8) (Some (Fin 20)) (started 10 [])
      = Ok (RetEvent (next_ev (started 10 []))) c'
    /\ self_of c' (next_ev (started 10 [])) = Some s
    /\ s_repetitions s = JNum (Fin 1)
    /\ s_elapsedTickCount s = 0
    /\ s_onComplete s = Some 8
    /\ s_onTick s = None
    /\ s_onMissed s = None
    /\ s_onAborted s = None
    /\ s_scheduled s = JNum (Fin (10 + wait_of 20))
    /\ s_suspended s = false
    /\ next_ev (started 10 []) ∈ events c'
    /\ (forall x, x ∈ events (started 10 []) -> x <> next_ev (started 10 []) ->
        x ∈ events c')
    /\ future c' (next_ev (started 10 []))
    /\ trace c' = trace (started 10 []).
Proof.
  apply (setTimeout_makes_a_one_shot inert 5 (started 10 []) 10 20 (Some 8)
           default_tolerance (1 # 1000)).
  - reflexivity.
  - reflexivity.
  - vm_compute. reflexivity.
  - reflexivity.
  - vm_compute. reflexivity.
Defined.

(** X22. [setInterval(callback, interval)] with an interval that is zero
    or [NaN] is turned down: the repetitions default to [Infinity], the
    guard against endless loops applies, a warning is logged, the result
    is [undefined], and no event is created. *)
Theorem setInterval_rejects_a_falsy_interval run_cb fuel c cb n :
  started_b c = true ->
  Num.truthy n = false ->
  exists c',
    clock_setInterval run_cb fuel cb (Some n) c = Ok RetUndefined c'
    /\ trace c' =
       trace c ++ [Warn "delay and/or loop repetitions must not be infinite"]
    /\ scheduler_unchanged c c'.
Proof.
  intros Hst Hn.
  set (ev := mkOptions None (Some (mkLoop (Some n) None)) None cb None None None).
  set (o := fresh (dom (optheap c))).
  set (c0 := set_optheap (<[o := ev]> (optheap c)) c).
  assert (Ho : optheap c0 !! o = Some ev) by (unfold c0; st_simpl; apply lookup_insert_eq).
  assert (Hres : resolve_defaults ev = with_loop (Some (mkLoop (Some n) (Some PInf))) ev)
    by reflexivity.
  eexists. split.
  { unfold clock_setInterval, bind. rewrite new_options_eq. fold ev o c0.
    rewrite (clock_schedule_options_running run_cb fuel c0 o ev JUndef Hst Ho).
    cbv zeta. rewrite Hres.
    unfold infiniteDelay, zeroDelayWithInfiniteRepetitions, loop_interval,
      loop_repetitions.
    cbn [delay loop with_loop interval repetitions is_infinity prop_truthy negb
         andb orb].
    rewrite Hn. cbn [negb andb orb]. reflexivity. }
  st_simpl. split; [reflexivity|].
  unfold scheduler_unchanged, same_clock. st_simpl. repeat split.
Qed.

Lemma setInterval_rejects_a_falsy_interval_witness :
  exists c',
    clock_setInterval inert 5 (Some 7) (Some (Fin 0)) (started 10 [])
      = Ok RetUndefined c'
    /\ trace c' =
       trace (started 10 [])
         ++ [Warn "delay and/or loop repetitions must not be infinite"]
    /\ scheduler_unchanged (started 10 []) c'.
Proof.
  apply (setInterval_rejects_a_falsy_interval inert 5 (started 10 []) (Some 7) (Fin 0)).
  - reflexivity.
  - reflexivity.
Defined.

(** X23. [setInterval(callback, interval)] on a running clock whose early
    tolerance is below 5 ms, with an interval that is a finite number
    other than zero: the result is a new
    event that repeats without end, whose only callback is [onTick], with
    the wait (the interval itself from 50 ms on, 5 ms below) as its
    interval, queued for the current time plus the wait. Nothing fires
    during the call. *)
Theorem setInterval_makes_an_endless_repeater run_cb fuel c now i cb own eps :
  isRunning c = true ->
  context c = Some now ->
  tolheap c !! clock_tolerance c = Some own ->
  early own = Some (Fin eps) ->
  (eps < 1 # 200)%Q ->
  ~ (i == 0)%Q ->
  exists c' s,
    clock_setInterval run_cb fuel cb (Some (Fin i)) c = Ok (RetEvent (next_ev c)) c'
    /\ self_of c' (next_ev c) = Some s
    /\ s_repetitions s = JNum PInf
    /\ s_elapsedTickCount s = 0
    /\ s_onTick s = cb
    /\ s_onComplete s = None
    /\ s_onMissed s = None
    /\ s_onAborted s = None
    /\ s_scheduled s = JNum (Fin (now + wait_of i))
    /\ s_currentInterval s = JNum (Fin (wait_of i * 1000 * 1))
    /\ s_suspended s = false
    /\ next_ev c ∈ events c'
    /\ (forall x, x ∈ events c -> x <> next_ev c -> x ∈ events c')
    /\ future c' (next_ev c)
    /\ trace c' = trace c.
Proof.
  intros Hrun Hctx Hown Heps Hlt Hi.
  set (ev := mkOptions None (Some (mkLoop (Some (Fin i)) None)) None cb None None None).
  assert (Hdecl : declared ev i (JNum PInf) (Some i))
    by (apply interval_alone; [reflexivity | reflexivity | assumption]).
  destruct (declared_resolved ev i _ _ Hdecl) as (l & Hl & Hreps & Hg1 & Hg2 & Hw).
  set (o := fresh (dom (optheap c))).
  set (c0 := set_optheap (<[o := ev]> (optheap c)) c).
  assert (Hst : started_b c0 = true)
    by (unfold started_b, c0; st_simpl; rewrite Hctx, Hrun; reflexivity).
  assert (Hnow : currentTime c0 = JNum (Fin now))
    by (unfold currentTime, c0; st_simpl; rewrite Hctx; reflexivity).
  assert (Ho : optheap c0 !! o = Some ev) by (unfold c0; st_simpl; apply lookup_insert_eq).
  pose proof (wait_of_lower i) as Hlow.
  destruct (schedule_accepts run_cb fuel c0 o ev JUndef own own l Hst Ho Hg1 Hg2 Hl)
    as (c' & uid & Hrun' & Hheap & Hin & Hkeep & Htr & _ & _ & Hctx').
  { exact Hown. }
  { exact Hown. }
  { rewrite Hw, Hnow, fill_tolerance_self, Heps.
    unfold js_geb, js_sub, js_add, Num.geb, Num.sub.
    cbn [toNumber prop_val Num.add Num.neg Num.leb].
    apply leb_false_Fin. lra. }
  rewrite Hw, Hnow, fill_tolerance_self in Hheap.
  change (next_ev c0) with (next_ev c) in *.
  eexists c', _. split.
  { unfold clock_setInterval, bind. rewrite new_options_eq. exact Hrun'. }
  split; [eapply self_of_insert; exact Hheap|].
  split; [cbn [s_repetitions with_intervals with_uid rescheduled with_deadline
               with_suspended fresh_self]; exact Hreps|].
  repeat (split; [reflexivity|]).
  split; [exact Hin|]. split; [exact Hkeep|]. split; [|exact Htr].
  unfold future, earliestOf, currentTime. rewrite Hctx'. unfold c0. st_simpl.
  rewrite Hctx, Hheap, lookup_insert_eq.
  cbn [s_earliest s_tol_early with_intervals with_uid rescheduled with_deadline
       with_suspended fresh_self].
  rewrite Heps. unfold js_ltb, js_sub, js_add, Num.sub.
  cbn [toNumber prop_val Num.add Num.neg].
  apply ltb_Fin. lra.
Qed.

Lemma setInterval_makes_an_endless_repeater_witness :
  exists c' s,
    clock_setInterval inert 5 (Some 7) (Some (Fin 20)) (started 10 [])
      = Ok (RetEvent (next_ev (started 10 []))) c'
    /\ self_of c' (next_ev (started 10 [])) = Some s
    /\ s_repetitions s = JNum PInf
    /\ s_elapsedTickCount s = 0
    /\ s_onTick s = Some 7
    /\ s_onComplete s = None
    /\ s_onMissed s = None
    /\ s_onAborted s = None
    /\ s_scheduled s = JNum (Fin (10 + wait_of 20))
    /\ s_currentInterval s = JNum (Fin (wait_of 20 * 1000 * 1))
    /\ s_suspended s = false
    /\ next_ev (started 10 []) ∈ events c'
    /\ (forall x, x ∈ events (started 10 []) -> x <> next_ev (started 10 []) ->
        x ∈ events c')
    /\ future c' (next_ev (started 10 []))
    /\ trace c' = trace (started 10 []).
Proof.
  apply (setInterval_makes_an_endless_repeater inert 5 (started 10 []) 10 20 (Some 7)
           default_tolerance (1 # 1000)).
  - reflexivity.
  - reflexivity.
  - vm_compute. reflexivity.
  - reflexivity.
  - vm_compute. reflexivity.
  - intros H. vm_compute in H. discriminate.
Defined.

(** X24. [hasEvent] by identifier: with distinct identifiers, the answer
    for the identifier of a managed event is the answer for the event, so
    it tells whether the event is in the queue; for an identifier the
    manager does not hold the answer is [false]. *)
Theorem hasEvent_by_identifier c e u :
  NoDup (snd <$> uidmap c) ->
  getUIDFor e c = Ok (Some u) c ->
  clock_hasEvent (ByUid u) c = clock_hasEvent (ByEvent e) c
  /\ clock_hasEvent (ByEvent e) c = Ok (inQueue e (events c)) c
  /\ (forall u', u' ∉ (snd <$> uidmap c) -> clock_hasEvent (ByUid u') c = Ok false c).
Proof.
  intros Hv [= H]. pose proof (map_get_elem _ _ _ H) as Hin.
  unfold clock_hasEvent, bind, getKeyFor.
  rewrite (map_key_of_unique e u) by assumption.
  split; [reflexivity|]. split; [reflexivity|].
  intros u' Hu'. rewrite map_key_of_None by assumption. reflexivity.
Qed.

Lemma hasEvent_by_identifier_witness :
  clock_hasEvent (ByUid 2) idle_store = clock_hasEvent (ByEvent 2) idle_store
  /\ clock_hasEvent (ByEvent 2) idle_store
     = Ok (inQueue 2 (events idle_store)) idle_store
  /\ (forall u', u' ∉ (snd <$> uidmap idle_store) ->
      clock_hasEvent (ByUid u') idle_store = Ok false idle_store).
Proof.
  apply (hasEvent_by_identifier idle_store 2 2).
  - distinct_concrete.
  - reflexivity.
Defined.

(** [schedule] with a request whose early tolerance reaches back to the
    current time: the constructor of the event executes it at once. *)
Lemma schedule_executes_at_once run_cb fuel c o ev d own tol l :
  started_b c = true ->
  optheap c !! o = Some ev ->
  let ev1 := resolve_defaults ev in
  infiniteDelay ev1 || zeroDelayWithInfiniteRepetitions ev1 = false ->
  noDelayOrLoop ev1 = false ->
  loop ev1 = Some l ->
  tolheap c !! clock_tolerance c = Some own ->
  tolheap c !! tol_target c ev = Some tol ->
  let filled := fill_tolerance own tol in
  let wait := clamp_interval (getDelay ev1) in
  let deadline := js_add (currentTime c) wait in
  js_geb (currentTime c) (js_sub deadline (prop_val (early filled))) = true ->
  let e := next_ev c in
  let ev2 := with_tolerance (Some (tol_target c ev)) ev1 in
  let c3 :=
    put_self e (rescheduled deadline (fresh_self ev2 filled l))
      (set_next_ev (S e)
         (completed o ev1 own tol (set_optheap (<[o := ev1]> (optheap c)) c))) in
  schedule run_cb fuel (ArgOptions o) d c =
  (evt <- (ev_execute run_cb fuel e ;;; ret e) ;; after_creation run_cb fuel wait evt) c3.
Proof.
  intros Hrun Ho ev1 Hg1 Hg2 Hl Hown Htol filled wait deadline Hfut e ev2 c3.
  unfold schedule.
  rewrite (clock_schedule_options_running run_cb fuel c o ev JUndef Hrun Ho).
  cbv zeta. fold ev1. rewrite Hg1, Hg2. cbn [deadlineIsSafe]. fold wait. fold deadline.
  set (c1 := set_optheap (<[o:=ev1]> (optheap c)) c).
  assert (Ho1 : optheap c1 !! o = Some ev1)
    by (unfold c1; st_simpl; apply lookup_insert_eq).
  assert (Htt : tol_target c1 ev1 = tol_target c ev)
    by (unfold tol_target; unfold ev1; rewrite tolerance_resolve_defaults; reflexivity).
  unfold bind at 1.
  rewrite (createEvent_eq run_cb fuel o deadline c1 ev1 own tol Ho1 Hown)
    by (rewrite Htt; exact Htol).
  set (c2 := completed o ev1 own tol c1).
  assert (Ho2 : optheap c2 !! o = Some ev2).
  { unfold c2, completed. st_simpl. rewrite Htt. apply lookup_insert_eq. }
  assert (Ht2 : tolheap c2 !! tol_target c ev = Some filled).
  { unfold c2, completed. st_simpl. rewrite Htt. apply lookup_insert_eq. }
  rewrite (newEvent_eq run_cb fuel o deadline c2 ev2 (tol_target c ev) filled l Ho2)
    by (try exact Ht2; try exact Hl; reflexivity).
  change (next_ev c2) with e.
  set (s0 := fresh_self ev2 filled l).
  unfold bind at 1. unfold bind at 1. unfold ev_schedule.
  rewrite (ev_schedule_with_eq _ e deadline false _ s0 (evheap_put_self e s0 _)).
  cbv zeta.
  change (currentTime (put_self e s0 (set_next_ev (S e) c2))) with (currentTime c).
  change (s_earliest (rescheduled deadline s0))
    with (js_sub deadline (prop_val (early filled))).
  rewrite Hfut. cbn [negb orb]. rewrite put_self_put_self.
  fold c3. unfold bind at 3. unfold bind at 2.
  destruct (ev_execute run_cb fuel e c3); reflexivity.
Qed.

(** One call of [execute] for an on-time firing of an endless repeater
    whose handlers count the firings. *)
Lemma ev_execute_halting m fuel e c s f :
  evheap c !! e = Some (Live s) ->
  isRunning c = true ->
  s_suspended s = false ->
  onTimeAt (currentTime c) s = true ->
  s_onTick s = Some f ->
  s_repetitions s = JNum PInf ->
  e ∉ events c ->
  ev_execute (halting m) (S fuel) e c =
  let c1 := fired e s c in
  if Nat.eqb (firings (trace c1)) m then Throw "halt" c1
  else
    ev_schedule_with (ev_execute (halting m) fuel) e
      (js_add (s_scheduled s) (js_div1000 (s_currentInterval s))) false c1.
Proof.
  intros He Hrun Hsus Hon Htick Hreps Hout.
  cbn [ev_execute]. unfold fired, fire_trace, put_self.
  msimp2. rewrite He. msimp2. rewrite Hrun, Hsus. msimp2. time_simpl.
  set (s1 := with_elapsedTickCount (S (s_elapsedTickCount s)) s).
  assert (Hs1 : s_suspended s1 = false) by exact Hsus.
  assert (Hon1 : onTimeAt (currentTime c) s1 = true) by exact Hon.
  assert (Htick1 : s_onTick s1 = Some f) by exact Htick.
  rewrite Hon1, Htick1.
  assert (Hc : isComplete s1 = false).
  { unfold isComplete, s1. cbn [s_repetitions with_elapsedTickCount].
    rewrite Hreps. reflexivity. }
  assert (Hl : isLooping s1 = true).
  { unfold isLooping, s1. cbn [s_repetitions with_elapsedTickCount].
    rewrite Hreps. reflexivity. }
  assert (Hq : inQueue e (remove_first e (events c)) = false).
  { apply inQueue_false. rewrite remove_first_notin by exact Hout. exact Hout. }
  unfold call, halting. msimp2. rewrite <- app_assoc. cbn [app].
  rewrite set_trace_set_trace.
  destruct (firings (trace c ++ [Fire e true; Called OnTick f e]) =? m);
    [reflexivity|].
  st_simpl. rewrite lookup_insert_eq, Hc. cbv beta. st_simpl.
  rewrite Hq, Hl, Hs1. reflexivity.
Qed.

Lemma firings_fired e s c : firings (trace (fired e s c)) = firings (trace c) + 1.
Proof. unfold fired. st_simpl. rewrite firings_app, firings_fire_trace. reflexivity. Qed.

Lemma onTimeAt_Fin now a b s :
  s_earliest s = JNum (Fin a) -> s_latest s = JNum (Fin b) ->
  (a <= now)%Q -> (now <= b)%Q ->
  onTimeAt (JNum (Fin now)) s = true.
Proof.
  intros Ha Hb H1 H2. unfold onTimeAt, js_geb, js_leb, Num.geb. rewrite Ha, Hb.
  cbn [toNumber]. apply andb_true_iff. split; apply leb_Fin; assumption.
Qed.

(** An event without a current interval, as the constructor has it, that
    is due and on time and repeats without end: [execute] puts the
    deadline where it was, finds the event due again and executes it
    again, with no way out but an exception of the handler. *)
Lemma execute_without_interval_fires n :
  forall fuel c e s now d t l f,
    n < fuel ->
    isRunning c = true ->
    context c = Some now ->
    evheap c !! e = Some (Live s) ->
    s_suspended s = false ->
    s_scheduled s = JNum (Fin d) ->
    s_earliest s = JNum (Fin (d + - t)) ->
    s_latest s = JNum (Fin (d + l)) ->
    s_tol_early s = JNum (Fin t) ->
    s_tol_late s = JNum (Fin l) ->
    s_currentInterval s = JNull ->
    s_repetitions s = JNum PInf ->
    s_onTick s = Some f ->
    (d - t <= now)%Q ->
    (now <= d + l)%Q ->
    e ∉ events c ->
    exists c' s' d',
      ev_execute (halting (firings (trace c) + S n)) fuel e c = Throw "halt" c'
      /\ trace c' =
         trace c ++ concat (replicate (S n) [Fire e true; Called OnTick f e])
      /\ evheap c' !! e = Some (Live s')
      /\ s_elapsedTickCount s' = s_elapsedTickCount s + S n
      /\ s_scheduled s' = JNum (Fin d') /\ (d' == d)%Q
      /\ s_currentInterval s' = JNull
      /\ events c' = events c
      /\ uidmap c' = uidmap c.
Proof.
  induction n as [|n IH];
    intros [|fuel] c e s now d t l f Hfuel Hrun Hctx He Hsus Hd Hea Hla Ht Hl Hi
           Hreps Htick Hdue Hnotlate Hout; try lia;
    (assert (Hnow : currentTime c = JNum (Fin now))
      by (unfold currentTime; rewrite Hctx; reflexivity));
    (assert (Hon : onTimeAt (currentTime c) s = true)
      by (rewrite Hnow; apply (onTimeAt_Fin now (d + - t) (d + l) s Hea Hla); lra));
    rewrite (ev_execute_halting _ fuel e c s f He Hrun Hsus Hon Htick Hreps Hout);
    cbv zeta; rewrite firings_fired;
    set (s1 := with_elapsedTickCount (S (s_elapsedTickCount s)) s);
    (assert (Htr : trace (fired e s c) = trace c ++ [Fire e true; Called OnTick f e])
      by (unfold fired; st_simpl; fold s1;
          change (onTimeAt (currentTime c) s1) with (onTimeAt (currentTime c) s);
          rewrite Hon; rewrite (fire_trace_on_time e s1 f Htick); reflexivity)).
  - rewrite Nat.eqb_refl. exists (fired e s c), s1, d.
    split; [reflexivity|]. split; [rewrite Htr; reflexivity|].
    split; [rewrite evheap_fired; apply lookup_insert_eq|].
    split; [unfold s1; cbn [s_elapsedTickCount with_elapsedTickCount]; lia|].
    split; [exact Hd|]. split; [reflexivity|]. split; [exact Hi|].
    split; [apply events_fired; exact Hout | reflexivity].
  - assert (Hne : (firings (trace c) + 1 =? firings (trace c) + S (S n)) = false)
      by (apply Nat.eqb_neq; lia).
    rewrite Hne.
    assert (He1 : evheap (fired e s c) !! e = Some (Live s1))
      by (rewrite evheap_fired; apply lookup_insert_eq).
    rewrite (ev_schedule_with_eq _ e _ false _ s1 He1). cbv zeta. cbn [orb].
    rewrite Hd, Hi.
    change (js_add (JNum (Fin d)) (js_div1000 JNull)) with (JNum (Fin (d + 0 / 1000))).
    assert (Ht1 : s_tol_early s1 = JNum (Fin t)) by exact Ht.
    rewrite (earliest_rescheduled _ t s1 Ht1).
    change (currentTime (fired e s c)) with (currentTime c). rewrite Hnow.
    change (js_geb (JNum (Fin now)) (JNum (Fin (d + 0 / 1000 + - t))))
      with (Qle_bool (d + 0 / 1000 + - t) now).
    assert (Hz : (0 / 1000 == 0)%Q) by reflexivity.
    assert (Hyes : Qle_bool (d + 0 / 1000 + - t) now = true).
    { apply Qle_bool_iff. lra. }
    rewrite Hyes. cbn [negb].
    set (s2 := rescheduled (JNum (Fin (d + 0 / 1000))) s1).
    set (c2 := put_self e s2 (fired e s c)).
    assert (Htr2 : trace c2 = trace c ++ [Fire e true; Called OnTick f e]) by exact Htr.
    assert (Hm : firings (trace c) + S (S n) = firings (trace c2) + S n).
    { rewrite Htr2, firings_app. cbn. lia. }
    rewrite Hm.
    assert (Hea2 : s_earliest s2 = JNum (Fin (d + 0 / 1000 + - t)))
      by (apply earliest_rescheduled; exact Ht1).
    assert (Hla2 : s_latest s2 = JNum (Fin (d + 0 / 1000 + l))).
    { unfold s2, rescheduled. cbn [s_latest with_deadline with_suspended].
      change (s_tol_late s1) with (s_tol_late s). rewrite Hl. reflexivity. }
    assert (Hout2 : e ∉ events c2).
    { change (events c2) with (events (fired e s c)).
      rewrite events_fired by exact Hout. exact Hout. }
    destruct (IH fuel c2 e s2 now (d + 0 / 1000)%Q t l f)
      as (c' & s' & d' & Hex & Htr' & He' & Hcount & Hd' & Hdeq & Hi' & Hev & Hum);
      try first [assumption | reflexivity | apply evheap_put_self | lia | lra].
    exists c', s', d'. split; [exact Hex|].
      split; [rewrite Htr', Htr2, <- app_assoc; reflexivity|].
      split; [exact He'|].
      split; [rewrite Hcount; unfold s2, s1;
              cbn [s_elapsedTickCount rescheduled with_deadline with_suspended
                   with_elapsedTickCount]; lia|].
      split; [exact Hd'|]. split; [rewrite Hdeq; lra|]. split; [exact Hi'|].
      split; [rewrite Hev; change (events c2) with (events (fired e s c));
              apply events_fired; exact Hout|].
      rewrite Hum. reflexivity.
Qed.

Lemma wait_of_pos ms : (0 < wait_of ms)%Q.
Proof.
  unfold wait_of. destruct (Qle_bool (1 # 20) (ms / 1000)) eqn:E.
  - apply Qle_bool_iff in E. lra.
  - reflexivity.
Qed.

(** X25. [setInterval] on a running clock whose early tolerance is not
    below the wait of the request: the constructor finds the new event due
    and executes it at once, while its interval is still unset, so that
    every execution schedules the event for the same deadline and executes
    it again, inside the call and with no time passing. However many
    firings a handler lets pass before it throws, it gets them all: the
    callback is called [n + 1] times, each time for a firing on time, and
    its exception ends the call, with the event not queued and not yet
    under an identifier. *)
Theorem setInterval_within_the_early_tolerance_keeps_firing
    n fuel c now i f own eps lt :
  isRunning c = true ->
  context c = Some now ->
  tolheap c !! clock_tolerance c = Some own ->
  early own = Some (Fin eps) ->
  late own = Some (Fin lt) ->
  (0 <= lt)%Q ->
  ~ (i == 0)%Q ->
  (wait_of i <= eps)%Q ->
  next_ev c ∉ events c ->
  n < fuel ->
  exists c' s' d',
    clock_setInterval (halting (firings (trace c) + S n)) fuel (Some f)
                      (Some (Fin i)) c = Throw "halt" c'
    /\ trace c' =
       trace c ++ concat (replicate (S n) [Fire (next_ev c) true;
                                           Called OnTick f (next_ev c)])
    /\ evheap c' !! next_ev c = Some (Live s')
    /\ s_elapsedTickCount s' = S n
    /\ s_scheduled s' = JNum (Fin d') /\ (d' == now + wait_of i)%Q
    /\ s_currentInterval s' = JNull
    /\ events c' = events c
    /\ uidmap c' = uidmap c.
Proof.
  intros Hrun Hctx Hown Heps Hlate Hlt Hi Hwide Hout Hfuel.
  set (ev := mkOptions None (Some (mkLoop (Some (Fin i)) None)) None (Some f)
                       None None None).
  assert (Hdecl : declared ev i (JNum PInf) (Some i))
    by (apply interval_alone; [reflexivity | reflexivity | assumption]).
  destruct (declared_resolved ev i _ _ Hdecl) as (l & Hl & Hreps & Hg1 & Hg2 & Hw).
  set (o := fresh (dom (optheap c))).
  set (c0 := set_optheap (<[o := ev]> (optheap c)) c).
  assert (Hst : started_b c0 = true)
    by (unfold started_b, c0; st_simpl; rewrite Hctx, Hrun; reflexivity).
  assert (Hnow : currentTime c0 = JNum (Fin now))
    by (unfold currentTime, c0; st_simpl; rewrite Hctx; reflexivity).
  assert (Ho : optheap c0 !! o = Some ev) by (unfold c0; st_simpl; apply lookup_insert_eq).
  pose proof (wait_of_pos i) as Hpos.
  unfold clock_setInterval, bind. rewrite new_options_eq. fold ev o c0.
  match goal with |- context [clock_schedule ?r fuel (ArgOptions o) JUndef c0] =>
    change (clock_schedule r fuel (ArgOptions o) JUndef c0)
      with (schedule r fuel (ArgOptions o) JUndef c0)
  end.
  rewrite (schedule_executes_at_once _ fuel c0 o ev JUndef own own l Hst Ho Hg1 Hg2 Hl
             Hown Hown).
  - cbv zeta. rewrite Hw, Hnow, fill_tolerance_self.
    unfold bind at 1. unfold bind at 1. cbv beta.
    match goal with |- context [ev_execute _ fuel ?e ?c3] =>
      destruct (execute_without_interval_fires n fuel c3 e
                  (rescheduled (js_add (JNum (Fin now)) (JNum (Fin (wait_of i))))
                     (fresh_self
                        (with_tolerance (Some (tol_target c0 ev)) (resolve_defaults ev))
                        own l))
                  now (now + wait_of i)%Q eps lt f)
        as (c' & s' & d' & Hex & Htr & He' & Hcount & Hd' & Hdeq & Hi' & Hev & Hum)
    end;
      try first [assumption | reflexivity | apply evheap_put_self | lra
                | (cbn [s_earliest s_latest s_tol_early s_tol_late rescheduled
                        with_deadline with_suspended fresh_self];
                   rewrite ?Heps, ?Hlate; reflexivity)].
    change (next_ev c0) with (next_ev c) in *.
    match type of Hex with context [firings (trace ?x) + S n] =>
      change (trace x) with (trace c) in Hex
    end.
    exists c', s', d'. rewrite Hex. split; [reflexivity|].
    split; [exact Htr|]. split; [exact He'|]. split; [exact Hcount|].
    split; [exact Hd'|]. split; [exact Hdeq|]. split; [exact Hi'|].
    split; [exact Hev | exact Hum].
  - rewrite Hw, Hnow, fill_tolerance_self, Heps.
    unfold js_geb, js_sub, js_add, Num.geb, Num.sub.
    cbn [toNumber prop_val Num.add Num.neg Num.leb].
    apply leb_Fin. lra.
Qed.

Lemma setInterval_within_the_early_tolerance_keeps_firing_witness :
  exists c' s' d',
    clock_setInterval (halting (firings (trace wide_clock) + 3)) 100 (Some 7)
                      (Some (Fin 20)) wide_clock = Throw "halt" c'
    /\ trace c' =
       trace wide_clock
       ++ concat (replicate 3 [Fire (next_ev wide_clock) true;
                               Called OnTick 7 (next_ev wide_clock)])
    /\ evheap c' !! next_ev wide_clock = Some (Live s')
    /\ s_elapsedTickCount s' = 3
    /\ s_scheduled s' = JNum (Fin d') /\ (d' == 10 + wait_of 20)%Q
    /\ s_currentInterval s' = JNull
    /\ events c' = events wide_clock
    /\ uidmap c' = uidmap wide_clock.
Proof.
  apply (setInterval_within_the_early_tolerance_keeps_firing 2 100 wide_clock 10 20
           7 (mkTolerance (Some (Fin (1 # 100))) (Some (Fin (1 # 10))))
           (1 # 100) (1 # 10)).
  - reflexivity.
  - reflexivity.
  - vm_compute. reflexivity.
  - reflexivity.
  - reflexivity.
  - vm_compute. discriminate.
  - intros H. vm_compute in H. discriminate.
  - vm_compute. discriminate.
  - apply inQueue_false. reflexivity.
  - lia.
Defined.

(** X26. [setTimeout] on a running clock whose early tolerance is not
    below the wait of the request, with callbacks that leave the scheduler
    alone: the constructor finds the new event due and
    executes it, which is its one repetition, so the callback runs and the
    event is deleted inside the call. The scheduler then binds an
    identifier to the cleared event and calls its [_setUid], and the call
    ends in a [TypeError]: the callback has run, nothing is returned, and
    the cleared event is left in the manager. *)
Theorem setTimeout_within_the_early_tolerance_throws fuel c now d f own eps :
  isRunning c = true ->
  context c = Some now ->
  tolheap c !! clock_tolerance c = Some own ->
  early own = Some (Fin eps) ->
  (wait_of d <= eps)%Q ->
  next_ev c ∉ events c ->
  exists c' onTime,
    clock_setTimeout inert (S fuel) (Some f) (Some (Fin d)) c
      = Throw "_self.setUid is not a function" c'
    /\ trace c' = trace c ++ [Fire (next_ev c) onTime; Called OnComplete f (next_ev c)]
    /\ evheap c' !! next_ev c = Some Deleted
    /\ hasUIDFor (next_ev c) c' = Ok true c'
    /\ (next_ev c ∉ events c')
    /\ events c' = events c.
Proof.
  intros Hrun Hctx Hown Heps Hwide Hout.
  set (ev := mkOptions (Some (Fin d)) (Some (mkLoop None (Some (Fin 1%Q)))) None
                       None (Some f) None None).
  destruct (timeout_request_resolved d (Some f)) as (Hres & Hg1 & Hg2 & Hw).
  fold ev in Hres, Hg1, Hg2, Hw.
  set (o := fresh (dom (optheap c))).
  set (c0 := set_optheap (<[o := ev]> (optheap c)) c).
  assert (Hst : started_b c0 = true)
    by (unfold started_b, c0; st_simpl; rewrite Hctx, Hrun; reflexivity).
  assert (Hnow : currentTime c0 = JNum (Fin now))
    by (unfold currentTime, c0; st_simpl; rewrite Hctx; reflexivity).
  assert (Ho : optheap c0 !! o = Some ev) by (unfold c0; st_simpl; apply lookup_insert_eq).
  unfold clock_setTimeout, bind at 1. rewrite new_options_eq. fold ev o c0.
  change (clock_schedule inert (S fuel) (ArgOptions o) JUndef c0)
    with (schedule inert (S fuel) (ArgOptions o) JUndef c0).
  rewrite (schedule_executes_at_once inert (S fuel) c0 o ev JUndef own own
             (mkLoop None (Some (Fin 1%Q))) Hst Ho);
    try first [exact Hown | rewrite Hres; assumption | rewrite Hres; reflexivity].
  2:{ rewrite Hres, Hw, Hnow, fill_tolerance_self, Heps.
      unfold js_geb, js_sub, js_add, Num.geb, Num.sub.
      cbn [toNumber prop_val Num.add Num.neg Num.leb].
      apply leb_Fin. lra. }
  cbv zeta. rewrite Hres, Hw, Hnow, fill_tolerance_self.
  change (next_ev c0) with (next_ev c).
  set (e := next_ev c).
  unfold bind at 1. unfold bind at 1. cbv beta.
  match goal with
  | |- context [ev_execute inert (S fuel) e (put_self e ?s ?base)] =>
      set (s3 := s); set (c3 := put_self e s3 base)
  end.
  assert (He3 : evheap c3 !! e = Some (Live s3)) by apply evheap_put_self.
  assert (Hout3 : e ∉ events c3) by exact Hout.
  rewrite (ev_execute_eq fuel e c3 s3 He3 Hrun eq_refl). cbv zeta.
  set (s1 := with_elapsedTickCount (S (s_elapsedTickCount s3)) s3).
  assert (Hc : isComplete s1 = true) by reflexivity.
  rewrite Hc.
  assert (He1 : evheap (fired e s3 c3) !! e = Some (Live s1))
    by (rewrite evheap_fired; apply lookup_insert_eq).
  rewrite (ev_delete_eq e _ s1 He1). unfold ret at 1. unfold after_creation.
  unfold bind at 1. rewrite generateUIDFor_eq.
  unfold bind at 1. unfold member at 1. unfold bind at 1. unfold get at 1.
  assert (Hdel : evheap (deleted e s1 (fired e s3 c3)) !! e = Some Deleted)
    by (unfold deleted; st_simpl; apply lookup_insert_eq).
  st_simpl. rewrite Hdel. unfold throw.
  eexists _, (onTimeAt (currentTime c3) s1). split; [reflexivity|].
  st_simpl. split; [|split; [exact Hdel|split; [|split]]].
  - assert (Htr3 : trace c3 = trace c) by reflexivity.
    assert (Hft : forall b, fire_trace e s1 b = [Fire e b])
      by (intros [|]; reflexivity).
    assert (Hdt : delete_trace e s1 = [Called OnComplete f e]) by reflexivity.
    transitivity ((trace c3 ++ fire_trace e s1 (onTimeAt (currentTime c3) s1))
                    ++ delete_trace e s1); [reflexivity|].
    rewrite Htr3, Hft, Hdt, <- app_assoc. reflexivity.
  - unfold hasUIDFor. st_simpl. f_equal. apply map_has_elem.
    rewrite fmap_app. apply elem_of_app. right. left.
  - unfold deleted. st_simpl. rewrite events_fired by exact Hout3.
    rewrite remove_first_notin by exact Hout3. exact Hout3.
  - unfold deleted. st_simpl. rewrite events_fired by exact Hout3.
    apply remove_first_notin. exact Hout3.
Qed.

Lemma setTimeout_within_the_early_tolerance_throws_witness :
  exists c' onTime,
    clock_setTimeout inert (S 0) (Some 8) (Some (Fin 20)) wide_clock
      = Throw "_self.setUid is not a function" c'
    /\ trace c' = trace wide_clock
                  ++ [Fire (next_ev wide_clock) onTime;
                      Called OnComplete 8 (next_ev wide_clock)]
    /\ evheap c' !! next_ev wide_clock = Some Deleted
    /\ hasUIDFor (next_ev wide_clock) c' = Ok true c'
    /\ (next_ev wide_clock ∉ events c')
    /\ events c' = events wide_clock.
Proof.
  apply (setTimeout_within_the_early_tolerance_throws 0 wide_clock 10 20 8
           (mkTolerance (Some (Fin (1 # 100))) (Some (Fin (1 # 10)))) (1 # 100)).
  - reflexivity.
  - reflexivity.
  - vm_compute. reflexivity.
  - reflexivity.
  - vm_compute. discriminate.
  - apply inQueue_false. reflexivity.
Defined.
